(** * ESP32-S3 direct-drive servo firmware: serial protocol and control loop

    A shallow embedding of the firmware sources

    - [protocol.h] (wire format, command ids, [crc8]),
    - [config.h]   (servo and timing constants),
    - the main source with [setup()] and [loop()] (receive buffer, frame
      decoder, command dispatcher, safety timeout, control loop),

    followed by the properties of the frame codec, the command dispatcher,
    the safety monitor and the actuator boundary.

    Conventions.  Machine integers are [Z] with the wrap-around of every
    narrowing assignment written out ([u8], [u32], [s16], ...).  Arrays are
    lists indexed with stdpp's lookup; a read outside an array is the
    outcome [OutOfBounds] of the [result] monad.  The file-scope statics of
    the main source are the fields of [State]; the hardware and library calls the
    firmware makes ([millis], [ledcWrite], [Serial.write]) act on the
    remaining fields of the same record. *)

From Stdlib Require Import ZArith List Bool Lia.
From stdpp Require Import base list.

Local Open Scope Z_scope.

(** ** Outcomes of firmware code *)

Inductive result (A : Type) : Type :=
| Ok (a : A)
| OutOfBounds
| OutOfFuel.

Arguments Ok {A} a.
Arguments OutOfBounds {A}.
Arguments OutOfFuel {A}.

Definition bind {A B : Type} (r : result A) (k : A -> result B) : result B :=
  match r with
  | Ok a => k a
  | OutOfBounds => OutOfBounds
  | OutOfFuel => OutOfFuel
  end.

Notation "'let*' x ':=' r 'in' k" := (bind r (fun x => k))
  (at level 10, x pattern, r at level 100, k at level 200).

(** ** Fixed-width integer conversions *)

Definition u8 (z : Z) : Z := z mod 256.
Definition u16 (z : Z) : Z := z mod 65536.
Definition u32 (z : Z) : Z := z mod 4294967296.
Definition u64 (z : Z) : Z := z mod 18446744073709551616.

Definition s16 (z : Z) : Z :=
  let m := z mod 65536 in if m <? 32768 then m else m - 65536.

Definition s32 (z : Z) : Z :=
  let m := z mod 4294967296 in if m <? 2147483648 then m else m - 4294967296.

Definition is_byte (z : Z) : Prop := 0 <= z < 256.

(** ** protocol.h *)

Definition PROTO_HEADER_0 : Z := 0xAA.
Definition PROTO_HEADER_1 : Z := 0x55.
Definition PROTO_MAX_PAYLOAD : Z := 16.

Definition CMD_SET_STEERING : Z := 0x01.
Definition CMD_SET_GAIN : Z := 0x02.
Definition CMD_SET_ENABLE : Z := 0x03.
Definition CMD_TELEMETRY : Z := 0x10.
Definition CMD_FAULT : Z := 0x11.
Definition CMD_HEARTBEAT : Z := 0xF0.

Definition FAULT_NONE : Z := 0x00.
Definition FAULT_SERIAL_TIMEOUT : Z := 0x01.
Definition FAULT_SERVO_ERROR : Z := 0x02.
Definition FAULT_ADC_ERROR : Z := 0x03.

(** One step of the inner [for j] loop of [crc8]. *)
Definition crc8_shift (crc : Z) : Z :=
  if Z.land crc 0x80 =? 0
  then u8 (Z.shiftl crc 1)
  else u8 (Z.lxor (Z.shiftl crc 1) 0x07).

(** One step of the outer [for i] loop of [crc8]. *)
Definition crc8_byte (crc b : Z) : Z :=
  Nat.iter 8 crc8_shift (u8 (Z.lxor crc b)).

(** [crc8(data, len)]: the argument is the [len] bytes at [data]. *)
Definition crc8 (data : list Z) : Z := fold_left crc8_byte data 0.

(** [typedef struct { uint8_t cmd; uint8_t len; uint8_t payload[16]; } Packet] *)
Record Packet : Type := mkPacket {
  cmd : Z;
  len : Z;
  payload : list Z
}.

(** ** config.h *)

Definition SERVO_FREQ_HZ : Z := 50.
Definition SERVO_MIN_US : Z := 500.
Definition SERVO_MAX_US : Z := 2500.
Definition SERVO_CENTER_US : Z := 1500.
Definition CONTROL_LOOP_HZ : Z := 50.
Definition SERIAL_TIMEOUT_MS : Z := 1000.
Definition TELEMETRY_INTERVAL_MS : Z := 20.
Definition HEARTBEAT_INTERVAL_MS : Z := 500.
Definition DEFAULT_GAIN : Z := 50.

(** ** Main source: state *)

Definition RX_BUF_SIZE : Z := 64.
Definition LEDC_CHANNEL : Z := 0.
Definition LEDC_RESOLUTION : Z := 16.

(** The statics of the firmware, then the environment it acts on:
    [millis_calls] counts the calls of [millis()] so far, [ledc_duty] is the
    duty register of the servo's LEDC channel, [ledc_log] records every
    [ledcWrite] with the value [servo_enabled] had at the call, [serial_tx]
    the buffers handed to [Serial.write], and [dispatched] the arguments of
    every call of [handlePacket], oldest first. *)
Record State : Type := mkState {
  servo_enabled : bool;
  commanded_pos : Z;
  gain : Z;
  servo_angle_adc : Z;
  loop_rate_hz : Z;
  fault_code : Z;
  last_cmd_time : Z;
  last_telemetry_time : Z;
  last_heartbeat_time : Z;
  loop_count : Z;
  loop_rate_timer : Z;
  rx_buf : list Z;
  rx_pos : Z;
  millis_calls : nat;
  ledc_duty : Z;
  ledc_log : list (bool * Z);
  serial_tx : list (list Z);
  dispatched : list Packet
}.

Definition set_servo_enabled (v : bool) (st : State) : State :=
  mkState v (commanded_pos st) (gain st) (servo_angle_adc st)
    (loop_rate_hz st) (fault_code st) (last_cmd_time st)
    (last_telemetry_time st) (last_heartbeat_time st) (loop_count st)
    (loop_rate_timer st) (rx_buf st) (rx_pos st) (millis_calls st)
    (ledc_duty st) (ledc_log st) (serial_tx st) (dispatched st).

Definition set_commanded_pos (v : Z) (st : State) : State :=
  mkState (servo_enabled st) v (gain st) (servo_angle_adc st)
    (loop_rate_hz st) (fault_code st) (last_cmd_time st)
    (last_telemetry_time st) (last_heartbeat_time st) (loop_count st)
    (loop_rate_timer st) (rx_buf st) (rx_pos st) (millis_calls st)
    (ledc_duty st) (ledc_log st) (serial_tx st) (dispatched st).

Definition set_gain (v : Z) (st : State) : State :=
  mkState (servo_enabled st) (commanded_pos st) v (servo_angle_adc st)
    (loop_rate_hz st) (fault_code st) (last_cmd_time st)
    (last_telemetry_time st) (last_heartbeat_time st) (loop_count st)
    (loop_rate_timer st) (rx_buf st) (rx_pos st) (millis_calls st)
    (ledc_duty st) (ledc_log st) (serial_tx st) (dispatched st).

Definition set_servo_angle_adc (v : Z) (st : State) : State :=
  mkState (servo_enabled st) (commanded_pos st) (gain st) v (loop_rate_hz st)
    (fault_code st) (last_cmd_time st) (last_telemetry_time st)
    (last_heartbeat_time st) (loop_count st) (loop_rate_timer st) (rx_buf st)
    (rx_pos st) (millis_calls st) (ledc_duty st) (ledc_log st) (serial_tx st)
    (dispatched st).

Definition set_loop_rate_hz (v : Z) (st : State) : State :=
  mkState (servo_enabled st) (commanded_pos st) (gain st) (servo_angle_adc st)
    v (fault_code st) (last_cmd_time st) (last_telemetry_time st)
    (last_heartbeat_time st) (loop_count st) (loop_rate_timer st) (rx_buf st)
    (rx_pos st) (millis_calls st) (ledc_duty st) (ledc_log st) (serial_tx st)
    (dispatched st).

Definition set_fault_code (v : Z) (st : State) : State :=
  mkState (servo_enabled st) (commanded_pos st) (gain st) (servo_angle_adc st)
    (loop_rate_hz st) v (last_cmd_time st) (last_telemetry_time st)
    (last_heartbeat_time st) (loop_count st) (loop_rate_timer st) (rx_buf st)
    (rx_pos st) (millis_calls st) (ledc_duty st) (ledc_log st) (serial_tx st)
    (dispatched st).

Definition set_last_cmd_time (v : Z) (st : State) : State :=
  mkState (servo_enabled st) (commanded_pos st) (gain st) (servo_angle_adc st)
    (loop_rate_hz st) (fault_code st) v (last_telemetry_time st)
    (last_heartbeat_time st) (loop_count st) (loop_rate_timer st) (rx_buf st)
    (rx_pos st) (millis_calls st) (ledc_duty st) (ledc_log st) (serial_tx st)
    (dispatched st).

Definition set_last_telemetry_time (v : Z) (st : State) : State :=
  mkState (servo_enabled st) (commanded_pos st) (gain st) (servo_angle_adc st)
    (loop_rate_hz st) (fault_code st) (last_cmd_time st) v
    (last_heartbeat_time st) (loop_count st) (loop_rate_timer st) (rx_buf st)
    (rx_pos st) (millis_calls st) (ledc_duty st) (ledc_log st) (serial_tx st)
    (dispatched st).

Definition set_last_heartbeat_time (v : Z) (st : State) : State :=
  mkState (servo_enabled st) (commanded_pos st) (gain st) (servo_angle_adc st)
    (loop_rate_hz st) (fault_code st) (last_cmd_time st)
    (last_telemetry_time st) v (loop_count st) (loop_rate_timer st)
    (rx_buf st) (rx_pos st) (millis_calls st) (ledc_duty st) (ledc_log st)
    (serial_tx st) (dispatched st).

Definition set_loop_count (v : Z) (st : State) : State :=
  mkState (servo_enabled st) (commanded_pos st) (gain st) (servo_angle_adc st)
    (loop_rate_hz st) (fault_code st) (last_cmd_time st)
    (last_telemetry_time st) (last_heartbeat_time st) v (loop_rate_timer st)
    (rx_buf st) (rx_pos st) (millis_calls st) (ledc_duty st) (ledc_log st)
    (serial_tx st) (dispatched st).

Definition set_loop_rate_timer (v : Z) (st : State) : State :=
  mkState (servo_enabled st) (commanded_pos st) (gain st) (servo_angle_adc st)
    (loop_rate_hz st) (fault_code st) (last_cmd_time st)
    (last_telemetry_time st) (last_heartbeat_time st) (loop_count st) v
    (rx_buf st) (rx_pos st) (millis_calls st) (ledc_duty st) (ledc_log st)
    (serial_tx st) (dispatched st).

Definition set_rx_buf (v : list Z) (st : State) : State :=
  mkState (servo_enabled st) (commanded_pos st) (gain st) (servo_angle_adc st)
    (loop_rate_hz st) (fault_code st) (last_cmd_time st)
    (last_telemetry_time st) (last_heartbeat_time st) (loop_count st)
    (loop_rate_timer st) v (rx_pos st) (millis_calls st) (ledc_duty st)
    (ledc_log st) (serial_tx st) (dispatched st).

Definition set_rx_pos (v : Z) (st : State) : State :=
  mkState (servo_enabled st) (commanded_pos st) (gain st) (servo_angle_adc st)
    (loop_rate_hz st) (fault_code st) (last_cmd_time st)
    (last_telemetry_time st) (last_heartbeat_time st) (loop_count st)
    (loop_rate_timer st) (rx_buf st) v (millis_calls st) (ledc_duty st)
    (ledc_log st) (serial_tx st) (dispatched st).

Definition set_millis_calls (v : nat) (st : State) : State :=
  mkState (servo_enabled st) (commanded_pos st) (gain st) (servo_angle_adc st)
    (loop_rate_hz st) (fault_code st) (last_cmd_time st)
    (last_telemetry_time st) (last_heartbeat_time st) (loop_count st)
    (loop_rate_timer st) (rx_buf st) (rx_pos st) v (ledc_duty st)
    (ledc_log st) (serial_tx st) (dispatched st).

Definition set_serial_tx (v : list (list Z)) (st : State) : State :=
  mkState (servo_enabled st) (commanded_pos st) (gain st) (servo_angle_adc st)
    (loop_rate_hz st) (fault_code st) (last_cmd_time st)
    (last_telemetry_time st) (last_heartbeat_time st) (loop_count st)
    (loop_rate_timer st) (rx_buf st) (rx_pos st) (millis_calls st)
    (ledc_duty st) (ledc_log st) v (dispatched st).

Definition set_dispatched (v : list Packet) (st : State) : State :=
  mkState (servo_enabled st) (commanded_pos st) (gain st) (servo_angle_adc st)
    (loop_rate_hz st) (fault_code st) (last_cmd_time st)
    (last_telemetry_time st) (last_heartbeat_time st) (loop_count st)
    (loop_rate_timer st) (rx_buf st) (rx_pos st) (millis_calls st)
    (ledc_duty st) (ledc_log st) (serial_tx st) v.

(** ** Main source: servo PWM via LEDC *)

(** [ledcWrite(LEDC_CHANNEL, duty)]: sets the duty register; the log keeps
    the value of [servo_enabled] at the call. *)
Definition ledcWrite (duty : Z) (st : State) : State :=
  mkState (servo_enabled st) (commanded_pos st) (gain st) (servo_angle_adc st)
    (loop_rate_hz st) (fault_code st) (last_cmd_time st)
    (last_telemetry_time st) (last_heartbeat_time st) (loop_count st)
    (loop_rate_timer st) (rx_buf st) (rx_pos st) (millis_calls st)
    duty ((servo_enabled st, duty) :: ledc_log st) (serial_tx st)
    (dispatched st).

Definition microsToTicks (us : Z) : Z :=
  u32 (u64 (u64 (us * Z.shiftl 1 LEDC_RESOLUTION) * SERVO_FREQ_HZ) / 1000000).

(** Arduino's [constrain(amt, low, high)] macro. *)
Definition constrain (amt low high : Z) : Z :=
  if amt <? low then low else if high <? amt then high else amt.

Definition servoWriteUs (us : Z) (st : State) : State :=
  let us := constrain us SERVO_MIN_US SERVO_MAX_US in
  ledcWrite (microsToTicks us) st.

Definition servoDisable (st : State) : State := ledcWrite 0 st.

(** Modelled from the spec: Arduino's [map(x, in_min, in_max, out_min,
    out_max)] is a library function outside the repository; section 4.5
    of the specification describes it as the linear integer map of one
    range onto another, which is the library's
    [(x - in_min) * (out_max - out_min) / (in_max - in_min) + out_min]
    in 32-bit [long] arithmetic with truncating division. *)
Definition arduino_map (x in_min in_max out_min out_max : Z) : Z :=
  s32 (Z.quot (s32 (s32 (x - in_min) * s32 (out_max - out_min)))
              (s32 (in_max - in_min)) + out_min).

Definition positionToUs (pos : Z) (st : State) : Z :=
  let deflection := Z.quot (s32 (pos * gain st)) 100 in
  u32 (arduino_map deflection (-32768) 32767 SERVO_MIN_US SERVO_MAX_US).

(** ** Main source: array accesses *)

(** [a[i]] as an rvalue. *)
Definition rd (a : list Z) (i : Z) : result Z :=
  if i <? 0 then OutOfBounds
  else match a !! Z.to_nat i with
       | Some b => Ok b
       | None => OutOfBounds
       end.

(** The [n] bytes read through the pointer [&a[off]]. *)
Definition rd_range (a : list Z) (off n : Z) : result (list Z) :=
  if n =? 0 then Ok []
  else if (0 <=? off) && (0 <? n) && (off + n <=? Z.of_nat (length a))
       then Ok (take (Z.to_nat n) (drop (Z.to_nat off) a))
       else OutOfBounds.

(** [a[i] = v]. *)
Definition wr (a : list Z) (i v : Z) : result (list Z) :=
  if (0 <=? i) && (i <? Z.of_nat (length a))
  then Ok (<[Z.to_nat i := v]> a)
  else OutOfBounds.

(** [memcpy(&a[off], src, n)]. *)
Definition memcpy (a : list Z) (off : Z) (src : list Z) (n : Z)
  : result (list Z) :=
  let* bytes := rd_range src 0 n in
  if (0 <=? off) && (off + n <=? Z.of_nat (length a))
  then Ok (take (Z.to_nat off) a ++ bytes ++ drop (Z.to_nat (off + n)) a)
  else OutOfBounds.

(** [memmove(a, &a[off], n)]. *)
Definition memmove_front (a : list Z) (off n : Z) : result (list Z) :=
  let* bytes := rd_range a off n in
  Ok (bytes ++ drop (Z.to_nat n) a).

(** ** Main source: outbound packets *)

Definition Serial_write (bytes : list Z) (st : State) : State :=
  set_serial_tx (serial_tx st ++ [bytes]) st.

(** [pkt] is the local array; the bytes handed to [Serial.write] are its
    first [5 + len]. *)
Definition sendPacket (cmd : Z) (payload : list Z) (len : Z) (st : State)
  : result State :=
  let pkt := replicate (Z.to_nat (5 + PROTO_MAX_PAYLOAD)) 0 in
  let* pkt := wr pkt 0 PROTO_HEADER_0 in
  let* pkt := wr pkt 1 PROTO_HEADER_1 in
  let* pkt := wr pkt 2 cmd in
  let* pkt := wr pkt 3 len in
  let* pkt := (if 0 <? len then memcpy pkt 4 payload len else Ok pkt) in
  let* data := rd_range pkt 2 (u8 (2 + len)) in
  let* pkt := wr pkt (4 + len) (crc8 data) in
  let* bytes := rd_range pkt 0 (5 + len) in
  Ok (Serial_write bytes st).

Definition sendTelemetry (st : State) : result State :=
  let payload :=
    [ u8 (Z.land (servo_angle_adc st) 0xFF);
      u8 (Z.land (Z.shiftr (servo_angle_adc st) 8) 0xFF);
      u8 (Z.land (loop_rate_hz st) 0xFF);
      u8 (Z.land (Z.shiftr (loop_rate_hz st) 8) 0xFF) ] in
  sendPacket CMD_TELEMETRY payload 4 st.

Definition sendFault (code : Z) (st : State) : result State :=
  sendPacket CMD_FAULT [code] 1 st.

Section Firmware.

(** [clock n] is what the [n]-th call of [millis()] since power-on
    returns; nothing is assumed about it. *)
Variable clock : nat -> Z.

Definition millis (st : State) : Z * State :=
  (u32 (clock (millis_calls st)), set_millis_calls (S (millis_calls st)) st).

(** ** Main source: protocol handling *)

Definition handlePacket (cmd : Z) (payload : list Z) (len : Z) (st : State)
  : result State :=
  (* the call is logged; [last_cmd_time = millis()] is the first statement *)
  let st := set_dispatched (dispatched st ++ [mkPacket cmd len payload]) st in
  let '(t, st) := millis st in
  let st := set_last_cmd_time t st in
  if cmd =? CMD_SET_STEERING then
    if 2 <=? len then
      let* b0 := rd payload 0 in
      let* b1 := rd payload 1 in
      Ok (set_commanded_pos (s16 (Z.lor b0 (Z.shiftl b1 8))) st)
    else Ok st
  else if cmd =? CMD_SET_GAIN then
    if 1 <=? len then
      let* b0 := rd payload 0 in
      Ok (set_gain (Z.min b0 100) st)
    else Ok st
  else if cmd =? CMD_SET_ENABLE then
    if 1 <=? len then
      let* b0 := rd payload 0 in
      let st := set_servo_enabled (negb (b0 =? 0)) st in
      Ok (if servo_enabled st then st else servoDisable st)
    else Ok st
  else if cmd =? CMD_HEARTBEAT then Ok st
  else Ok st.

(** The [while (Serial.available())] loop; [inp] is what [Serial.read()]
    delivers until the receive FIFO is empty. *)
Fixpoint drain (inp : list Z) (st : State) : State :=
  match inp with
  | [] => st
  | b :: inp' =>
      let st := if RX_BUF_SIZE <=? rx_pos st then set_rx_pos 0 st else st in
      let st := set_rx_buf (<[Z.to_nat (rx_pos st) := u8 b]> (rx_buf st)) st in
      drain inp' (set_rx_pos (u8 (rx_pos st + 1)) st)
  end.

(** The [while (search + 4 < rx_pos)] loop; the result is the final value
    of [search] and the state.  Every iteration that does not leave the
    loop moves [search] forward, so [fuel] bounds the iterations (lemma
    [parse_loop_fuel] below). *)
Fixpoint parse_loop (fuel : nat) (search : Z) (st : State)
  : result (Z * State) :=
  if negb (search + 4 <? rx_pos st) then Ok (search, st)
  else
    match fuel with
    | O => OutOfFuel
    | S fuel' =>
        let* h0 := rd (rx_buf st) search in
        if negb (h0 =? PROTO_HEADER_0) then parse_loop fuel' (u8 (search + 1)) st
        else
          let* h1 := rd (rx_buf st) (search + 1) in
          if negb (h1 =? PROTO_HEADER_1)
          then parse_loop fuel' (u8 (search + 1)) st
          else
            let* cmd := rd (rx_buf st) (search + 2) in
            let* plen := rd (rx_buf st) (search + 3) in
            let total := u8 (5 + plen) in
            if rx_pos st <? search + total then Ok (search, st)
            else
              let crc_data_len := u8 (2 + plen) in
              let* data := rd_range (rx_buf st) (search + 2) crc_data_len in
              let expected := crc8 data in
              let* actual := rd (rx_buf st) (search + 4 + plen) in
              let* st :=
                (if expected =? actual then
                   let* payload := rd_range (rx_buf st) (search + 4) plen in
                   handlePacket cmd payload plen st
                 else Ok st) in
              parse_loop fuel' (u8 (search + total)) st
    end.

Definition processSerial (inp : list Z) (st : State) : result State :=
  let st := drain inp st in
  let* (search, st) := parse_loop (Z.to_nat (rx_pos st)) 0 st in
  if 0 <? search then
    let remaining := u8 (rx_pos st - search) in
    let* buf := memmove_front (rx_buf st) search remaining in
    Ok (set_rx_pos remaining (set_rx_buf buf st))
  else Ok st.

(** ** Main source: setup and loop *)

Definition setup (st : State) : State :=
  let st := servoDisable st in
  let '(t, st) := millis st in
  let st := set_last_cmd_time t st in
  let '(t, st) := millis st in
  set_loop_rate_timer t st.

(** The blocks of [loop()], named after the comments that head them in
    the source; [now] is the [millis()] reading taken at the top of the
    loop. *)

(** [// --- Safety: serial timeout ---] *)
Definition loop_safety (now : Z) (st : State) : result State :=
  if servo_enabled st && (SERIAL_TIMEOUT_MS <? u32 (now - last_cmd_time st))
  then
    let st := set_servo_enabled false st in
    let st := servoDisable st in
    let st := set_fault_code FAULT_SERIAL_TIMEOUT st in
    sendFault (fault_code st) st
  else Ok st.

(** [// --- Drive servo ---] *)
Definition loop_drive (st : State) : State :=
  if servo_enabled st
  then servoWriteUs (positionToUs (commanded_pos st) st) st
  else st.

(** [// --- Send telemetry ---] *)
Definition loop_telemetry (now : Z) (st : State) : result State :=
  if TELEMETRY_INTERVAL_MS <=? u32 (now - last_telemetry_time st)
  then sendTelemetry (set_last_telemetry_time now st)
  else Ok st.

(** [// --- Heartbeat ---] *)
Definition loop_heartbeat (now : Z) (st : State) : result State :=
  if HEARTBEAT_INTERVAL_MS <=? u32 (now - last_heartbeat_time st)
  then sendPacket CMD_HEARTBEAT [] 0 (set_last_heartbeat_time now st)
  else Ok st.

(** [// --- Loop rate measurement ---] *)
Definition loop_rate (now : Z) (st : State) : State :=
  let st := set_loop_count (u32 (loop_count st + 1)) st in
  if 1000 <=? u32 (now - loop_rate_timer st)
  then set_loop_rate_timer now
         (set_loop_count 0 (set_loop_rate_hz (u16 (loop_count st)) st))
  else st.

(** [// --- Pace the loop ---]: one more [millis()] reading; the [delay]
    only lets time pass. *)
Definition loop_pace (now : Z) (st : State) : State :=
  let loop_period_ms := 1000 / CONTROL_LOOP_HZ in
  let '(t, st) := millis st in
  let elapsed := u32 (t - now) in
  st.

(** One call of [loop()]: [inp] is the serial input available to this
    tick and [adc] the value [analogRead] returns. *)
Definition loop (inp : list Z) (adc : Z) (st : State) : result State :=
  let '(now, st) := millis st in
  let* st := processSerial inp st in
  let* st := loop_safety now st in
  let st := set_servo_angle_adc (s16 adc) st in
  let st := loop_drive st in
  let* st := loop_telemetry now st in
  let* st := loop_heartbeat now st in
  let st := loop_rate now st in
  Ok (loop_pace now st).

End Firmware.

(** The state at power-on: the statics with their initialisers, an empty
    receive buffer, and an LEDC duty register holding [duty0]. *)
Definition power_on (duty0 : Z) : State :=
  mkState false 0 DEFAULT_GAIN 0 0 FAULT_NONE 0 0 0 0 0
    (replicate (Z.to_nat RX_BUF_SIZE) 0) 0 0%nat duty0 [] [] [].

(** * Notions used to state the properties *)

(** The receive buffer as the firmware keeps it: a 64-byte array and a
    write cursor inside it. *)
Definition buffer_ok (st : State) : Prop :=
  length (rx_buf st) = Z.to_nat RX_BUF_SIZE /\ 0 <= rx_pos st <= RX_BUF_SIZE.

(** The bytes waiting in the receive buffer, [rx_buf[0 .. rx_pos)]. *)
Definition pending (st : State) : list Z :=
  take (Z.to_nat (rx_pos st)) (rx_buf st).

(** A frame on the wire with trailing byte [k], and the frame the encoder
    produces for a command and a payload. *)
Definition wire (c : Z) (pl : list Z) (k : Z) : list Z :=
  PROTO_HEADER_0 :: PROTO_HEADER_1 :: c :: Z.of_nat (length pl) :: pl ++ [k].

Definition checksum (c : Z) (pl : list Z) : Z :=
  crc8 (c :: Z.of_nat (length pl) :: pl).

Definition frame (c : Z) (pl : list Z) : list Z := wire c pl (checksum c pl).

(** The packet [handlePacket] is called with for a command and payload. *)
Definition packet_of (c : Z) (pl : list Z) : Packet :=
  mkPacket c (Z.of_nat (length pl)) pl.

(** The two-byte header signature occurs inside [g]. *)
Fixpoint has_header (g : list Z) : bool :=
  match g with
  | a :: g' =>
      match g' with
      | b :: _ =>
          ((a =? PROTO_HEADER_0) && (b =? PROTO_HEADER_1)) || has_header g'
      | [] => false
      end
  | [] => false
  end.

(** The scan of one decode pass over the pending bytes [w], as a relation:
    [Scan w ps rest] when the pass hands the packets [ps] to the dispatcher
    and leaves [rest] in the buffer.  It is used to reason about
    [parse_loop] (lemma [parse_loop_Scan]); frames whose length byte makes
    the 8-bit frame size wrap have no scan. *)
Inductive Scan : list Z -> list Packet -> list Z -> Prop :=
| Scan_short (w : list Z) :
    (length w < 5)%nat -> Scan w [] w
| Scan_skip (h0 h1 : Z) (w : list Z) (ps : list Packet) (rest : list Z) :
    (3 <= length w)%nat ->
    h0 <> PROTO_HEADER_0 \/ h1 <> PROTO_HEADER_1 ->
    Scan (h1 :: w) ps rest ->
    Scan (h0 :: h1 :: w) ps rest
| Scan_wait (c n : Z) (tl : list Z) :
    0 <= n <= 250 -> (0 < length tl <= Z.to_nat n)%nat ->
    Scan (PROTO_HEADER_0 :: PROTO_HEADER_1 :: c :: n :: tl) []
         (PROTO_HEADER_0 :: PROTO_HEADER_1 :: c :: n :: tl)
| Scan_frame (c n : Z) (tl : list Z) (k : Z) (ps : list Packet)
    (rest : list Z) :
    0 <= n <= 250 -> tl !! Z.to_nat n = Some k ->
    Scan (drop (S (Z.to_nat n)) tl) ps rest ->
    Scan (PROTO_HEADER_0 :: PROTO_HEADER_1 :: c :: n :: tl)
         ((if crc8 (c :: n :: take (Z.to_nat n) tl) =? k
           then [mkPacket c n (take (Z.to_nat n) tl)] else []) ++ ps)
         rest.

(** A sequence of frames [(command, payload, trailing byte)] on the wire,
    and the packets of those whose trailing byte is the checksum. *)
Fixpoint frames_bytes (fs : list (Z * list Z * Z)) : list Z :=
  match fs with
  | [] => []
  | (c, pl, k) :: fs' => wire c pl k ++ frames_bytes fs'
  end.

Fixpoint frames_packets (fs : list (Z * list Z * Z)) : list Packet :=
  match fs with
  | [] => []
  | (c, pl, k) :: fs' =>
      (if checksum c pl =? k then [packet_of c pl] else [])
        ++ frames_packets fs'
  end.

Section Runs.

Variable clock : nat -> Z.

(** The dispatcher applied to a list of packets, oldest first. *)
Fixpoint dispatch_all (ps : list Packet) (st : State) : result State :=
  match ps with
  | [] => Ok st
  | p :: ps' =>
      let* st := handlePacket clock (cmd p) (payload p) (len p) st in
      dispatch_all ps' st
  end.

(** The decoder run over a stream that arrives in per-tick chunks. *)
Fixpoint run_chunks (chunks : list (list Z)) (st : State) : result State :=
  match chunks with
  | [] => Ok st
  | c :: chunks' =>
      let* st := processSerial clock c st in
      run_chunks chunks' st
  end.

(** Every chunk fits the room left in the receive buffer at its tick. *)
Fixpoint fits (chunks : list (list Z)) (st : State) : bool :=
  match chunks with
  | [] => true
  | c :: chunks' =>
      (rx_pos st + Z.of_nat (length c) <=? RX_BUF_SIZE) &&
      match processSerial clock c st with
      | Ok st' => fits chunks' st'
      | _ => false
      end
  end.

End Runs.

(** The resynchronisation property as the specification states it: any
    garbage, a valid frame, a frame with a wrong trailing byte, a valid
    frame, in any chunking that fits the buffer, give exactly the two valid
    commands. *)
Definition resync_claim (clock : nat -> Z) (g : list Z)
           (c1 : Z) (p1 : list Z) (cb : Z) (pb : list Z) (kb : Z)
           (c2 : Z) (p2 : list Z) (chunks : list (list Z)) (st : State)
  : Prop :=
  buffer_ok st -> rx_pos st = 0 ->
  Forall is_byte g ->
  is_byte c1 -> Forall is_byte p1 -> (length p1 <= 16)%nat ->
  is_byte cb -> Forall is_byte pb -> (length pb <= 16)%nat ->
  is_byte kb -> kb <> checksum cb pb ->
  is_byte c2 -> Forall is_byte p2 -> (length p2 <= 16)%nat ->
  concat chunks = g ++ frame c1 p1 ++ wire cb pb kb ++ frame c2 p2 ->
  fits clock chunks st = true ->
  exists st',
    run_chunks clock chunks st = Ok st' /\
    dispatched st' = dispatched st ++ [packet_of c1 p1; packet_of c2 p2].

(** The packets a scan produces: the length field is the payload size. *)
Definition packet_wf (p : Packet) : Prop :=
  len p = Z.of_nat (length (payload p)) /\ 0 <= len p <= 250.

(** A checksum-valid frame for the packet [p] lies in the array [buf]. *)
Definition valid_frame_in (buf : list Z) (p : Packet) : Prop :=
  len p = Z.of_nat (length (payload p)) /\
  exists off : nat,
    take (5 + length (payload p)) (drop off buf)
    = frame (cmd p) (payload p).

(** The packet is a SetEnable command with a nonzero payload byte. *)
Definition enabling (p : Packet) : bool :=
  (cmd p =? CMD_SET_ENABLE) && (1 <=? len p) &&
  match payload p with
  | b :: _ => negb (b =? 0)
  | [] => false
  end.

(** Fault packets among the buffers written to the serial port. *)
Definition is_fault_packet (bytes : list Z) : bool :=
  match bytes with
  | _ :: _ :: c :: _ => c =? CMD_FAULT
  | _ => false
  end.

Fixpoint count_faults (tx : list (list Z)) : nat :=
  match tx with
  | [] => 0
  | bytes :: tx' =>
      ((if is_fault_packet bytes then 1 else 0) + count_faults tx')%nat
  end.

(** The actuator boundary: no pulses are output exactly when the duty is
    0; every pulse written was written with [servo_enabled] set. *)
Definition relaxed (st : State) : Prop := ledc_duty st = 0.

Definition pulses_only_enabled (st : State) : Prop :=
  forall (e : bool) (d : Z), In (e, d) (ledc_log st) -> d <> 0 -> e = true.

(** The invariant of the actuator boundary (with the size of the receive
    array, which the decode step relies on). *)
Definition actuator_inv (st : State) : Prop :=
  length (rx_buf st) = Z.to_nat RX_BUF_SIZE /\
  (servo_enabled st = false -> relaxed st) /\ pulses_only_enabled st.

Section Ticks.

Variable clock : nat -> Z.

(** Consecutive calls of [loop()], each with its serial input and its ADC
    sample. *)
Fixpoint run_ticks (ticks : list (list Z * Z)) (st : State) : result State :=
  match ticks with
  | [] => Ok st
  | (inp, adc) :: ticks' =>
      let* st := loop clock inp adc st in
      run_ticks ticks' st
  end.

(** The states the firmware goes through: after [setup()], after each
    [loop()], and after each call of [handlePacket] from such a state. *)
Inductive reachable : State -> Prop :=
| reach_setup (duty0 : Z) : reachable (setup clock (power_on duty0))
| reach_loop (inp : list Z) (adc : Z) (st st' : State) :
    reachable st -> loop clock inp adc st = Ok st' -> reachable st'
| reach_dispatch (c : Z) (pl : list Z) (n : Z) (st st' : State) :
    reachable st -> handlePacket clock c pl n st = Ok st' -> reachable st'.

End Ticks.

(** The state a run ends in, for runs on concrete inputs. *)
Definition final_state (r : result State) (otherwise : State) : State :=
  match r with
  | Ok st => st
  | _ => otherwise
  end.

(** The 256 byte values, for facts checked on every byte. *)
Definition all_bytes : list Z := map Z.of_nat (seq 0 256).

(** What a decode pass leaves in the buffer: fewer than five bytes, or the
    beginning of a frame whose end has not arrived. *)
Definition awaiting (w : list Z) : Prop :=
  (length w < 5)%nat \/
  exists c n tl,
    w = PROTO_HEADER_0 :: PROTO_HEADER_1 :: c :: n :: tl /\
    0 <= n <= 250 /\ (length tl <= Z.to_nat n)%nat.

(** A frame [(command, payload, trailing byte)] made of bytes that fits the
    receive buffer. *)
Definition frame_ok (f : Z * list Z * Z) : Prop :=
  is_byte (fst (fst f)) /\ Forall is_byte (snd (fst f)) /\
  (length (snd (fst f)) <= 59)%nat /\ is_byte (snd f).

(** The frames the firmware sends: a fault, telemetry or heartbeat frame
    with its checksum and at most four payload bytes. *)
Definition device_frame (bytes : list Z) : Prop :=
  exists c pl,
    bytes = frame c pl /\ Forall is_byte pl /\ (length pl <= 4)%nat /\
    (c = CMD_FAULT \/ c = CMD_TELEMETRY \/ c = CMD_HEARTBEAT).

(** What the decode loop started at [s] in state [st] may end with: a
    position further on with the buffer untouched and an [awaiting]
    remainder, or an out-of-bounds read, which takes a byte above 250 among
    the bytes scanned; never a lack of fuel. *)
Definition decode_outcome (s : Z) (st : State) (r : result (Z * State))
  : Prop :=
  match r with
  | Ok (s', st') =>
      s <= s' <= rx_pos st /\ rx_buf st' = rx_buf st /\
      rx_pos st' = rx_pos st /\ awaiting (drop (Z.to_nat s') (pending st))
  | OutOfBounds =>
      Exists (fun b => 251 <= b) (drop (Z.to_nat s) (pending st))
  | OutOfFuel => False
  end.

(** The receive loop of [processSerial] once more, with the array write
    [rx_buf[rx_pos++] = ...] checked against the bounds of the array, to
    state that [drain] never writes outside it. *)
Fixpoint drain_checked (inp : list Z) (st : State) : result State :=
  match inp with
  | [] => Ok st
  | b :: inp' =>
      let st := if RX_BUF_SIZE <=? rx_pos st then set_rx_pos 0 st else st in
      let* buf := wr (rx_buf st) (rx_pos st) (u8 b) in
      let st := set_rx_buf buf st in
      drain_checked inp' (set_rx_pos (u8 (rx_pos st + 1)) st)
  end.

(** The duties the servo range allows: no pulses, or a pulse between
    [SERVO_MIN_US] and [SERVO_MAX_US] in LEDC ticks. *)
Definition servo_duty (d : Z) : Prop :=
  d = 0 \/ microsToTicks SERVO_MIN_US <= d <= microsToTicks SERVO_MAX_US.

(** What the blocks of [loop()] behind the decode step may change, from
    the state [st1] the decode step ends in to the state [st'] at the end
    of the tick: they leave the gain, the commanded position, the time of
    the last command, the receive buffer and the dispatcher's log alone,
    send fault, telemetry and heartbeat frames only, and write duties of
    the servo range only. *)
Definition post_decode (st1 st' : State) : Prop :=
  gain st' = gain st1 /\ commanded_pos st' = commanded_pos st1 /\
  last_cmd_time st' = last_cmd_time st1 /\
  rx_pos st' = rx_pos st1 /\ rx_buf st' = rx_buf st1 /\
  dispatched st' = dispatched st1 /\
  (exists new,
      serial_tx st' = serial_tx st1 ++ new /\ Forall device_frame new) /\
  (exists w,
      ledc_log st' = w ++ ledc_log st1 /\
      Forall (fun e => servo_duty (snd e)) w) /\
  (ledc_duty st' = ledc_duty st1 \/ servo_duty (ledc_duty st')).

(** The ranges the statics are declared with and the code relies on. *)
Definition state_ok (st : State) : Prop :=
  buffer_ok st /\ Forall is_byte (rx_buf st) /\
  0 <= gain st <= 100 /\ -32768 <= commanded_pos st < 32768.

(** * Properties *)

(** ** The [result] monad and the array accesses *)

Lemma bind_Ok_inv {A B : Type} (r : result A) (k : A -> result B) (b : B) :
  bind r k = Ok b -> exists a, r = Ok a /\ k a = Ok b.
Proof. destruct r as [a| |]; simpl; intros H; try discriminate. eauto. Qed.

Lemma u8_small (z : Z) : 0 <= z < 256 -> u8 z = z.
Proof. intros H. unfold u8. apply Z.mod_small. lia. Qed.

Lemma u8_range (z : Z) : 0 <= u8 z < 256.
Proof. unfold u8. apply Z.mod_pos_bound. lia. Qed.

Lemma rd_Ok (a : list Z) (i : Z) (b : Z) :
  0 <= i -> a !! Z.to_nat i = Some b -> rd a i = Ok b.
Proof.
  intros Hi Hb. unfold rd.
  destruct (i <? 0) eqn:E; [apply Z.ltb_lt in E; lia|].
  now rewrite Hb.
Qed.

Lemma rd_Ok_inv (a : list Z) (i : Z) (b : Z) :
  rd a i = Ok b -> 0 <= i /\ a !! Z.to_nat i = Some b.
Proof.
  unfold rd. destruct (i <? 0) eqn:E; [discriminate|].
  apply Z.ltb_ge in E. destruct (a !! Z.to_nat i); [|discriminate].
  intros [= ->]. auto.
Qed.

Lemma rd_range_Ok (a : list Z) (off n : Z) :
  0 <= off -> 0 <= n -> off + n <= Z.of_nat (length a) ->
  rd_range a off n = Ok (take (Z.to_nat n) (drop (Z.to_nat off) a)).
Proof.
  intros Hoff Hn Hlen. unfold rd_range.
  destruct (n =? 0) eqn:E.
  - apply Z.eqb_eq in E. subst n. reflexivity.
  - apply Z.eqb_neq in E.
    replace (0 <=? off) with true by (symmetry; apply Z.leb_le; lia).
    replace (0 <? n) with true by (symmetry; apply Z.ltb_lt; lia).
    replace (off + n <=? Z.of_nat (length a)) with true
      by (symmetry; apply Z.leb_le; lia).
    reflexivity.
Qed.

(** ** The command dispatcher leaves the receive buffer alone *)

Section Dispatcher.

Variable clock : nat -> Z.

(** What a call of [handlePacket] does not touch, and what it logs. *)
Lemma handlePacket_frame (c : Z) (pl : list Z) (n : Z) (st st' : State) :
  handlePacket clock c pl n st = Ok st' ->
  rx_buf st' = rx_buf st /\ rx_pos st' = rx_pos st /\
  serial_tx st' = serial_tx st /\ fault_code st' = fault_code st /\
  dispatched st' = dispatched st ++ [mkPacket c n pl].
Proof.
  unfold handlePacket, millis. simpl.
  repeat case_match; simpl; intros Hp;
    repeat (apply bind_Ok_inv in Hp; destruct Hp as (? & _ & Hp); simpl in Hp);
    injection Hp as <-; simpl; repeat case_match; simpl; auto.
Qed.

(** The dispatcher reads at most two payload bytes, and none beyond
    [len]. *)
Lemma handlePacket_total (c : Z) (pl : list Z) (n : Z) (st : State) :
  n <= Z.of_nat (length pl) ->
  exists st', handlePacket clock c pl n st = Ok st'.
Proof.
  intros Hn. unfold handlePacket, millis. simpl.
  assert (R : forall i, 0 <= i < n -> exists b, rd pl i = Ok b).
  { intros i Hi. destruct (lookup_lt_is_Some_2 pl (Z.to_nat i)) as [b Hb];
      [lia|]. exists b. apply rd_Ok; [lia|done]. }
  repeat case_match; eauto;
    repeat match goal with
           | H : (_ <=? _) = true |- _ => apply Z.leb_le in H
           end.
  - destruct (R 0) as [b0 ->]; [lia|]. destruct (R 1) as [b1 ->]; [lia|].
    simpl. eauto.
  - destruct (R 0) as [b0 ->]; [lia|]. simpl. eauto.
  - destruct (R 0) as [b0 ->]; [lia|]. simpl. eauto.
Qed.

End Dispatcher.

(** ** The scan relation *)

Lemma Scan_wf (w : list Z) (ps : list Packet) (rest : list Z) :
  Scan w ps rest -> Forall packet_wf ps.
Proof.
  induction 1 as [w Hw|h0 h1 w ps rest Hlen Hh _ IH|c n tl Hn Htl
                  |c n tl k ps rest Hn Hk _ IH]; auto.
  apply Forall_app. split; [|exact IH].
  destruct (_ =? _); constructor; [|constructor].
  apply lookup_lt_Some in Hk.
  split; simpl; [|lia]. rewrite length_take. lia.
Qed.

(** What a pass leaves behind is left alone by the next pass until new
    bytes arrive. *)
Lemma Scan_rest_stable (w : list Z) (ps : list Packet) (rest : list Z) :
  Scan w ps rest -> Scan rest [] rest.
Proof.
  induction 1; auto.
  - now apply Scan_short.
  - now apply Scan_wait.
Qed.

Lemma Scan_det (w : list Z) (ps : list Packet) (rest : list Z) :
  Scan w ps rest ->
  forall ps' rest', Scan w ps' rest' -> ps = ps' /\ rest = rest'.
Proof.
  induction 1 as [w Hw|h0 h1 w ps rest Hlen Hh _ IH|c n tl Hn Htl
                  |c n tl k ps rest Hn Hk _ IH];
    intros ps' rest' H'; inversion H'; simplify_eq; simpl in *;
    repeat match goal with
           | H : _ !! _ = Some _ |- _ => apply lookup_lt_Some in H
           end;
    try lia; try tauto; auto.
  destruct (IH _ _ ltac:(eassumption)) as [-> ->]. auto.
Qed.

(** A pass over [w ++ e] is a pass over [w] followed by a pass over what
    that left and [e]: the decoder does not depend on how its input is cut
    into chunks. *)
Lemma Scan_split (x : list Z) (ps : list Packet) (rest : list Z) :
  Scan x ps rest ->
  forall w e, x = w ++ e ->
  exists ps1 rest1 ps2,
    Scan w ps1 rest1 /\ Scan (rest1 ++ e) ps2 rest /\ ps = ps1 ++ ps2.
Proof.
  intros HS.
  assert (Short : forall x ps rest w e, Scan x ps rest -> x = w ++ e ->
            (length w < 5)%nat ->
            exists ps1 rest1 ps2,
              Scan w ps1 rest1 /\ Scan (rest1 ++ e) ps2 rest /\
              ps = ps1 ++ ps2).
  { intros x0 ps0 rest0 w e H0 -> Hw. exists [], w, ps0.
    split; [now apply Scan_short|]. auto. }
  induction HS as [x Hx|h0 h1 x ps rest Hlen Hh HS IH|c n tl Hn Htl
                   |c n tl k ps rest Hn Hk HS IH]; intros w e Hxw.
  - eapply Short; [apply Scan_short; exact Hx|exact Hxw|].
    subst x. rewrite length_app in Hx. lia.
  - destruct (decide (length w < 5)%nat) as [Hw|Hw].
    { eapply Short; [|exact Hxw|exact Hw]. now apply Scan_skip. }
    destruct w as [|a [|b w']]; simpl in *; try lia.
    injection Hxw as -> -> ->.
    destruct (IH (b :: w') e eq_refl) as (ps1 & rest1 & ps2 & S1 & S2 & ->).
    exists ps1, rest1, ps2. split; [|auto].
    apply Scan_skip; [lia|exact Hh|exact S1].
  - destruct (decide (length w < 5)%nat) as [Hw|Hw].
    { eapply Short; [|exact Hxw|exact Hw]. now apply Scan_wait. }
    destruct w as [|a0 [|a1 [|a2 [|a3 tw]]]]; simpl in *; try lia.
    injection Hxw as <- <- <- <- ->.
    rewrite length_app in Htl.
    exists [], (PROTO_HEADER_0 :: PROTO_HEADER_1 :: c :: n :: tw), [].
    split; [apply Scan_wait; [exact Hn|lia]|].
    split; [|reflexivity]. simpl.
    apply Scan_wait; [exact Hn|rewrite length_app; lia].
  - destruct (decide (length w < 5)%nat) as [Hw|Hw].
    { eapply Short; [|exact Hxw|exact Hw]. now apply Scan_frame. }
    destruct w as [|a0 [|a1 [|a2 [|a3 tw]]]]; simpl in *; try lia.
    injection Hxw as <- <- <- <- ->.
    destruct (decide (length tw <= Z.to_nat n)%nat) as [Ht|Ht].
    + exists [], (PROTO_HEADER_0 :: PROTO_HEADER_1 :: c :: n :: tw),
        ((if crc8 (c :: n :: take (Z.to_nat n) (tw ++ e)) =? k
          then [mkPacket c n (take (Z.to_nat n) (tw ++ e))] else []) ++ ps).
      split; [apply Scan_wait; [exact Hn|lia]|].
      split; [|reflexivity]. simpl. now apply Scan_frame.
    + rewrite drop_app_le in IH by lia.
      destruct (IH _ _ eq_refl) as (ps1 & rest1 & ps2 & S1 & S2 & ->).
      rewrite lookup_app_l in Hk by lia.
      rewrite take_app_le by lia.
      exists ((if crc8 (c :: n :: take (Z.to_nat n) tw) =? k
               then [mkPacket c n (take (Z.to_nat n) tw)] else []) ++ ps1),
        rest1, ps2.
      split; [now apply Scan_frame|]. split; [exact S2|].
      now rewrite app_assoc.
Qed.

(** A pass over well-formed frames hands the checksum-valid ones to the
    dispatcher, in order, and leaves nothing. *)
Lemma Scan_frames (fs : list (Z * list Z * Z)) :
  Forall (fun f => (length (snd (fst f)) <= 250)%nat) fs ->
  Scan (frames_bytes fs) (frames_packets fs) [].
Proof.
  induction 1 as [|[[c pl] k] fs Hf _ IH]; simpl in *.
  - apply Scan_short. simpl. lia.
  - unfold wire, checksum, packet_of. simpl.
    rewrite <- app_assoc. simpl.
    set (n := Z.of_nat (length pl)).
    assert (Hn : Z.to_nat n = length pl) by (unfold n; lia).
    pose proof (Scan_frame c n (pl ++ k :: frames_bytes fs) k
                  (frames_packets fs) []) as HF.
    rewrite Hn, take_app_length in HF. apply HF.
    + unfold n. lia.
    + now rewrite list_lookup_middle.
    + rewrite cons_middle, app_assoc.
      rewrite drop_app_length' by (rewrite length_app; simpl; lia).
      exact IH.
Qed.

(** Bytes without a header signature in front of a frame are skipped one
    at a time. *)
Lemma has_header_cons (a b : Z) (g : list Z) :
  has_header (a :: b :: g) = false ->
  (a <> PROTO_HEADER_0 \/ b <> PROTO_HEADER_1) /\ has_header (b :: g) = false.
Proof.
  simpl. intros H. apply orb_false_iff in H as [H1 H2]. split; [|exact H2].
  apply andb_false_iff in H1 as [H1|H1]; apply Z.eqb_neq in H1; auto.
Qed.

Lemma has_header_drop (n : nat) (g : list Z) :
  has_header g = false -> has_header (drop n g) = false.
Proof.
  revert g. induction n as [|n IH]; intros g Hg; [now rewrite drop_0|].
  destruct g as [|a [|b g]]; simpl; auto.
  apply (IH (b :: g)). now apply has_header_cons in Hg.
Qed.

Lemma Scan_garbage_then (g : list Z) (x : Z) (w : list Z)
      (ps : list Packet) (rest : list Z) :
  has_header g = false -> x <> PROTO_HEADER_1 -> (3 <= length w)%nat ->
  Scan (x :: w) ps rest -> Scan (g ++ x :: w) ps rest.
Proof.
  intros Hg Hx Hw HS. induction g as [|a g IH]; [exact HS|].
  destruct g as [|b g]; simpl in *.
  - apply Scan_skip; [lia|auto|exact HS].
  - apply has_header_cons in Hg as [Hab Hg].
    apply Scan_skip; [rewrite length_app; simpl; lia|exact Hab|].
    apply IH. exact Hg.
Qed.

Lemma Scan_garbage_only (g : list Z) :
  has_header g = false -> Scan g [] (drop (length g - 4) g).
Proof.
  induction g as [|a g IH]; intros Hg.
  - apply Scan_short. simpl. lia.
  - destruct (decide (length (a :: g) < 5)%nat) as [Hs|Hs].
    + replace (length (a :: g) - 4)%nat with 0%nat by lia.
      rewrite drop_0. now apply Scan_short.
    + destruct g as [|b g]; simpl in Hs; [lia|].
      apply has_header_cons in Hg as [Hab Hg].
      replace (length (a :: b :: g) - 4)%nat
        with (S (length (b :: g) - 4)) by (simpl; lia).
      simpl drop at 1.
      apply Scan_skip; [lia|exact Hab|]. now apply IH.
Qed.

(** ** The receive buffer *)

Lemma length_pending (st : State) :
  buffer_ok st -> length (pending st) = Z.to_nat (rx_pos st).
Proof.
  intros [Hlen Hpos]. unfold pending. rewrite length_take.
  unfold RX_BUF_SIZE in *. lia.
Qed.

(** Draining keeps everything but the receive buffer and its cursor. *)
Lemma drain_frame (inp : list Z) (st : State) :
  exists b r, drain inp st = set_rx_pos r (set_rx_buf b st).
Proof.
  revert st. induction inp as [|x inp IH]; intros st; simpl.
  - exists (rx_buf st), (rx_pos st). now destruct st.
  - match goal with |- context [drain inp ?s] => destruct (IH s) as (b & r & ->) end.
    exists b, r. destruct (RX_BUF_SIZE <=? rx_pos st); reflexivity.
Qed.

(** Draining a chunk that fits appends it to the pending bytes. *)
Lemma drain_fits (inp : list Z) (st : State) :
  buffer_ok st -> Forall is_byte inp ->
  rx_pos st + Z.of_nat (length inp) <= RX_BUF_SIZE ->
  buffer_ok (drain inp st) /\
  rx_pos (drain inp st) = rx_pos st + Z.of_nat (length inp) /\
  pending (drain inp st) = pending st ++ inp.
Proof.
  revert st. induction inp as [|x inp IH]; intros st Hok Hb Hfit.
  - simpl. rewrite app_nil_r. split; [exact Hok|]. split; [lia|reflexivity].
  - simpl in Hfit. inversion Hb as [|? ? Hx Hb']; subst.
    destruct Hok as [Hlen Hpos]. unfold RX_BUF_SIZE in *.
    cbn [drain]. unfold RX_BUF_SIZE.
    destruct (64 <=? rx_pos st) eqn:E; [apply Z.leb_le in E; lia|].
    set (st1 := set_rx_pos _ _).
    assert (Hok1 : buffer_ok st1).
    { split; simpl; [now rewrite length_insert|].
      unfold RX_BUF_SIZE. rewrite u8_small; lia. }
    assert (Hpos1 : rx_pos st1 = rx_pos st + 1).
    { simpl. rewrite u8_small; lia. }
    destruct (IH st1 Hok1 Hb') as (Hok' & Hpos' & Hpend').
    { rewrite Hpos1. unfold RX_BUF_SIZE. lia. }
    split; [exact Hok'|]. split; [simpl length; lia|].
    rewrite Hpend'. unfold pending. rewrite Hpos1. simpl rx_buf.
    rewrite u8_small by exact Hx.
    replace (Z.to_nat (rx_pos st + 1)) with (S (Z.to_nat (rx_pos st))) by lia.
    erewrite take_S_r by (apply list_lookup_insert_eq; lia).
    rewrite take_insert_ge by lia. rewrite <- app_assoc. reflexivity.
Qed.

(** The pending bytes from [search] on, inside the array. *)
Lemma buf_window (st : State) (s : Z) (w : list Z) :
  buffer_ok st -> 0 <= s <= rx_pos st ->
  drop (Z.to_nat s) (pending st) = w ->
  exists pre post,
    rx_buf st = pre ++ w ++ post /\ length pre = Z.to_nat s /\
    Z.of_nat (length w) = rx_pos st - s.
Proof.
  intros [Hlen Hpos] Hs Hw. unfold RX_BUF_SIZE in *.
  exists (take (Z.to_nat s) (rx_buf st)),
         (drop (Z.to_nat (rx_pos st)) (rx_buf st)).
  split; [|split].
  - rewrite <- Hw. unfold pending.
    rewrite <- (drop_app_le (take _ _)) by (rewrite length_take; lia).
    now rewrite !take_drop.
  - rewrite length_take. lia.
  - rewrite <- Hw. unfold pending. rewrite length_drop, length_take. lia.
Qed.

Lemma rd_window (buf pre w post : list Z) (s j b : Z) :
  buf = pre ++ w ++ post -> length pre = Z.to_nat s -> 0 <= s -> 0 <= j ->
  w !! Z.to_nat j = Some b -> rd buf (s + j) = Ok b.
Proof.
  intros -> Hpre Hs Hj Hb. apply rd_Ok; [lia|].
  rewrite lookup_app_r by lia.
  replace (Z.to_nat (s + j) - length pre)%nat with (Z.to_nat j) by lia.
  now apply lookup_app_l_Some.
Qed.

Lemma rd_range_window (buf pre w post : list Z) (s j n : Z) :
  buf = pre ++ w ++ post -> length pre = Z.to_nat s -> 0 <= s -> 0 <= j ->
  0 <= n -> j + n <= Z.of_nat (length w) ->
  rd_range buf (s + j) n = Ok (take (Z.to_nat n) (drop (Z.to_nat j) w)).
Proof.
  intros -> Hpre Hs Hj Hn Hfit.
  rewrite rd_range_Ok; [|lia|lia|rewrite !length_app; lia].
  f_equal. rewrite drop_app_ge by lia.
  replace (Z.to_nat (s + j) - length pre)%nat with (Z.to_nat j) by lia.
  rewrite drop_app_le by lia. apply take_app_le. rewrite length_drop. lia.
Qed.

Section Decoder.

Variable clock : nat -> Z.

Lemma parse_loop_stop (fuel : nat) (s : Z) (st : State) :
  rx_pos st <= s + 4 -> parse_loop clock fuel s st = Ok (s, st).
Proof.
  intros H. assert (E : (s + 4 <? rx_pos st) = false) by (apply Z.ltb_ge; lia).
  destruct fuel; simpl; now rewrite E.
Qed.

(** [parse_loop] follows the scan: it dispatches the scan's packets in
    order and stops with [search] in front of what the scan leaves. *)
Lemma parse_loop_Scan (w : list Z) (ps : list Packet) (rest : list Z) :
  Scan w ps rest ->
  forall fuel s st,
    buffer_ok st -> 0 <= s <= rx_pos st ->
    drop (Z.to_nat s) (pending st) = w -> (length w <= fuel)%nat ->
    parse_loop clock fuel s st =
    (let* st' := dispatch_all clock ps st in
     Ok (rx_pos st - Z.of_nat (length rest), st')).
Proof.
  induction 1 as [w Hw|h0 h1 w ps rest Hlen Hh HS IH|c n tl Hn Htl
                  |c n tl k ps rest Hn Hk HS IH];
    intros fuel s st Hok Hs Hwin Hfuel;
    destruct (buf_window st s _ Hok Hs Hwin) as (pre & post & Hbuf & Hpre & Hsz).
  - simpl. rewrite parse_loop_stop by lia. do 2 f_equal. lia.
  - simpl length in *.
    destruct fuel as [|fuel]; [lia|]. cbn [parse_loop].
    replace (s + 4 <? rx_pos st) with true by (symmetry; apply Z.ltb_lt; lia).
    cbn [negb].
    replace s with (s + 0) at 1 by lia.
    rewrite (rd_window _ _ _ _ s 0 h0 Hbuf Hpre) by (try lia; reflexivity).
    rewrite (rd_window _ _ _ _ s 1 h1 Hbuf Hpre) by (try lia; reflexivity).
    cbn [bind].
    assert (Hu : u8 (s + 1) = s + 1).
    { apply u8_small. destruct Hok as [_ Hp]. unfold RX_BUF_SIZE in Hp. lia. }
    rewrite Hu.
    assert (Hnext : parse_loop clock fuel (s + 1) st =
                    (let* st' := dispatch_all clock ps st in
                     Ok (rx_pos st - Z.of_nat (length rest), st'))).
    { apply IH; [exact Hok|lia| |simpl; lia].
      replace (Z.to_nat (s + 1)) with (Z.to_nat s + 1)%nat by lia.
      rewrite <- drop_drop. now rewrite Hwin. }
    destruct (h0 =? PROTO_HEADER_0) eqn:E0; cbn [negb]; [|exact Hnext].
    destruct (h1 =? PROTO_HEADER_1) eqn:E1; cbn [negb]; [|exact Hnext].
    apply Z.eqb_eq in E0, E1. tauto.
  - simpl length in *.
    destruct fuel as [|fuel]; [lia|]. cbn [parse_loop].
    replace (s + 4 <? rx_pos st) with true by (symmetry; apply Z.ltb_lt; lia).
    cbn [negb].
    replace s with (s + 0) at 1 by lia.
    rewrite (rd_window _ _ _ _ s 0 _ Hbuf Hpre) by (try lia; reflexivity).
    rewrite (rd_window _ _ _ _ s 1 _ Hbuf Hpre) by (try lia; reflexivity).
    rewrite (rd_window _ _ _ _ s 2 c Hbuf Hpre) by (try lia; reflexivity).
    rewrite (rd_window _ _ _ _ s 3 n Hbuf Hpre) by (try lia; reflexivity).
    cbn [bind]. rewrite !Z.eqb_refl. cbn [negb].
    rewrite (u8_small (5 + n)) by lia.
    replace (rx_pos st <? s + (5 + n)) with true
      by (symmetry; apply Z.ltb_lt; lia).
    cbn [dispatch_all bind]. do 2 f_equal. lia.
  - pose proof (lookup_lt_Some _ _ _ Hk) as Hlt.
    simpl length in *.
    destruct fuel as [|fuel]; [lia|]. cbn [parse_loop].
    replace (s + 4 <? rx_pos st) with true by (symmetry; apply Z.ltb_lt; lia).
    cbn [negb].
    replace s with (s + 0) at 1 by lia.
    rewrite (rd_window _ _ _ _ s 0 _ Hbuf Hpre) by (try lia; reflexivity).
    rewrite (rd_window _ _ _ _ s 1 _ Hbuf Hpre) by (try lia; reflexivity).
    rewrite (rd_window _ _ _ _ s 2 c Hbuf Hpre) by (try lia; reflexivity).
    rewrite (rd_window _ _ _ _ s 3 n Hbuf Hpre) by (try lia; reflexivity).
    cbn [bind]. rewrite !Z.eqb_refl. cbn [negb].
    rewrite (u8_small (5 + n)) by lia. rewrite (u8_small (2 + n)) by lia.
    replace (rx_pos st <? s + (5 + n)) with false
      by (symmetry; apply Z.ltb_ge; lia).
    rewrite (rd_range_window _ _ _ _ s 2 (2 + n) Hbuf Hpre)
      by (simpl length; lia).
    replace (s + 4 + n) with (s + (4 + n)) by lia.
    rewrite (rd_window _ _ _ _ s (4 + n) k Hbuf Hpre); try lia.
    2:{ replace (Z.to_nat (4 + n)) with (4 + Z.to_nat n)%nat by lia.
        exact Hk. }
    cbn [bind].
    replace (take (Z.to_nat (2 + n)) (drop (Z.to_nat 2)
               (PROTO_HEADER_0 :: PROTO_HEADER_1 :: c :: n :: tl)))
      with (c :: n :: take (Z.to_nat n) tl).
    2:{ replace (Z.to_nat (2 + n)) with (S (S (Z.to_nat n))) by lia.
        reflexivity. }
    assert (Hu : u8 (s + (5 + n)) = s + (5 + n)).
    { apply u8_small. destruct Hok as [_ Hp]. unfold RX_BUF_SIZE in Hp. lia. }
    rewrite Hu.
    assert (Hnext : forall st1, rx_buf st1 = rx_buf st -> rx_pos st1 = rx_pos st ->
              parse_loop clock fuel (s + (5 + n)) st1 =
              (let* st' := dispatch_all clock ps st1 in
               Ok (rx_pos st - Z.of_nat (length rest), st'))).
    { intros st1 Eb Ep. rewrite <- Ep. apply IH.
      - destruct Hok. split; congruence.
      - lia.
      - unfold pending. rewrite Eb, Ep. fold (pending st).
        replace (Z.to_nat (s + (5 + n))) with (Z.to_nat s + (5 + Z.to_nat n))%nat
          by lia.
        rewrite <- drop_drop, Hwin. reflexivity.
      - rewrite length_drop. lia. }
    destruct (crc8 (c :: n :: take (Z.to_nat n) tl) =? k) eqn:Ecrc.
    + rewrite (rd_range_window _ _ _ _ s 4 n Hbuf Hpre)
        by (simpl length; lia).
      cbn [bind app dispatch_all cmd len payload].
      change (drop (Z.to_nat 4) (PROTO_HEADER_0 :: PROTO_HEADER_1 :: c :: n :: tl))
        with tl.
      destruct (handlePacket clock c (take (Z.to_nat n) tl) n st)
        as [st1| |] eqn:Eh; cbn [bind]; try reflexivity.
      apply handlePacket_frame in Eh as (Eb & Ep & _).
      now apply Hnext.
    + cbn [bind app]. now apply Hnext.
Qed.

End Decoder.

Lemma Scan_rest_suffix (w : list Z) (ps : list Packet) (rest : list Z) :
  Scan w ps rest -> exists pre, w = pre ++ rest.
Proof.
  induction 1 as [w Hw|h0 h1 w ps rest Hlen Hh _ IH|c n tl Hn Htl
                  |c n tl k ps rest Hn Hk _ IH].
  - now exists [].
  - destruct IH as [pre ->]. now exists (h0 :: pre).
  - now exists [].
  - destruct IH as [pre Hpre].
    exists (PROTO_HEADER_0 :: PROTO_HEADER_1 :: c :: n
              :: take (S (Z.to_nat n)) tl ++ pre).
    simpl. rewrite <- app_assoc, <- Hpre. now rewrite take_drop.
Qed.

Section DecoderRuns.

Variable clock : nat -> Z.

Lemma dispatch_all_frame (ps : list Packet) (st st' : State) :
  dispatch_all clock ps st = Ok st' ->
  rx_buf st' = rx_buf st /\ rx_pos st' = rx_pos st /\
  serial_tx st' = serial_tx st /\ fault_code st' = fault_code st /\
  dispatched st' = dispatched st ++ ps.
Proof.
  revert st. induction ps as [|[c n pl] ps IH]; intros st; simpl.
  - intros [= ->]. now rewrite app_nil_r.
  - intros H. apply bind_Ok_inv in H as (st1 & H1 & H2).
    apply handlePacket_frame in H1 as (E1 & E2 & E3 & E4 & E5).
    apply IH in H2 as (F1 & F2 & F3 & F4 & F5).
    rewrite F1, F2, F3, F4, F5, E1, E2, E3, E4, E5, <- app_assoc. auto.
Qed.

Lemma dispatch_all_total (ps : list Packet) (st : State) :
  Forall packet_wf ps -> exists st', dispatch_all clock ps st = Ok st'.
Proof.
  intros H. revert st. induction H as [|p ps [Hp _] _ IH]; intros st; simpl.
  - eauto.
  - destruct (handlePacket_total clock (cmd p) (payload p) (len p) st)
      as [st1 ->]; [lia|]. simpl. apply IH.
Qed.

(** One tick of the decoder, from the pending bytes after the drain. *)
Lemma processSerial_drained (inp : list Z) (st : State) (ps : list Packet)
      (rest : list Z) :
  buffer_ok (drain inp st) ->
  Scan (pending (drain inp st)) ps rest ->
  exists st1 st',
    dispatch_all clock ps (drain inp st) = Ok st1 /\
    processSerial clock inp st = Ok st' /\
    (exists b r, st' = set_rx_pos r (set_rx_buf b st1)) /\
    buffer_ok st' /\ pending st' = rest.
Proof.
  intros Hokd HS.
  set (d := drain inp st) in *.
  destruct (dispatch_all_total ps d (Scan_wf _ _ _ HS)) as [st1 Hst1].
  pose proof (dispatch_all_frame _ _ _ Hst1) as (Eb & Ep & _).
  pose proof (length_pending d Hokd) as Hlen.
  destruct (Scan_rest_suffix _ _ _ HS) as [pre Hpre].
  assert (Hrl : Z.of_nat (length rest) <= rx_pos d).
  { apply (f_equal length) in Hpre. rewrite length_app in Hpre.
    destruct Hokd. lia. }
  assert (Hdrop : drop (Z.to_nat (rx_pos d - Z.of_nat (length rest)))
                    (pending d) = rest).
  { rewrite Hpre.
    apply drop_app_length'. apply (f_equal length) in Hpre.
    rewrite length_app in Hpre. lia. }
  assert (Hok1 : buffer_ok st1) by (destruct Hokd; split; congruence).
  exists st1. unfold processSerial. fold d.
  rewrite (parse_loop_Scan clock _ _ _ HS (Z.to_nat (rx_pos d)) 0 d Hokd);
    [|destruct Hokd; lia|now rewrite drop_0|lia].
  rewrite Hst1. cbn [bind].
  set (search := rx_pos d - Z.of_nat (length rest)) in *.
  destruct (0 <? search) eqn:E.
  - apply Z.ltb_lt in E.
    assert (Hrem : u8 (rx_pos st1 - search) = Z.of_nat (length rest)).
    { rewrite Ep. unfold search. rewrite u8_small; [lia|].
      destruct Hokd as [_ Hp]. unfold RX_BUF_SIZE in Hp. lia. }
    rewrite Hrem. unfold memmove_front.
    assert (Hwin1 : drop (Z.to_nat search) (pending st1) = rest).
    { unfold pending. rewrite Eb, Ep. exact Hdrop. }
    destruct (buf_window st1 search rest Hok1 ltac:(lia) Hwin1)
      as (pre1 & post1 & Hbuf & Hpre1 & Hsz).
    pose proof (rd_range_window _ _ _ _ search 0 (Z.of_nat (length rest))
                  Hbuf Hpre1) as Hr.
    rewrite Z.add_0_r in Hr. rewrite Hr by lia.
    cbn [bind]. rewrite drop_0, Nat2Z.id, firstn_all.
    eexists. split; [reflexivity|]. split; [reflexivity|].
    split; [eauto|].
    destruct Hok1 as [Hl1 Hp1]. unfold RX_BUF_SIZE in *.
    split.
    + split; simpl; unfold RX_BUF_SIZE.
      * rewrite length_app, length_drop. lia.
      * lia.
    + unfold pending. simpl. rewrite Nat2Z.id. apply take_app_length.
  - apply Z.ltb_ge in E. exists st1. split; [reflexivity|].
    split; [reflexivity|].
    split; [exists (rx_buf st1), (rx_pos st1); now destruct st1|].
    split; [exact Hok1|].
    rewrite <- Hdrop. unfold pending. rewrite Eb, Ep.
    replace (Z.to_nat search) with 0%nat by lia. now rewrite drop_0.
Qed.

(** The same with what the tick logs: the packets of the scan, and no
    more, are appended to the dispatcher's log. *)
Lemma processSerial_drained_log (inp : list Z) (st : State)
      (ps : list Packet) (rest : list Z) :
  buffer_ok (drain inp st) ->
  Scan (pending (drain inp st)) ps rest ->
  exists st',
    processSerial clock inp st = Ok st' /\ buffer_ok st' /\
    pending st' = rest /\ dispatched st' = dispatched st ++ ps.
Proof.
  intros Hokd HS.
  destruct (processSerial_drained inp st ps rest Hokd HS)
    as (st1 & st' & Hd & Hp & (b & r & Hst') & Hok' & Hpend').
  exists st'. split; [exact Hp|]. split; [exact Hok'|]. split; [exact Hpend'|].
  rewrite Hst'. simpl.
  apply dispatch_all_frame in Hd as (_ & _ & _ & _ & ->).
  destruct (drain_frame inp st) as (b' & r' & ->). reflexivity.
Qed.

(** One tick of the decoder on a chunk that fits the buffer. *)
Lemma processSerial_Scan (inp : list Z) (st : State) (ps : list Packet)
      (rest : list Z) :
  buffer_ok st -> Forall is_byte inp ->
  rx_pos st + Z.of_nat (length inp) <= RX_BUF_SIZE ->
  Scan (pending st ++ inp) ps rest ->
  exists st',
    processSerial clock inp st = Ok st' /\ buffer_ok st' /\
    pending st' = rest /\ dispatched st' = dispatched st ++ ps.
Proof.
  intros Hok Hb Hfit HS.
  destruct (drain_fits inp st Hok Hb Hfit) as (Hokd & Hposd & Hpend).
  apply processSerial_drained_log; [exact Hokd|now rewrite Hpend].
Qed.

(** The decoder over a chunked stream: if every chunk fits, the packets
    dispatched are those of one scan of the whole stream. *)
Lemma run_chunks_Scan (chunks : list (list Z)) :
  forall (st : State) (ps : list Packet) (rest : list Z),
    buffer_ok st -> Scan (pending st) [] (pending st) ->
    fits clock chunks st = true -> Forall (Forall is_byte) chunks ->
    Scan (pending st ++ concat chunks) ps rest ->
    exists st',
      run_chunks clock chunks st = Ok st' /\ buffer_ok st' /\
      dispatched st' = dispatched st ++ ps /\ pending st' = rest.
Proof.
  induction chunks as [|c chunks IH]; intros st ps rest Hok Hst Hfit Hb HS.
  - simpl in HS. rewrite app_nil_r in HS.
    destruct (Scan_det _ _ _ Hst _ _ HS) as [<- <-].
    exists st. simpl. now rewrite app_nil_r.
  - simpl in HS, Hfit. rewrite app_assoc in HS.
    apply andb_true_iff in Hfit as [Hfit1 Hfit2]. apply Z.leb_le in Hfit1.
    inversion Hb as [|? ? Hbc Hbs]; subst.
    destruct (Scan_split _ _ _ HS _ _ eq_refl)
      as (ps1 & rest1 & ps2 & S1 & S2 & ->).
    destruct (processSerial_Scan c st ps1 rest1 Hok Hbc Hfit1 S1)
      as (st' & Hp & Hok' & Hpend' & Hd).
    rewrite Hp in Hfit2. simpl. rewrite Hp. cbn [bind].
    rewrite <- Hpend' in S2.
    destruct (IH st' ps2 rest Hok') as (st'' & Hrun & Hok'' & Hdisp & Hrest);
      auto.
    { rewrite Hpend'. eapply Scan_rest_stable. exact S1. }
    exists st''. split; [exact Hrun|]. split; [exact Hok''|].
    split; [|exact Hrest].
    rewrite Hdisp, Hd. now rewrite app_assoc.
Qed.

End DecoderRuns.

(** ** The encoder *)

Lemma crc8_shift_range (crc : Z) : is_byte (crc8_shift crc).
Proof. unfold crc8_shift. destruct (_ =? _); apply u8_range. Qed.

Lemma crc8_byte_range (crc b : Z) : is_byte (crc8_byte crc b).
Proof. unfold crc8_byte. simpl. apply crc8_shift_range. Qed.

Lemma crc8_range (data : list Z) : is_byte (crc8 data).
Proof.
  unfold crc8. assert (H0 : is_byte 0) by (unfold is_byte; lia).
  revert H0. generalize 0. induction data as [|b data IH]; intros acc Hacc.
  - exact Hacc.
  - simpl. apply IH. apply crc8_byte_range.
Qed.

Lemma wire_bytes_ok (c : Z) (pl : list Z) (k : Z) :
  is_byte c -> Forall is_byte pl -> (length pl <= 255)%nat -> is_byte k ->
  Forall is_byte (wire c pl k).
Proof.
  intros Hc Hpl Hlen Hk. unfold wire.
  apply Forall_cons_2; [unfold is_byte, PROTO_HEADER_0; lia|].
  apply Forall_cons_2; [unfold is_byte, PROTO_HEADER_1; lia|].
  apply Forall_cons_2; [exact Hc|].
  apply Forall_cons_2; [unfold is_byte; lia|].
  apply Forall_app. split; [exact Hpl|].
  apply Forall_cons_2; [exact Hk|constructor].
Qed.

Lemma frame_bytes_ok (c : Z) (pl : list Z) :
  is_byte c -> Forall is_byte pl -> (length pl <= 255)%nat ->
  Forall is_byte (frame c pl).
Proof.
  intros Hc Hpl Hlen. apply wire_bytes_ok; auto. apply crc8_range.
Qed.

(** For a payload of at most 16 bytes [sendPacket] writes header,
    command, length, payload and checksum to the serial port. *)
Lemma sendPacket_frame (c : Z) (pl : list Z) (st : State) :
  (length pl <= 16)%nat ->
  sendPacket c pl (Z.of_nat (length pl)) st = Ok (Serial_write (frame c pl) st).
Proof.
  intros Hlen. unfold sendPacket, frame, wire, checksum.
  generalize crc8 Serial_write. intros f w.
  do 17 (destruct pl as [|? pl]; [vm_compute; reflexivity|]).
  simpl in Hlen. lia.
Qed.

(** ** Overflow of the receive buffer *)

Lemma drain_app (a b : list Z) (st : State) :
  drain (a ++ b) st = drain b (drain a st).
Proof. revert st. induction a as [|x a IH]; intros st; simpl; auto. Qed.

(** A byte arriving at a full buffer restarts it. *)
Lemma drain_full (x : Z) (inp : list Z) (st : State) :
  buffer_ok st -> rx_pos st = RX_BUF_SIZE ->
  is_byte x -> Forall is_byte inp -> (length inp <= 63)%nat ->
  buffer_ok (drain (x :: inp) st) /\
  rx_pos (drain (x :: inp) st) = 1 + Z.of_nat (length inp) /\
  pending (drain (x :: inp) st) = x :: inp.
Proof.
  intros [Hlen Hpos] Hfull Hx Hb Hn. unfold RX_BUF_SIZE in *.
  cbn [drain]. unfold RX_BUF_SIZE. rewrite Hfull. cbn [Z.leb Z.compare Pos.compare Pos.compare_cont].
  set (st1 := set_rx_pos _ _).
  assert (Hok1 : buffer_ok st1).
  { split; simpl; [now rewrite length_insert|]. unfold RX_BUF_SIZE.
    rewrite u8_small; lia. }
  assert (Hpos1 : rx_pos st1 = 1) by reflexivity.
  assert (Hpend1 : pending st1 = [x]).
  { unfold pending. rewrite Hpos1. simpl rx_buf.
    rewrite u8_small by exact Hx.
    destruct (rx_buf st) as [|y buf]; [simpl in Hlen; lia|reflexivity]. }
  destruct (drain_fits inp st1 Hok1 Hb) as (Hok' & Hpos' & Hpend').
  { rewrite Hpos1. unfold RX_BUF_SIZE. lia. }
  split; [exact Hok'|]. split; [rewrite Hpos', Hpos1; reflexivity|].
  now rewrite Hpend', Hpend1.
Qed.

Lemma drain_wrap_full (n : nat) :
  forall (inp : list Z) (st : State),
    length inp = n -> (0 < n)%nat ->
    buffer_ok st -> rx_pos st = RX_BUF_SIZE -> Forall is_byte inp ->
    let m := (Z.of_nat (length inp) - 1) mod 64 + 1 in
    buffer_ok (drain inp st) /\ rx_pos (drain inp st) = m /\
    pending (drain inp st) = drop (length inp - Z.to_nat m) inp.
Proof.
  induction n as [n IH] using lt_wf_ind.
  intros inp st Hn Hpos Hok Hfull Hb m.
  destruct (decide (n <= 64)%nat) as [Hs|Hl].
  - destruct inp as [|x inp]; [simpl in Hn; lia|].
    inversion Hb as [|? ? Hx Hb']; subst.
    destruct (drain_full x inp st Hok Hfull Hx Hb') as (Hok' & Hpos' & Hpend');
      [simpl in Hs; lia|].
    assert (Hm : m = Z.of_nat (length (x :: inp))).
    { unfold m. rewrite Z.mod_small; simpl length in *; lia. }
    split; [exact Hok'|]. split; [rewrite Hpos', Hm; simpl length; lia|].
    rewrite Hpend', Hm, Nat2Z.id, Nat.sub_diag. reflexivity.
  - rewrite <- (take_drop 64 inp) at 1 2 3. rewrite drain_app.
    assert (Ha : length (take 64 inp) = 64%nat) by (rewrite length_take; lia).
    assert (Hba : Forall is_byte (take 64 inp)) by now apply Forall_take.
    assert (Hbb : Forall is_byte (drop 64 inp)) by now apply Forall_drop.
    destruct (take 64 inp) as [|x a] eqn:Ea; [simpl in Ha; lia|].
    inversion Hba as [|? ? Hx Hba']; subst.
    destruct (drain_full x a st Hok Hfull Hx Hba') as (Hok1 & Hpos1 & _);
      [simpl in Ha; lia|].
    assert (Hlb : length (drop 64 inp) = (length inp - 64)%nat)
      by apply length_drop.
    destruct (IH (length inp - 64)%nat ltac:(lia) (drop 64 inp)
                 (drain (x :: a) st) Hlb ltac:(lia) Hok1) as (Hok2 & Hpos2 & Hpend2);
      [rewrite Hpos1; unfold RX_BUF_SIZE; simpl in Ha; lia|exact Hbb|].
    assert (Hm : (Z.of_nat (length (drop 64 inp)) - 1) mod 64 + 1 = m).
    { unfold m. rewrite Hlb.
      replace (Z.of_nat (length inp - 64) - 1)
        with (Z.of_nat (length inp) - 1 + (-1) * 64) by lia.
      now rewrite Z_mod_plus_full. }
    rewrite Hm in Hpos2, Hpend2.
    split; [exact Hok2|]. split; [exact Hpos2|].
    rewrite Hpend2, drop_drop. f_equal.
    assert (1 <= m <= 64) by (unfold m; Z.div_mod_to_equations; lia).
    assert (m <= Z.of_nat (length (drop 64 inp)))
      by (rewrite <- Hm, Hlb; Z.div_mod_to_equations; lia).
    rewrite Hlb in *. lia.
Qed.

(** Draining more bytes than the buffer has room for: the cursor has
    gone back to the start of the array (once per 64 bytes), and only the
    last [m] bytes of the input are pending. *)
Lemma drain_wrap (inp : list Z) (st : State) :
  buffer_ok st -> Forall is_byte inp ->
  RX_BUF_SIZE < rx_pos st + Z.of_nat (length inp) ->
  let m := (rx_pos st + Z.of_nat (length inp) - 1) mod 64 + 1 in
  buffer_ok (drain inp st) /\ rx_pos (drain inp st) = m /\
  pending (drain inp st) = drop (length inp - Z.to_nat m) inp.
Proof.
  intros Hok Hb Hover m. pose proof Hok as [Hlen Hpos].
  unfold RX_BUF_SIZE in *.
  set (room := Z.to_nat (64 - rx_pos st)).
  rewrite <- (take_drop room inp) at 1 2 3. rewrite drain_app.
  assert (Ha : length (take room inp) = room)
    by (rewrite length_take; unfold room; lia).
  destruct (drain_fits (take room inp) st Hok) as (Hok1 & Hpos1 & _);
    [now apply Forall_take|unfold RX_BUF_SIZE, room in *; lia|].
  assert (Hlb : length (drop room inp) = (length inp - room)%nat)
    by apply length_drop.
  destruct (drain_wrap_full _ (drop room inp) (drain (take room inp) st)
              eq_refl ltac:(unfold room in *; lia) Hok1) as (Hok2 & Hpos2 & Hpend2);
    [unfold RX_BUF_SIZE, room in *; lia|now apply Forall_drop|].
  assert (Hm : (Z.of_nat (length (drop room inp)) - 1) mod 64 + 1 = m).
  { unfold m. rewrite Hlb.
    replace (Z.of_nat (length inp - room) - 1)
      with (rx_pos st + Z.of_nat (length inp) - 1 + (-1) * 64)
      by (unfold room; lia).
    now rewrite Z_mod_plus_full. }
  rewrite Hm in Hpos2, Hpend2.
  split; [exact Hok2|]. split; [exact Hpos2|].
  rewrite Hpend2, drop_drop. f_equal.
  assert (1 <= m <= 64) by (unfold m; Z.div_mod_to_equations; lia).
  assert (m <= rx_pos st + Z.of_nat (length inp) - 64)
    by (unfold m; Z.div_mod_to_equations; lia).
  rewrite Hlb. unfold room. lia.
Qed.

(** ** Frame codec: round trip, resynchronisation, overflow *)

Lemma Forall_concat_inv {A : Type} (P : A -> Prop) (ls : list (list A)) :
  Forall P (concat ls) -> Forall (Forall P) ls.
Proof.
  induction ls as [|l ls IH]; simpl; intros H; [constructor|].
  apply Forall_app in H as [H1 H2]. constructor; auto.
Qed.

Lemma pending_empty (st : State) : rx_pos st = 0 -> pending st = [].
Proof. intros H. unfold pending. now rewrite H. Qed.

Lemma pending_nil_rx_pos (st : State) :
  buffer_ok st -> pending st = [] -> rx_pos st = 0.
Proof.
  intros Hok H. pose proof (length_pending st Hok) as Hl.
  rewrite H in Hl. simpl in Hl. destruct Hok. lia.
Qed.

Lemma Scan_one_frame (c : Z) (pl : list Z) :
  (length pl <= 250)%nat -> Scan (frame c pl) [packet_of c pl] [].
Proof.
  intros Hlen.
  pose proof (Scan_frames [(c, pl, checksum c pl)]) as HS.
  simpl in HS. rewrite Z.eqb_refl, !app_nil_r in HS.
  apply HS. constructor; [simpl; lia|constructor].
Qed.

(** Garbage without a header signature, then frames. *)
Lemma Scan_garbage_frames (g : list Z) (f : Z * list Z * Z)
      (fs : list (Z * list Z * Z)) :
  has_header g = false ->
  Forall (fun f => (length (snd (fst f)) <= 250)%nat) (f :: fs) ->
  Scan (g ++ frames_bytes (f :: fs)) (frames_packets (f :: fs)) [].
Proof.
  intros Hg Hfs. pose proof (Scan_frames (f :: fs) Hfs) as HS.
  destruct f as [[c pl] k]. cbn [frames_bytes] in *. unfold wire in *.
  cbn [app] in *.
  apply Scan_garbage_then; [exact Hg|unfold PROTO_HEADER_0, PROTO_HEADER_1; lia| |exact HS].
  simpl. rewrite !length_app. simpl. lia.
Qed.

(** C3 (round trip).  For every command id and every payload of at most
    16 bytes, the bytes [sendPacket] hands to [Serial.write], fed to
    [processSerial] on an empty receive buffer, make the decoder call
    [handlePacket] exactly once, with the command id, the length and the
    payload the encoder was given; the buffer is empty again afterwards. *)
Theorem roundtrip_encode_decode (clock : nat -> Z) (c : Z) (pl : list Z)
        (sender st : State) :
  is_byte c -> Forall is_byte pl -> (length pl <= 16)%nat ->
  buffer_ok st -> rx_pos st = 0 ->
  exists bytes sender' st',
    sendPacket c pl (Z.of_nat (length pl)) sender = Ok sender' /\
    serial_tx sender' = serial_tx sender ++ [bytes] /\
    processSerial clock bytes st = Ok st' /\
    dispatched st' = dispatched st ++ [mkPacket c (Z.of_nat (length pl)) pl] /\
    rx_pos st' = 0.
Proof.
  intros Hc Hpl Hlen Hok Hpos.
  exists (frame c pl). rewrite sendPacket_frame by exact Hlen.
  destruct (processSerial_Scan clock (frame c pl) st [packet_of c pl] [])
    as (st' & Hp & Hok' & Hpend & Hd).
  - exact Hok.
  - apply frame_bytes_ok; auto; lia.
  - rewrite Hpos. unfold frame, wire, RX_BUF_SIZE. simpl.
    rewrite length_app. simpl. lia.
  - rewrite pending_empty by exact Hpos. apply Scan_one_frame. lia.
  - eexists. exists st'. split; [reflexivity|]. split; [reflexivity|].
    split; [exact Hp|]. split; [exact Hd|].
    now apply pending_nil_rx_pos.
Qed.

(** C8 (overflow safety).  When more bytes without a header signature
    arrive in one tick than the 64-byte receive buffer has room for, the
    write cursor restarts at the beginning of the array: after the drain
    only the last [m <= 64] bytes of the input are buffered, everything
    before them is abandoned, and the tick dispatches nothing.  A
    checksum-valid frame that arrives afterwards, in the next tick or
    behind the garbage in the same tick where it still fits, is decoded
    and dispatched, and it is the only packet dispatched. *)
Theorem overflow_reset_then_frame (clock : nat -> Z) (g : list Z) (c : Z)
        (pl : list Z) (st : State) :
  buffer_ok st -> Forall is_byte g -> has_header g = false ->
  RX_BUF_SIZE < rx_pos st + Z.of_nat (length g) ->
  is_byte c -> Forall is_byte pl -> (length pl <= 16)%nat ->
  let m := (rx_pos st + Z.of_nat (length g) - 1) mod 64 + 1 in
  rx_pos (drain g st) = m /\ 1 <= m <= RX_BUF_SIZE /\
  pending (drain g st) = drop (length g - Z.to_nat m) g /\
  (exists st1 st2,
      processSerial clock g st = Ok st1 /\
      dispatched st1 = dispatched st /\
      processSerial clock (frame c pl) st1 = Ok st2 /\
      dispatched st2 = dispatched st ++ [packet_of c pl]) /\
  (m + Z.of_nat (length (frame c pl)) <= RX_BUF_SIZE ->
   exists st',
     processSerial clock (g ++ frame c pl) st = Ok st' /\
     dispatched st' = dispatched st ++ [packet_of c pl]).
Proof.
  intros Hok Hg Hh Hover Hc Hpl Hlen m.
  destruct (drain_wrap g st Hok Hg Hover) as (Hokd & Hposd & Hpendd).
  fold m in Hposd, Hpendd.
  assert (Hm : 1 <= m <= RX_BUF_SIZE)
    by (unfold m, RX_BUF_SIZE; Z.div_mod_to_equations; lia).
  set (gm := drop (length g - Z.to_nat m) g) in *.
  assert (Hgm : has_header gm = false) by now apply has_header_drop.
  assert (Hfb : Forall is_byte (frame c pl))
    by (apply frame_bytes_ok; auto; lia).
  assert (Hfl : Z.of_nat (length (frame c pl)) <= 21).
  { unfold frame, wire. simpl. rewrite length_app. simpl. lia. }
  assert (Hgf : forall t, has_header t = false ->
                  Scan (t ++ frame c pl) [packet_of c pl] []).
  { intros t Ht.
    pose proof (Scan_garbage_frames t (c, pl, checksum c pl) [] Ht) as HS.
    simpl in HS. rewrite Z.eqb_refl, !app_nil_r in HS.
    apply HS. constructor; [simpl; lia|constructor]. }
  split; [exact Hposd|]. split; [exact Hm|]. split; [exact Hpendd|]. split.
  - destruct (processSerial_drained_log clock g st [] (drop (length gm - 4) gm))
      as (st1 & Hp1 & Hok1 & Hpend1 & Hd1).
    { exact Hokd. }
    { rewrite Hpendd. now apply Scan_garbage_only. }
    rewrite app_nil_r in Hd1.
    destruct (processSerial_Scan clock (frame c pl) st1 [packet_of c pl] [])
      as (st2 & Hp2 & _ & _ & Hd2).
    + exact Hok1.
    + exact Hfb.
    + pose proof (length_pending st1 Hok1) as Hl. rewrite Hpend1 in Hl.
      rewrite length_drop in Hl. destruct Hok1 as [_ Hr].
      assert (length gm <= 64)%nat.
      { unfold gm. rewrite length_drop. unfold RX_BUF_SIZE in Hm. lia. }
      unfold RX_BUF_SIZE in *. lia.
    + rewrite Hpend1. apply Hgf. now apply has_header_drop.
    + exists st1, st2. rewrite Hd2, Hd1. auto.
  - intros Hroom.
    destruct (drain_fits (frame c pl) (drain g st) Hokd Hfb)
      as (Hok2 & _ & Hpend2); [rewrite Hposd; exact Hroom|].
    rewrite <- drain_app in Hok2, Hpend2.
    destruct (processSerial_drained_log clock (g ++ frame c pl) st
                [packet_of c pl] []) as (st' & Hp & _ & _ & Hd).
    + exact Hok2.
    + rewrite Hpend2, Hpendd. now apply Hgf.
    + exists st'. auto.
Qed.

(** C2, amended (resynchronisation).  Start from an empty receive buffer
    and feed, in per-tick chunks of which each fits the room left in the
    buffer at its tick, a stream made of garbage bytes in which the header
    signature AA 55 does not occur, a checksum-valid frame, a frame whose
    trailing byte is not its checksum, and another checksum-valid frame
    (payloads of at most 16 bytes).  Then the decoder dispatches exactly
    the two checksum-valid commands, in stream order, whatever the
    partition into chunks, and ends with an empty buffer. *)
Theorem resync_chunked (clock : nat -> Z) (g : list Z)
        (c1 : Z) (p1 : list Z) (cb : Z) (pb : list Z) (kb : Z)
        (c2 : Z) (p2 : list Z) (chunks : list (list Z)) (st : State) :
  buffer_ok st -> rx_pos st = 0 ->
  Forall is_byte g -> has_header g = false ->
  is_byte c1 -> Forall is_byte p1 -> (length p1 <= 16)%nat ->
  is_byte cb -> Forall is_byte pb -> (length pb <= 16)%nat ->
  is_byte kb -> kb <> checksum cb pb ->
  is_byte c2 -> Forall is_byte p2 -> (length p2 <= 16)%nat ->
  concat chunks = g ++ frame c1 p1 ++ wire cb pb kb ++ frame c2 p2 ->
  fits clock chunks st = true ->
  exists st',
    run_chunks clock chunks st = Ok st' /\
    dispatched st' = dispatched st ++ [packet_of c1 p1; packet_of c2 p2] /\
    rx_pos st' = 0.
Proof.
  intros Hok Hpos Hg Hh Hc1 Hp1 Hl1 Hcb Hpb Hlb Hkb Hbad Hc2 Hp2 Hl2
         Hstream Hfits.
  pose proof (Scan_garbage_frames g (c1, p1, checksum c1 p1)
                [(cb, pb, kb); (c2, p2, checksum c2 p2)] Hh) as HS.
  cbn [frames_bytes frames_packets] in HS.
  rewrite !Z.eqb_refl in HS.
  replace (checksum cb pb =? kb) with false in HS
    by (symmetry; apply Z.eqb_neq; congruence).
  rewrite !app_nil_r in HS. cbn [app] in HS.
  fold (frame c1 p1) (frame c2 p2) in HS. rewrite <- Hstream in HS.
  destruct (run_chunks_Scan clock chunks st
              [packet_of c1 p1; packet_of c2 p2] [])
    as (st' & Hrun & Hok' & Hd & Hpend).
  - exact Hok.
  - rewrite pending_empty by exact Hpos. apply Scan_short. simpl. lia.
  - exact Hfits.
  - apply Forall_concat_inv. rewrite Hstream.
    repeat (apply Forall_app; split); auto;
      try apply frame_bytes_ok; try apply wire_bytes_ok; auto; lia.
  - rewrite pending_empty by exact Hpos. apply HS.
    repeat (constructor; [simpl; lia|]). constructor.
  - exists st'. split; [exact Hrun|]. split; [exact Hd|].
    now apply pending_nil_rx_pos.
Qed.

(** C2, as stated, fails: garbage may hold the header signature.  With
    the garbage AA 55 00 03, the decoder takes the next three bytes (the
    start of the first valid frame) as a payload, drops that pseudo-frame
    on its checksum, and resumes in the middle of the valid frame: only the
    second valid command is dispatched.  The whole stream is one chunk of
    26 bytes. *)
Lemma resync_garbage_counterexample :
  ~ resync_claim (fun _ => 0) [0xAA; 0x55; 0; 3]
      CMD_HEARTBEAT [] CMD_SET_GAIN [7] 0 CMD_SET_ENABLE [1]
      [[0xAA; 0x55; 0; 3] ++ frame CMD_HEARTBEAT []
         ++ wire CMD_SET_GAIN [7] 0 ++ frame CMD_SET_ENABLE [1]]
      (power_on 0).
Proof.
  unfold resync_claim. intros H.
  destruct H as (st' & Hrun & Hd).
  all: try (split; [reflexivity|vm_compute; intuition congruence]).
  all: try reflexivity.
  all: try (unfold is_byte; vm_compute; intuition congruence).
  all: try (repeat constructor; unfold is_byte; vm_compute;
            intuition congruence).
  vm_compute in Hrun. injection Hrun as <-. vm_compute in Hd. discriminate.
Qed.

(** C4 at a failing input: a checksum-valid frame whose length byte is 17,
    one more than [PROTO_MAX_PAYLOAD], is handed to [handlePacket] with
    [len = 17]. *)
Lemma oversize_frame_dispatched (clock : nat -> Z) :
  exists st',
    processSerial clock (frame CMD_HEARTBEAT (replicate 17 0)) (power_on 0)
    = Ok st' /\
    dispatched st' = [mkPacket CMD_HEARTBEAT 17 (replicate 17 0)] /\
    PROTO_MAX_PAYLOAD < 17.
Proof.
  destruct (processSerial_Scan clock (frame CMD_HEARTBEAT (replicate 17 0))
              (power_on 0) [packet_of CMD_HEARTBEAT (replicate 17 0)] [])
    as (st' & Hp & _ & _ & Hd).
  - split; [reflexivity|]. unfold RX_BUF_SIZE. simpl. lia.
  - apply frame_bytes_ok; [unfold is_byte, CMD_HEARTBEAT; lia| |simpl; lia].
    apply Forall_replicate. unfold is_byte. lia.
  - unfold RX_BUF_SIZE, frame, wire. simpl. lia.
  - apply Scan_one_frame. simpl. lia.
  - exists st'. split; [exact Hp|]. split; [exact Hd|reflexivity].
Qed.

(** C5 at a failing input: with the five bytes AA 55 01 FB 00 in the
    buffer the length byte is 251, the 8-bit frame size [5 + 251] is 0, the
    bounds check passes, and [crc8] is run over 253 bytes from index 2 of
    the 64-byte array. *)
Lemma length_wrap_reads_out_of_bounds (clock : nat -> Z) :
  processSerial clock [0xAA; 0x55; 0x01; 0xFB; 0x00] (power_on 0)
  = OutOfBounds.
Proof. vm_compute. reflexivity. Qed.

(** ** Command dispatcher *)

(** C10 (short payloads).  A dispatched SetSteering, SetGain or SetEnable
    command whose payload is shorter than the command needs leaves the
    commanded position, the gain, the enable flag, the fault code and the
    actuator output unchanged; the last-activity timestamp is set to the
    current [millis()] reading all the same, as it is by every dispatched
    frame, whatever its command id and payload. *)
Theorem short_payload_ignored (clock : nat -> Z) (c : Z) (pl : list Z)
        (n : Z) (st : State) :
  (c = CMD_SET_STEERING /\ n < 2) \/ (c = CMD_SET_GAIN /\ n < 1) \/
  (c = CMD_SET_ENABLE /\ n < 1) ->
  (exists st',
      handlePacket clock c pl n st = Ok st' /\
      commanded_pos st' = commanded_pos st /\ gain st' = gain st /\
      servo_enabled st' = servo_enabled st /\
      fault_code st' = fault_code st /\ ledc_duty st' = ledc_duty st /\
      last_cmd_time st' = u32 (clock (millis_calls st))) /\
  (forall c' pl' n' st',
      handlePacket clock c' pl' n' st = Ok st' ->
      last_cmd_time st' = u32 (clock (millis_calls st))).
Proof.
  intros Hshort. split.
  - unfold handlePacket, millis. cbn [fst snd].
    destruct Hshort as [[-> Hn]|[[-> Hn]|[-> Hn]]];
      cbn [Z.eqb CMD_SET_STEERING CMD_SET_GAIN CMD_SET_ENABLE Pos.eqb].
    + replace (2 <=? n) with false by (symmetry; apply Z.leb_gt; lia).
      eexists. split; [reflexivity|]. simpl. auto 10.
    + replace (1 <=? n) with false by (symmetry; apply Z.leb_gt; lia).
      eexists. split; [reflexivity|]. simpl. auto 10.
    + replace (1 <=? n) with false by (symmetry; apply Z.leb_gt; lia).
      eexists. split; [reflexivity|]. simpl. auto 10.
  - intros c' pl' n' st'. unfold handlePacket, millis. simpl.
    repeat case_match; simpl; intros Hp;
      repeat (apply bind_Ok_inv in Hp; destruct Hp as (? & _ & Hp);
              simpl in Hp);
      injection Hp as <-; simpl; repeat case_match; reflexivity.
Qed.

(** C9 (gain).  Dispatching SetGain with a payload byte above 100 stores
    gain 100; and with gain 0 the pulse width computed for any commanded
    position is the integer map of a zero deflection from -32768..32767
    onto 500..2500 microseconds, which is 1500, the middle of the
    output range. *)
Theorem gain_clamp_and_zero_gain (clock : nat -> Z) (v pos : Z)
        (st : State) :
  100 < v ->
  (exists st',
      handlePacket clock CMD_SET_GAIN [v] 1 st = Ok st' /\ gain st' = 100) /\
  (gain st = 0 ->
   positionToUs pos st
   = arduino_map 0 (-32768) 32767 SERVO_MIN_US SERVO_MAX_US /\
   positionToUs pos st = SERVO_CENTER_US /\
   2 * SERVO_CENTER_US = SERVO_MIN_US + SERVO_MAX_US).
Proof.
  intros Hv. split.
  - unfold handlePacket, millis. simpl.
    eexists. split; [reflexivity|]. simpl. lia.
  - intros Hg. unfold positionToUs. rewrite Hg, Z.mul_0_r.
    split; [reflexivity|]. split; reflexivity.
Qed.

(** ** Soundness of the decoder on arbitrary input *)

Lemma rd_range_Ok_take (a : list Z) (off n : Z) (bytes : list Z) :
  rd_range a off n = Ok bytes -> 0 <= off ->
  0 <= n /\ bytes = take (Z.to_nat n) (drop (Z.to_nat off) a) /\
  (0 < n -> off + n <= Z.of_nat (length a)).
Proof.
  unfold rd_range. destruct (n =? 0) eqn:E.
  - apply Z.eqb_eq in E. subst n. intros [= <-] _. simpl.
    split; [lia|]. split; [reflexivity|lia].
  - destruct (0 <=? off) eqn:E1; [|discriminate].
    destruct (0 <? n) eqn:E2; [|discriminate].
    destruct (off + n <=? Z.of_nat (length a)) eqn:E3; [|discriminate].
    intros [= <-] _. apply Z.leb_le in E3. apply Z.ltb_lt in E2.
    split; [lia|]. split; [reflexivity|lia].
Qed.

Lemma drain_length (inp : list Z) (st : State) :
  length (rx_buf (drain inp st)) = length (rx_buf st).
Proof.
  revert st. induction inp as [|x inp IH]; intros st; [reflexivity|].
  cbn [drain]. rewrite IH. simpl. rewrite length_insert.
  now destruct (RX_BUF_SIZE <=? rx_pos st).
Qed.

(** The drain looks at the receive buffer and its cursor only. *)
Lemma drain_indep (inp : list Z) (st st2 : State) :
  rx_buf st = rx_buf st2 -> rx_pos st = rx_pos st2 ->
  rx_buf (drain inp st) = rx_buf (drain inp st2) /\
  rx_pos (drain inp st) = rx_pos (drain inp st2).
Proof.
  revert st st2. induction inp as [|x inp IH]; intros st st2 Hb Hp; [auto|].
  cbn [drain]. apply IH.
  - simpl. rewrite Hp. destruct (RX_BUF_SIZE <=? rx_pos st2); simpl;
      now rewrite ?Hb, ?Hp.
  - simpl. rewrite Hp. destruct (RX_BUF_SIZE <=? rx_pos st2); simpl;
      now rewrite ?Hp.
Qed.

Section Soundness.

Variable clock : nat -> Z.

(** Whatever the buffer holds, the packets [parse_loop] hands to the
    dispatcher are checksum-valid frames of the buffer. *)
Lemma parse_loop_sound (fuel : nat) :
  forall (s : Z) (st : State) (s' : Z) (st' : State),
    (length (rx_buf st) <= 255)%nat -> 0 <= s ->
    parse_loop clock fuel s st = Ok (s', st') ->
    exists ps,
      dispatch_all clock ps st = Ok st' /\
      Forall (valid_frame_in (rx_buf st)) ps.
Proof.
  induction fuel as [|fuel IH]; intros s st s' st' Hlen Hs; cbn [parse_loop].
  - destruct (negb (s + 4 <? rx_pos st)); [|discriminate].
    intros [= <- <-]. exists []. split; [reflexivity|constructor].
  - destruct (negb (s + 4 <? rx_pos st)).
    { intros [= <- <-]. exists []. split; [reflexivity|constructor]. }
    intros H. apply bind_Ok_inv in H as (h0 & Hh0 & H).
    pose proof (u8_range (s + 1)) as Hu1.
    destruct (negb (h0 =? PROTO_HEADER_0)) eqn:E0.
    { eapply IH; [exact Hlen| |exact H]. lia. }
    apply bind_Ok_inv in H as (h1 & Hh1 & H).
    destruct (negb (h1 =? PROTO_HEADER_1)) eqn:E1.
    { eapply IH; [exact Hlen| |exact H]. lia. }
    apply negb_false_iff, Z.eqb_eq in E0, E1. subst h0 h1.
    apply bind_Ok_inv in H as (c & Hc & H).
    apply bind_Ok_inv in H as (n & Hn & H).
    destruct (rx_pos st <? s + u8 (5 + n)).
    { injection H as <- <-. exists []. split; [reflexivity|constructor]. }
    apply bind_Ok_inv in H as (data & Hdata & H).
    apply bind_Ok_inv in H as (actual & Hact & H).
    apply bind_Ok_inv in H as (st1 & Hst1 & H).
    pose proof (u8_range (s + u8 (5 + n))) as Hu2.
    destruct (crc8 data =? actual) eqn:Ecrc.
    2:{ injection Hst1 as <-. eapply IH; [exact Hlen| |exact H]. lia. }
    apply Z.eqb_eq in Ecrc.
    apply bind_Ok_inv in Hst1 as (pl & Hpl & Hh).
    pose proof (handlePacket_frame _ _ _ _ _ _ Hh) as (Eb & _).
    destruct (IH (u8 (s + u8 (5 + n))) st1 s' st') as (ps & Hps & Hvalid);
      [rewrite Eb; exact Hlen|lia|exact H|].
    exists (mkPacket c n pl :: ps). split.
    { cbn [dispatch_all cmd len payload]. rewrite Hh. exact Hps. }
    rewrite Eb in Hvalid. constructor; [|exact Hvalid].
    (* the frame at [s] *)
    apply rd_Ok_inv in Hh0 as [_ L0]. apply rd_Ok_inv in Hh1 as [_ L1].
    apply rd_Ok_inv in Hc as [_ L2]. apply rd_Ok_inv in Hn as [_ L3].
    apply rd_Ok_inv in Hact as [_ L4].
    pose proof (lookup_lt_Some _ _ _ L4) as Hlt.
    apply rd_range_Ok_take in Hpl as (Hn0 & -> & _); [|lia].
    assert (Hn250 : n <= 250) by lia.
    rewrite (u8_small (2 + n)) in Hdata by lia.
    apply rd_range_Ok_take in Hdata as (_ & -> & _); [|lia].
    set (buf := rx_buf st) in *.
    assert (Hpl_len : length (take (Z.to_nat n) (drop (Z.to_nat (s + 4)) buf))
                      = Z.to_nat n).
    { rewrite length_take, length_drop. lia. }
    assert (D2 : drop (Z.to_nat (s + 2)) buf
                 = c :: n :: drop (Z.to_nat (s + 4)) buf).
    { rewrite (drop_S _ c) by exact L2.
      replace (S (Z.to_nat (s + 2))) with (Z.to_nat (s + 3)) by lia.
      rewrite (drop_S _ n) by exact L3.
      now replace (S (Z.to_nat (s + 3))) with (Z.to_nat (s + 4)) by lia. }
    assert (D0 : drop (Z.to_nat s) buf
                 = PROTO_HEADER_0 :: PROTO_HEADER_1
                     :: drop (Z.to_nat (s + 2)) buf).
    { rewrite (drop_S _ PROTO_HEADER_0) by exact L0.
      replace (S (Z.to_nat s)) with (Z.to_nat (s + 1)) by lia.
      rewrite (drop_S _ PROTO_HEADER_1) by exact L1.
      now replace (S (Z.to_nat (s + 1))) with (Z.to_nat (s + 2)) by lia. }
    assert (Hdata : take (Z.to_nat (2 + n)) (drop (Z.to_nat (s + 2)) buf)
                    = c :: n :: take (Z.to_nat n) (drop (Z.to_nat (s + 4)) buf)).
    { rewrite D2. replace (Z.to_nat (2 + n)) with (S (S (Z.to_nat n))) by lia.
      reflexivity. }
    rewrite Hdata in Ecrc.
    split; cbn [cmd len payload]; [rewrite Hpl_len; lia|].
    exists (Z.to_nat s). rewrite Hpl_len, D0, D2. cbn [Nat.add take].
    unfold frame, wire, checksum. rewrite Hpl_len, Z2Nat.id by lia.
    do 4 f_equal. rewrite Ecrc.
    apply take_S_r. rewrite lookup_drop.
    now replace (Z.to_nat (s + 4) + Z.to_nat n)%nat
      with (Z.to_nat (s + 4 + n)) by lia.
Qed.

(** One tick of the decoder on arbitrary input. *)
Lemma processSerial_inv (inp : list Z) (st st' : State) :
  length (rx_buf st) = Z.to_nat RX_BUF_SIZE ->
  processSerial clock inp st = Ok st' ->
  exists ps st1 b r,
    dispatch_all clock ps (drain inp st) = Ok st1 /\
    st' = set_rx_pos r (set_rx_buf b st1) /\
    length b = Z.to_nat RX_BUF_SIZE /\
    Forall (valid_frame_in (rx_buf (drain inp st))) ps.
Proof.
  intros Hlen H. unfold processSerial in H.
  apply bind_Ok_inv in H as ([s st1] & Hloop & H).
  pose proof Hloop as Hloop'.
  apply parse_loop_sound in Hloop as (ps & Hps & Hvalid);
    [|rewrite drain_length, Hlen; unfold RX_BUF_SIZE; lia|lia].
  pose proof (dispatch_all_frame _ _ _ _ Hps) as (Eb & _).
  assert (Hlen1 : length (rx_buf st1) = Z.to_nat RX_BUF_SIZE)
    by now rewrite Eb, drain_length.
  exists ps, st1.
  destruct (0 <? s) eqn:Es.
  - apply Z.ltb_lt in Es.
    apply bind_Ok_inv in H as (buf & Hbuf & H). injection H as <-.
    exists buf, (u8 (rx_pos st1 - s)).
    split; [exact Hps|]. split; [reflexivity|]. split; [|exact Hvalid].
    unfold memmove_front in Hbuf.
    apply bind_Ok_inv in Hbuf as (bytes & Hbytes & Hbuf).
    injection Hbuf as <-.
    pose proof (u8_range (rx_pos st1 - s)) as Hr.
    apply rd_range_Ok_take in Hbytes as (_ & -> & Hfit); [|lia].
    rewrite length_app, length_take, length_drop, length_drop.
    destruct (decide (u8 (rx_pos st1 - s) = 0)) as [->|Hnz]; [simpl; lia|].
    specialize (Hfit ltac:(lia)). lia.
  - injection H as <-. exists (rx_buf st1), (rx_pos st1).
    split; [exact Hps|]. split; [now destruct st1|].
    split; [exact Hlen1|exact Hvalid].
Qed.

End Soundness.

(** ** The control loop *)

Lemma sendFault_frame (code : Z) (st : State) :
  sendFault code st = Ok (Serial_write (frame CMD_FAULT [code]) st).
Proof. apply (sendPacket_frame CMD_FAULT [code]). simpl. lia. Qed.

Lemma sendTelemetry_frame (st : State) :
  exists pl, sendTelemetry st = Ok (Serial_write (frame CMD_TELEMETRY pl) st).
Proof.
  eexists. unfold sendTelemetry.
  apply (sendPacket_frame CMD_TELEMETRY [_; _; _; _]). simpl. lia.
Qed.

Lemma sendHeartbeat_frame (st : State) :
  sendPacket CMD_HEARTBEAT [] 0 st
  = Ok (Serial_write (frame CMD_HEARTBEAT []) st).
Proof. apply (sendPacket_frame CMD_HEARTBEAT []). simpl. lia. Qed.

(** Pulse widths inside the servo range give a nonzero duty. *)
Lemma microsToTicks_pulse (us : Z) :
  microsToTicks (constrain us SERVO_MIN_US SERVO_MAX_US) <> 0.
Proof.
  assert (H : 500 <= constrain us SERVO_MIN_US SERVO_MAX_US <= 2500).
  { unfold constrain, SERVO_MIN_US, SERVO_MAX_US.
    destruct (us <? 500) eqn:E1; [lia|]. apply Z.ltb_ge in E1.
    destruct (2500 <? us) eqn:E2; [lia|]. apply Z.ltb_ge in E2. lia. }
  revert H. generalize (constrain us SERVO_MIN_US SERVO_MAX_US). intros w Hw.
  unfold microsToTicks, u32, u64, SERVO_FREQ_HZ.
  change (Z.shiftl 1 LEDC_RESOLUTION) with 65536.
  Z.div_mod_to_equations. lia.
Qed.

Lemma count_faults_app (a b : list (list Z)) :
  count_faults (a ++ b) = (count_faults a + count_faults b)%nat.
Proof. induction a as [|x a IH]; simpl; [reflexivity|]. rewrite IH. lia. Qed.

Section LoopBlocks.

Variable clock : nat -> Z.

Lemma loop_safety_spec (now : Z) (st : State) :
  let timeout :=
    servo_enabled st && (SERIAL_TIMEOUT_MS <? u32 (now - last_cmd_time st)) in
  exists st',
    loop_safety now st = Ok st' /\
    servo_enabled st' = servo_enabled st && negb timeout /\
    dispatched st' = dispatched st /\
    fault_code st' = (if timeout then FAULT_SERIAL_TIMEOUT else fault_code st) /\
    ledc_log st' = (if timeout then [(false, 0)] else []) ++ ledc_log st /\
    ledc_duty st' = (if timeout then 0 else ledc_duty st) /\
    serial_tx st' = serial_tx st
                    ++ (if timeout
                        then [frame CMD_FAULT [FAULT_SERIAL_TIMEOUT]]
                        else []) /\
    rx_buf st' = rx_buf st.
Proof.
  intros timeout. unfold loop_safety. fold timeout.
  destruct timeout eqn:E.
  - rewrite sendFault_frame. eexists. split; [reflexivity|].
    simpl. rewrite andb_false_r. auto 10.
  - exists st. rewrite andb_true_r, app_nil_r. auto 10.
Qed.

Lemma loop_drive_spec (st : State) :
  exists d, d <> 0 /\
    servo_enabled (loop_drive st) = servo_enabled st /\
    dispatched (loop_drive st) = dispatched st /\
    fault_code (loop_drive st) = fault_code st /\
    ledc_log (loop_drive st)
    = (if servo_enabled st then [(true, d)] else []) ++ ledc_log st /\
    ledc_duty (loop_drive st) = (if servo_enabled st then d else ledc_duty st) /\
    serial_tx (loop_drive st) = serial_tx st /\
    rx_buf (loop_drive st) = rx_buf st.
Proof.
  exists (microsToTicks (constrain (positionToUs (commanded_pos st) st)
                           SERVO_MIN_US SERVO_MAX_US)).
  split; [apply microsToTicks_pulse|].
  unfold loop_drive. destruct (servo_enabled st) eqn:E; simpl; auto 10.
  rewrite E. auto 10.
Qed.

Lemma loop_telemetry_spec (now : Z) (st : State) :
  exists st' others,
    loop_telemetry now st = Ok st' /\
    servo_enabled st' = servo_enabled st /\
    dispatched st' = dispatched st /\
    fault_code st' = fault_code st /\
    ledc_log st' = ledc_log st /\ ledc_duty st' = ledc_duty st /\
    serial_tx st' = serial_tx st ++ others /\ count_faults others = 0%nat /\
    rx_buf st' = rx_buf st.
Proof.
  unfold loop_telemetry. destruct (_ <=? _).
  - destruct (sendTelemetry_frame (set_last_telemetry_time now st))
      as [pl ->].
    eexists. exists [frame CMD_TELEMETRY pl]. split; [reflexivity|].
    simpl. auto 10.
  - exists st, []. rewrite app_nil_r. auto 10.
Qed.

Lemma loop_heartbeat_spec (now : Z) (st : State) :
  exists st' others,
    loop_heartbeat now st = Ok st' /\
    servo_enabled st' = servo_enabled st /\
    dispatched st' = dispatched st /\
    fault_code st' = fault_code st /\
    ledc_log st' = ledc_log st /\ ledc_duty st' = ledc_duty st /\
    serial_tx st' = serial_tx st ++ others /\ count_faults others = 0%nat /\
    rx_buf st' = rx_buf st.
Proof.
  unfold loop_heartbeat. destruct (_ <=? _).
  - rewrite sendHeartbeat_frame.
    eexists. exists [frame CMD_HEARTBEAT []]. split; [reflexivity|].
    simpl. auto 10.
  - exists st, []. rewrite app_nil_r. auto 10.
Qed.

Lemma loop_rate_pace_spec (now : Z) (st : State) :
  let st' := loop_pace clock now (loop_rate now st) in
  servo_enabled st' = servo_enabled st /\
  dispatched st' = dispatched st /\
  fault_code st' = fault_code st /\
  ledc_log st' = ledc_log st /\ ledc_duty st' = ledc_duty st /\
  serial_tx st' = serial_tx st /\ rx_buf st' = rx_buf st.
Proof.
  unfold loop_pace, loop_rate, millis. cbv zeta.
  destruct (_ <=? _); simpl; auto 10.
Qed.

(** What one call of [loop()] does to the enable flag, the fault code, the
    actuator and the serial output, after its decode step. *)
Lemma loop_summary (inp : list Z) (adc : Z) (st st' : State) :
  loop clock inp adc st = Ok st' ->
  exists st1,
    processSerial clock inp (set_millis_calls (S (millis_calls st)) st)
    = Ok st1 /\
    let timeout :=
      servo_enabled st1 &&
      (SERIAL_TIMEOUT_MS <? u32 (u32 (clock (millis_calls st))
                                 - last_cmd_time st1)) in
    servo_enabled st' = servo_enabled st1 && negb timeout /\
    dispatched st' = dispatched st1 /\
    fault_code st' = (if timeout then FAULT_SERIAL_TIMEOUT else fault_code st1) /\
    (exists d, d <> 0 /\
       ledc_log st' = (if servo_enabled st' then [(true, d)] else [])
                      ++ (if timeout then [(false, 0)] else [])
                      ++ ledc_log st1 /\
       ledc_duty st' = (if servo_enabled st' then d
                        else if timeout then 0 else ledc_duty st1)) /\
    (exists others,
       serial_tx st' = serial_tx st1
                       ++ (if timeout
                           then [frame CMD_FAULT [FAULT_SERIAL_TIMEOUT]]
                           else [])
                       ++ others /\
       count_faults others = 0%nat) /\
    rx_buf st' = rx_buf st1.
Proof.
  intros H. unfold loop, millis in H. cbv beta iota in H.
  apply bind_Ok_inv in H as (st1 & Hps & H). exists st1.
  split; [exact Hps|]. cbv zeta.
  set (now := u32 (clock (millis_calls st))) in *.
  destruct (loop_safety_spec now st1)
    as (st2 & Hs2 & E2 & D2 & F2 & L2 & U2 & T2 & B2).
  rewrite Hs2 in H. cbn [bind] in H.
  set (st3 := set_servo_angle_adc (s16 adc) st2) in *.
  destruct (loop_drive_spec st3) as (d & Hd & E4 & D4 & F4 & L4 & U4 & T4 & B4).
  destruct (loop_telemetry_spec now (loop_drive st3))
    as (st5 & o5 & Hs5 & E5 & D5 & F5 & L5 & U5 & T5 & C5 & B5).
  rewrite Hs5 in H. cbn [bind] in H.
  destruct (loop_heartbeat_spec now st5)
    as (st6 & o6 & Hs6 & E6 & D6 & F6 & L6 & U6 & T6 & C6 & B6).
  rewrite Hs6 in H. cbn [bind] in H. injection H as <-.
  destruct (loop_rate_pace_spec now st6) as (E7 & D7 & F7 & L7 & U7 & T7 & B7).
  rewrite E7, D7, F7, L7, U7, T7, B7, E6, D6, F6, L6, U6, T6, B6,
    E5, D5, F5, L5, U5, T5, B5, E4, D4, F4, L4, U4, T4, B4.
  change (servo_enabled st3) with (servo_enabled st2).
  change (dispatched st3) with (dispatched st2).
  change (fault_code st3) with (fault_code st2).
  change (ledc_log st3) with (ledc_log st2).
  change (ledc_duty st3) with (ledc_duty st2).
  change (serial_tx st3) with (serial_tx st2).
  change (rx_buf st3) with (rx_buf st2).
  rewrite E2, D2, F2, L2, U2, T2, B2.
  split; [reflexivity|]. split; [reflexivity|]. split; [reflexivity|].
  split; [exists d; auto|]. split; [|reflexivity].
  exists (o5 ++ o6). rewrite count_faults_app, C5, C6, <- !app_assoc. auto.
Qed.

End LoopBlocks.

(** ** The enable flag and the actuator *)

Section Actuator.

Variable clock : nat -> Z.

(** Only a SetEnable command with a nonzero payload byte sets the enable
    flag. *)
Lemma handlePacket_enable (c : Z) (pl : list Z) (n : Z) (st st' : State) :
  handlePacket clock c pl n st = Ok st' ->
  servo_enabled st = false -> servo_enabled st' = true ->
  enabling (mkPacket c n pl) = true.
Proof.
  unfold handlePacket, millis, enabling. cbn [cmd len payload fst snd].
  intros H Hoff Hon.
  destruct (c =? CMD_SET_STEERING) eqn:E1.
  { destruct (2 <=? n); [|injection H as <-; simpl in Hon; congruence].
    apply bind_Ok_inv in H as (b0 & _ & H).
    apply bind_Ok_inv in H as (b1 & _ & H).
    injection H as <-. simpl in Hon. congruence. }
  destruct (c =? CMD_SET_GAIN) eqn:E2.
  { destruct (1 <=? n); [|injection H as <-; simpl in Hon; congruence].
    apply bind_Ok_inv in H as (b0 & _ & H).
    injection H as <-. simpl in Hon. congruence. }
  destruct (c =? CMD_SET_ENABLE) eqn:E3.
  2:{ destruct (c =? CMD_HEARTBEAT); injection H as <-; simpl in Hon;
      congruence. }
  destruct (1 <=? n); [|injection H as <-; simpl in Hon; congruence].
  apply bind_Ok_inv in H as (b0 & Hb0 & H).
  apply rd_Ok_inv in Hb0 as [_ Hb0].
  destruct pl as [|b pl]; [discriminate|]. injection Hb0 as ->.
  injection H as <-.
  destruct (b0 =? 0) eqn:Eb; simpl in *; [discriminate|reflexivity].
Qed.

Lemma dispatch_all_enable (ps : list Packet) (st st' : State) :
  dispatch_all clock ps st = Ok st' ->
  servo_enabled st = false -> servo_enabled st' = true ->
  exists p, In p ps /\ enabling p = true.
Proof.
  revert st. induction ps as [|p ps IH]; intros st H Hoff Hon.
  - injection H as <-. congruence.
  - cbn [dispatch_all] in H. apply bind_Ok_inv in H as (st1 & H1 & H).
    destruct (servo_enabled st1) eqn:E1.
    + exists p. split; [now left|].
      pose proof (handlePacket_enable _ _ _ _ _ H1 Hoff E1) as He.
      now destruct p.
    + destruct (IH st1 H E1 Hon) as (q & Hq & He).
      exists q. split; [now right|exact He].
Qed.

(** What the dispatcher does to the actuator: either nothing, leaving the
    enable flag as it was or setting it, or it disables and relaxes. *)
Lemma handlePacket_actuator (c : Z) (pl : list Z) (n : Z) (st st' : State) :
  handlePacket clock c pl n st = Ok st' ->
  (servo_enabled st' = false /\ ledc_duty st' = 0 /\
   ledc_log st' = (false, 0) :: ledc_log st) \/
  (ledc_duty st' = ledc_duty st /\ ledc_log st' = ledc_log st /\
   (servo_enabled st' = servo_enabled st \/ servo_enabled st' = true)).
Proof.
  unfold handlePacket, millis. cbn [fst snd]. intros H.
  destruct (c =? CMD_SET_STEERING).
  { destruct (2 <=? n); [|injection H as <-; simpl; auto].
    apply bind_Ok_inv in H as (b0 & _ & H).
    apply bind_Ok_inv in H as (b1 & _ & H).
    injection H as <-. simpl. auto. }
  destruct (c =? CMD_SET_GAIN).
  { destruct (1 <=? n); [|injection H as <-; simpl; auto].
    apply bind_Ok_inv in H as (b0 & _ & H).
    injection H as <-. simpl. auto. }
  destruct (c =? CMD_SET_ENABLE).
  2:{ destruct (c =? CMD_HEARTBEAT); injection H as <-; simpl; auto. }
  destruct (1 <=? n); [|injection H as <-; simpl; auto].
  apply bind_Ok_inv in H as (b0 & _ & H).
  injection H as <-.
  destruct (b0 =? 0) eqn:Eb; simpl; auto.
Qed.

Lemma handlePacket_inv (c : Z) (pl : list Z) (n : Z) (st st' : State) :
  handlePacket clock c pl n st = Ok st' ->
  actuator_inv st -> actuator_inv st'.
Proof.
  intros H (Hlen & Hrel & Hlog).
  pose proof (handlePacket_frame _ _ _ _ _ _ H) as (Eb & _).
  unfold actuator_inv, relaxed, pulses_only_enabled in *.
  rewrite Eb. split; [exact Hlen|].
  destruct (handlePacket_actuator _ _ _ _ _ H)
    as [(E & D & L)|(D & L & [E|E])]; rewrite ?D, ?L.
  - split; [auto|]. intros e d [[= <- <-]|Hin] Hd; [lia|eauto].
  - rewrite E. auto.
  - split; [congruence|auto].
Qed.

Lemma dispatch_all_inv (ps : list Packet) (st st' : State) :
  dispatch_all clock ps st = Ok st' -> actuator_inv st -> actuator_inv st'.
Proof.
  revert st. induction ps as [|p ps IH]; intros st H Hinv.
  - now injection H as <-.
  - cbn [dispatch_all] in H. apply bind_Ok_inv in H as (st1 & H1 & H).
    eapply IH; [exact H|]. eapply handlePacket_inv; eauto.
Qed.

End Actuator.

Section Monitor.

Variable clock : nat -> Z.

(** One tick, seen from the dispatcher's log: the packets it adds are
    checksum-valid frames of the receive buffer, and everything else the
    tick does follows from them and the timeout check. *)
Lemma loop_tick (inp : list Z) (adc : Z) (st st' : State) :
  length (rx_buf st) = Z.to_nat RX_BUF_SIZE ->
  loop clock inp adc st = Ok st' ->
  exists ps st1,
    dispatch_all clock ps
      (drain inp (set_millis_calls (S (millis_calls st)) st)) = Ok st1 /\
    Forall (valid_frame_in (rx_buf (drain inp st))) ps /\
    dispatched st' = dispatched st ++ ps /\
    length (rx_buf st') = Z.to_nat RX_BUF_SIZE /\
    let timeout :=
      servo_enabled st1 &&
      (SERIAL_TIMEOUT_MS <? u32 (u32 (clock (millis_calls st))
                                 - last_cmd_time st1)) in
    servo_enabled st' = servo_enabled st1 && negb timeout /\
    fault_code st' = (if timeout then FAULT_SERIAL_TIMEOUT else fault_code st1) /\
    (exists d, d <> 0 /\
       ledc_log st' = (if servo_enabled st' then [(true, d)] else [])
                      ++ (if timeout then [(false, 0)] else [])
                      ++ ledc_log st1 /\
       ledc_duty st' = (if servo_enabled st' then d
                        else if timeout then 0 else ledc_duty st1)) /\
    count_faults (serial_tx st')
    = (count_faults (serial_tx st) + (if timeout then 1 else 0))%nat /\
    (timeout = true ->
     In (frame CMD_FAULT [FAULT_SERIAL_TIMEOUT]) (serial_tx st')).
Proof.
  intros Hlen H.
  apply loop_summary in H as (st2 & Hps & E & D & F & L & (o & T & C) & B).
  set (stm := set_millis_calls (S (millis_calls st)) st) in *.
  apply processSerial_inv in Hps as (ps & st1 & b & r & Hd & -> & Hb & Hv);
    [|exact Hlen].
  pose proof (dispatch_all_frame _ _ _ _ Hd) as (_ & _ & Etx & _ & Ed).
  destruct (drain_frame inp stm) as (b' & r' & Edr).
  cbn [servo_enabled set_rx_pos set_rx_buf last_cmd_time dispatched
       fault_code ledc_log ledc_duty serial_tx rx_buf] in *.
  exists ps, st1. split; [exact Hd|]. split.
  { destruct (drain_indep inp stm st eq_refl eq_refl) as [<- _]. exact Hv. }
  split; [rewrite D, Ed, Edr; reflexivity|].
  split; [now rewrite B|].
  split; [exact E|]. split; [exact F|]. split; [exact L|].
  rewrite T, Etx, Edr. cbn [serial_tx set_rx_pos set_rx_buf stm set_millis_calls].
  rewrite !count_faults_app, C. split.
  - destruct (_ && _); cbn; lia.
  - intros ->. apply in_or_app. right. now left.
Qed.

Lemma drain_actuator_inv (inp : list Z) (st : State) (n : nat) :
  actuator_inv st ->
  actuator_inv (drain inp (set_millis_calls n st)).
Proof.
  intros (Hlen & Hrel & Hlog).
  pose proof (drain_length inp (set_millis_calls n st)) as Hl.
  destruct (drain_frame inp (set_millis_calls n st)) as (b & r & E).
  unfold actuator_inv, relaxed, pulses_only_enabled in *.
  rewrite E in *. simpl in *. rewrite Hl. auto.
Qed.

(** A call of [loop()] keeps the invariant of the actuator boundary. *)
Lemma loop_inv (inp : list Z) (adc : Z) (st st' : State) :
  loop clock inp adc st = Ok st' -> actuator_inv st -> actuator_inv st'.
Proof.
  intros H Hinv. pose proof Hinv as (Hlen & _).
  destruct (loop_tick inp adc st st' Hlen H)
    as (ps & st1 & Hd & _ & _ & Hlen' & E & _ & (d & Hd0 & L & U) & _).
  assert (Hinv1 : actuator_inv st1).
  { eapply dispatch_all_inv; [exact Hd|]. now apply drain_actuator_inv. }
  destruct Hinv1 as (_ & Hrel1 & Hlog1).
  unfold actuator_inv, relaxed, pulses_only_enabled in *.
  split; [exact Hlen'|]. rewrite L, U.
  destruct (servo_enabled st1) eqn:E1;
    destruct (SERIAL_TIMEOUT_MS <? _) eqn:E2; cbn [andb negb] in *;
    rewrite E; cbn [app].
  - split; [reflexivity|]. intros e d' [[= <- <-]|Hin] Hd'; [lia|eauto].
  - split; [discriminate|].
    intros e d' [[= <- <-]|Hin] Hd'; [reflexivity|eauto].
  - split; [auto|eauto].
  - split; [auto|eauto].
Qed.

Lemma setup_inv (duty0 : Z) : actuator_inv (setup clock (power_on duty0)).
Proof.
  unfold setup, millis, actuator_inv, relaxed, pulses_only_enabled.
  simpl. split; [reflexivity|]. split; [reflexivity|].
  intros e d [[= <- <-]|[]] Hd. lia.
Qed.

(** C7 (disabled means relaxed).  In every state the firmware reaches,
    after [setup()], at the end of every tick (in particular after a
    timeout disable) and right after every dispatched command (in
    particular a SetEnable with payload 0): if the enable flag is false the
    LEDC duty is 0, so no pulse is output; and no pulse was ever written
    while the enable flag was false. *)
Theorem disabled_is_relaxed (st : State) :
  reachable clock st ->
  (servo_enabled st = false -> relaxed st) /\ pulses_only_enabled st.
Proof.
  intros Hr. assert (Hinv : actuator_inv st); [|now destruct Hinv].
  induction Hr as [duty0|inp adc st st' _ IH Hl|c pl n st st' _ IH Hh].
  - apply setup_inv.
  - eapply loop_inv; eauto.
  - eapply handlePacket_inv; eauto.
Qed.

(** Re-arming on ticks that return.  If the enable flag is false before
    a call of [loop()] and true after it, then the tick dispatched a
    SetEnable command with a nonzero payload byte, read from a
    checksum-valid frame in the receive buffer.  The dispatcher itself
    sets the flag for such a command only, and [setup()] leaves it
    alone. *)
Theorem enable_only_by_command (inp : list Z) (adc : Z) (st : State) :
  servo_enabled st = false ->
  length (rx_buf st) = Z.to_nat RX_BUF_SIZE ->
  (forall st',
      loop clock inp adc st = Ok st' -> servo_enabled st' = true ->
      exists p ps,
        dispatched st' = dispatched st ++ ps /\ In p ps /\
        enabling p = true /\ valid_frame_in (rx_buf (drain inp st)) p) /\
  (forall c pl n st',
      handlePacket clock c pl n st = Ok st' -> servo_enabled st' = true ->
      enabling (mkPacket c n pl) = true) /\
  servo_enabled (setup clock st) = false.
Proof.
  intros Hoff Hlen. split; [|split].
  - intros st' H Hon.
    destruct (loop_tick inp adc st st' Hlen H)
      as (ps & st1 & Hd & Hv & Ed & _ & E & _).
    rewrite Hon in E. symmetry in E. apply andb_true_iff in E as [E1 _].
    destruct (dispatch_all_enable clock ps _ _ Hd) as (p & Hin & Hp);
      [|exact E1|].
    { destruct (drain_frame inp (set_millis_calls (S (millis_calls st)) st))
        as (b & r & ->). exact Hoff. }
    exists p, ps. split; [exact Ed|]. split; [exact Hin|].
    split; [exact Hp|]. rewrite Forall_forall in Hv. apply Hv.
    now apply list_elem_of_In.
  - intros c pl n st' H Hon. eapply handlePacket_enable; eauto.
  - unfold setup, millis. simpl. exact Hoff.
Qed.

Lemma dispatch_all_quiet (ps : list Packet) (st st' : State) :
  dispatch_all clock ps st = Ok st' ->
  Forall (fun p => enabling p = false) ps ->
  servo_enabled st = false -> servo_enabled st' = false.
Proof.
  intros H Hq Hoff. destruct (servo_enabled st') eqn:E; [|reflexivity].
  destruct (dispatch_all_enable clock ps st st' H Hoff E) as (p & Hin & Hp).
  rewrite Forall_forall in Hq. apply list_elem_of_In in Hin.
  rewrite (Hq p Hin) in Hp. discriminate.
Qed.

(** A tick that starts disabled and dispatches no enabling command stays
    disabled and sends no fault packet. *)
Lemma quiet_tick (inp : list Z) (adc : Z) (st st' : State) :
  length (rx_buf st) = Z.to_nat RX_BUF_SIZE ->
  loop clock inp adc st = Ok st' ->
  servo_enabled st = false ->
  Forall (fun p => enabling p = false)
         (drop (length (dispatched st)) (dispatched st')) ->
  servo_enabled st' = false /\
  count_faults (serial_tx st') = count_faults (serial_tx st).
Proof.
  intros Hlen H Hoff Hq.
  destruct (loop_tick inp adc st st' Hlen H)
    as (ps & st1 & Hd & _ & Ed & _ & E & _ & _ & C & _).
  rewrite Ed, drop_app_length in Hq.
  assert (E1 : servo_enabled st1 = false).
  { eapply dispatch_all_quiet; [exact Hd|exact Hq|].
    destruct (drain_frame inp (set_millis_calls (S (millis_calls st)) st))
      as (b & r & ->). exact Hoff. }
  rewrite E1 in *. cbn [andb] in *. split; [exact E|]. rewrite C. lia.
Qed.

Lemma run_ticks_log (ticks : list (list Z * Z)) :
  forall st stN,
    length (rx_buf st) = Z.to_nat RX_BUF_SIZE ->
    run_ticks clock ticks st = Ok stN ->
    exists ps, dispatched stN = dispatched st ++ ps.
Proof.
  induction ticks as [|[inp adc] ticks IH]; intros st stN Hlen H.
  - injection H as <-. exists []. now rewrite app_nil_r.
  - cbn [run_ticks] in H. apply bind_Ok_inv in H as (st1 & H1 & H).
    destruct (loop_tick inp adc st st1 Hlen H1)
      as (ps1 & _ & _ & _ & Ed & Hlen1 & _).
    destruct (IH st1 stN Hlen1 H) as (ps2 & ->).
    exists (ps1 ++ ps2). now rewrite Ed, app_assoc.
Qed.

Lemma quiet_ticks (ticks : list (list Z * Z)) :
  forall st stN,
    length (rx_buf st) = Z.to_nat RX_BUF_SIZE ->
    run_ticks clock ticks st = Ok stN ->
    servo_enabled st = false ->
    Forall (fun p => enabling p = false)
           (drop (length (dispatched st)) (dispatched stN)) ->
    servo_enabled stN = false /\
    count_faults (serial_tx stN) = count_faults (serial_tx st).
Proof.
  induction ticks as [|[inp adc] ticks IH]; intros st stN Hlen H Hoff Hq.
  - injection H as <-. auto.
  - cbn [run_ticks] in H. apply bind_Ok_inv in H as (st1 & H1 & H).
    destruct (loop_tick inp adc st st1 Hlen H1)
      as (ps1 & _ & _ & _ & Ed1 & Hlen1 & _).
    destruct (run_ticks_log ticks st1 stN Hlen1 H) as (ps2 & Ed2).
    rewrite Ed2, Ed1, <- app_assoc, drop_app_length in Hq.
    apply Forall_app in Hq as [Hq1 Hq2].
    destruct (quiet_tick inp adc st st1 Hlen H1 Hoff) as [Hoff1 C1].
    { now rewrite Ed1, drop_app_length. }
    destruct (IH st1 stN Hlen1 H Hoff1) as [HoffN CN].
    { now rewrite Ed2, drop_app_length. }
    split; [exact HoffN|]. now rewrite CN.
Qed.

(** The link timeout on ticks that return.  If the enable flag is set
    and, at the [millis()] reading taken at the top of a tick, more than
    [SERIAL_TIMEOUT_MS] have passed since the last dispatched frame, and
    the tick dispatches no frame, then the tick clears the enable flag,
    relaxes the actuator, sets the fault code to [FAULT_SERIAL_TIMEOUT] and
    writes exactly one fault packet to the serial port.  In any run of
    later ticks in which no SetEnable command with a nonzero payload is
    dispatched, the enable flag stays false and no further fault packet is
    written. *)
Theorem timeout_disables_once (inp : list Z) (adc : Z) (st st' : State)
        (later : list (list Z * Z)) (stN : State) :
  length (rx_buf st) = Z.to_nat RX_BUF_SIZE ->
  servo_enabled st = true ->
  SERIAL_TIMEOUT_MS < u32 (u32 (clock (millis_calls st)) - last_cmd_time st) ->
  loop clock inp adc st = Ok st' ->
  dispatched st' = dispatched st ->
  (servo_enabled st' = false /\ relaxed st' /\
   fault_code st' = FAULT_SERIAL_TIMEOUT /\
   In (frame CMD_FAULT [FAULT_SERIAL_TIMEOUT]) (serial_tx st') /\
   count_faults (serial_tx st') = S (count_faults (serial_tx st))) /\
  (run_ticks clock later st' = Ok stN ->
   Forall (fun p => enabling p = false)
          (drop (length (dispatched st')) (dispatched stN)) ->
   servo_enabled stN = false /\
   count_faults (serial_tx stN) = count_faults (serial_tx st')).
Proof.
  intros Hlen Hon Hto H Hnone.
  destruct (loop_tick inp adc st st' Hlen H)
    as (ps & st1 & Hd & _ & Ed & Hlen' & E & F & (d & _ & _ & U) & C & Hin).
  assert (ps = []) as ->.
  { rewrite Hnone in Ed. rewrite <- (app_nil_r (dispatched st)) in Ed at 1.
    now apply app_inv_head in Ed. }
  injection Hd as <-.
  destruct (drain_frame inp (set_millis_calls (S (millis_calls st)) st))
    as (b & r & Edr).
  rewrite Edr in *.
  cbn [servo_enabled last_cmd_time set_rx_pos set_rx_buf set_millis_calls
       ledc_duty fault_code] in *.
  rewrite Hon in *.
  replace (SERIAL_TIMEOUT_MS <?
           u32 (u32 (clock (millis_calls st)) - last_cmd_time st))
    with true in * by (symmetry; apply Z.ltb_lt; exact Hto).
  cbn [andb negb] in *.
  assert (Hoff : servo_enabled st' = false) by exact E.
  split.
  - split; [exact Hoff|]. split; [unfold relaxed; now rewrite U, Hoff|].
    split; [exact F|]. split; [now apply Hin|]. rewrite C. lia.
  - intros Hrun Hq. eapply quiet_ticks; eauto.
Qed.

End Monitor.

(** ** The timeout and the enable flag on a frame whose size wraps *)

(** C1 at a failing input.  The servo was enabled by a SetEnable frame at
    time 100 and is driven; the next tick comes at time 2100, after the
    timeout.  A tick without input clears the enable flag.  A tick that
    receives AA 55 01 FB 00 does not get that far: the length byte is 251,
    the 8-bit frame size [5 + 251] is 0, so the size check passes and the
    scan would not advance, and [crc8] is run over 253 bytes from index 2
    of the 64-byte array.  The decode step does not return, and the timeout
    block behind it is not reached. *)
Lemma timeout_not_reached_on_wrapped_length :
  let clk := fun n : nat => 100 + 2000 * Z.of_nat (n - 4) in
  let st := final_state
              (loop clk (frame CMD_SET_ENABLE [1]) 0 (setup clk (power_on 0)))
              (power_on 0) in
  let inp := [0xAA; 0x55; 0x01; 0xFB; 0x00] in
  servo_enabled st = true /\ ledc_duty st <> 0 /\ rx_pos st = 0 /\
  SERIAL_TIMEOUT_MS < u32 (u32 (clk (millis_calls st)) - last_cmd_time st) /\
  servo_enabled (final_state (loop clk [] 0 st) st) = false /\
  u8 (5 + 0xFB) = 0 /\
  rd_range (rx_buf (drain inp st)) 2 (u8 (2 + 0xFB)) = OutOfBounds /\
  loop clk inp 0 st = OutOfBounds.
Proof. vm_compute. repeat split; try reflexivity; discriminate. Qed.

(** C6 at a failing input.  After [setup()] the enable flag is false.  A
    tick receives AA 55 03 FE 01, which holds no frame: no frame with a
    matching checksum lies anywhere in the receive array.  The length byte
    is 254, so the 8-bit frame size [5 + 254] is 3 and the size check
    passes, the 8-bit checksum length [2 + 254] is 0 and the expected
    checksum is that of no bytes, 0; it is compared with [rx_buf[258]],
    outside the 64-byte array.  The call that a match leads to is
    [handlePacket(CMD_SET_ENABLE, &rx_buf[4], 254)], which sets the enable
    flag, [rx_buf[4]] being 1: whether the servo is armed is decided by a
    byte outside the array. *)
Lemma enable_decided_outside_array (clock : nat -> Z) (adc : Z) :
  let st := setup clock (power_on 0) in
  let inp := [0xAA; 0x55; 0x03; 0xFE; 0x01] in
  let d := drain inp st in
  servo_enabled st = false /\ pending d = inp /\
  (forall p : Packet, ~ valid_frame_in (rx_buf d) p) /\
  u8 (5 + 0xFE) = 3 /\
  rd_range (rx_buf d) 2 (u8 (2 + 0xFE)) = Ok [] /\ crc8 [] = 0 /\
  rd (rx_buf d) (0 + 4 + 0xFE) = OutOfBounds /\
  (forall sth : State,
      exists st',
        handlePacket clock CMD_SET_ENABLE (drop 4 (pending d)) 0xFE sth
        = Ok st' /\ servo_enabled st' = true) /\
  loop clock inp adc st = OutOfBounds.
Proof.
  intros st inp d.
  assert (Hbuf : rx_buf d = inp ++ replicate 59 0) by reflexivity.
  split; [reflexivity|]. split; [reflexivity|]. split.
  { intros p (Hlen & off & Hf). rewrite Hbuf in Hf.
    unfold frame, wire in Hf.
    destruct off as [|off].
    - rewrite drop_0 in Hf.
      change (5 + length (payload p))%nat
        with (S (S (S (S (S (length (payload p))))))) in Hf.
      cbn [inp app take] in Hf.
      injection Hf as _ Hn Htl.
      apply (f_equal length) in Htl.
      rewrite length_cons, length_take, length_app in Htl.
      cbn [length] in Htl. lia.
    - assert (Hin : PROTO_HEADER_0 ∈
                    take (5 + length (payload p))
                      (drop (S off) (inp ++ replicate 59 0)))
        by (rewrite Hf; left).
      cbn [inp app drop] in Hin.
      apply subseteq_take, subseteq_drop in Hin.
      repeat (apply elem_of_cons in Hin as [Hin|Hin]; [discriminate Hin|]).
      now apply elem_of_nil in Hin. }
  split; [reflexivity|]. split; [reflexivity|]. split; [reflexivity|].
  split; [reflexivity|]. split.
  { intros sth. eexists. split; [reflexivity|reflexivity]. }
  assert (H : processSerial clock inp
                (set_millis_calls (S (millis_calls st)) st) = OutOfBounds)
    by (vm_compute; reflexivity).
  unfold loop, millis. cbv beta iota. rewrite H. reflexivity.
Qed.

(** ** The fuel of the decode loop *)

Lemma bind_no_fuel {A B : Type} (r : result A) (k : A -> result B) :
  r <> OutOfFuel -> (forall a, r = Ok a -> k a <> OutOfFuel) ->
  bind r k <> OutOfFuel.
Proof. intros Hr Hk. destruct r; simpl; auto; discriminate. Qed.

Lemma rd_no_fuel (a : list Z) (i : Z) : rd a i <> OutOfFuel.
Proof. unfold rd. repeat case_match; discriminate. Qed.

Lemma rd_range_no_fuel (a : list Z) (off n : Z) :
  rd_range a off n <> OutOfFuel.
Proof. unfold rd_range. repeat case_match; discriminate. Qed.

Lemma drain_buffer_ok (inp : list Z) (st : State) :
  buffer_ok st -> Forall is_byte (rx_buf st) ->
  buffer_ok (drain inp st) /\ Forall is_byte (rx_buf (drain inp st)).
Proof.
  revert st. induction inp as [|x inp IH]; intros st Hok Hb; [auto|].
  cbn [drain]. apply IH.
  - destruct Hok as [Hlen Hpos]. unfold RX_BUF_SIZE in *.
    destruct (64 <=? rx_pos st) eqn:E; split; simpl;
      rewrite ?length_insert; try exact Hlen.
    + unfold RX_BUF_SIZE. rewrite u8_small; lia.
    + apply Z.leb_gt in E. unfold RX_BUF_SIZE. rewrite u8_small; lia.
  - simpl. apply Forall_insert; [|apply u8_range].
    now destruct (RX_BUF_SIZE <=? rx_pos st).
Qed.

Section Termination.

Variable clock : nat -> Z.

Lemma handlePacket_no_fuel (c : Z) (pl : list Z) (n : Z) (st : State) :
  handlePacket clock c pl n st <> OutOfFuel.
Proof.
  unfold handlePacket, millis. cbn [fst snd].
  repeat case_match; try discriminate;
    repeat (apply bind_no_fuel; [apply rd_no_fuel|intros ? _]); discriminate.
Qed.

(** With [rx_pos - search] units of fuel the decode loop never runs out:
    every iteration that continues without a read outside the array moves
    [search] forward (an iteration whose 8-bit frame size wraps reads
    outside the array first, and ends with [OutOfBounds]). *)
Lemma parse_loop_fuel (fuel : nat) :
  forall (s : Z) (st : State),
    buffer_ok st -> Forall is_byte (rx_buf st) -> 0 <= s ->
    (Z.to_nat (rx_pos st - s) <= fuel)%nat ->
    parse_loop clock fuel s st <> OutOfFuel.
Proof.
  induction fuel as [|fuel IH]; intros s st Hok Hb Hs Hfuel;
    cbn [parse_loop]; destruct (s + 4 <? rx_pos st) eqn:E; cbn [negb];
    try discriminate; apply Z.ltb_lt in E; [lia|].
  pose proof Hok as [Hlen Hpos]. unfold RX_BUF_SIZE in *.
  assert (Hskip : parse_loop clock fuel (u8 (s + 1)) st <> OutOfFuel).
  { rewrite u8_small by lia. apply IH; auto; lia. }
  apply bind_no_fuel; [apply rd_no_fuel|intros h0 _].
  destruct (negb (h0 =? PROTO_HEADER_0)); [exact Hskip|].
  apply bind_no_fuel; [apply rd_no_fuel|intros h1 _].
  destruct (negb (h1 =? PROTO_HEADER_1)); [exact Hskip|].
  apply bind_no_fuel; [apply rd_no_fuel|intros c _].
  apply bind_no_fuel; [apply rd_no_fuel|intros n Hn].
  destruct (rx_pos st <? s + u8 (5 + n)) eqn:Efit; [discriminate|].
  apply Z.ltb_ge in Efit.
  apply bind_no_fuel; [apply rd_range_no_fuel|intros data _].
  apply bind_no_fuel; [apply rd_no_fuel|intros actual Hact].
  apply rd_Ok_inv in Hn as [_ Hn]. apply rd_Ok_inv in Hact as [_ Hact].
  apply lookup_lt_Some in Hact.
  assert (Hbyte : is_byte n).
  { rewrite Forall_forall in Hb. apply Hb. eapply list_elem_of_lookup_2.
    exact Hn. }
  unfold is_byte in Hbyte.
  rewrite (u8_small (5 + n)) in * by lia.
  assert (Hnext : forall st1, rx_buf st1 = rx_buf st -> rx_pos st1 = rx_pos st ->
            parse_loop clock fuel (u8 (s + (5 + n))) st1 <> OutOfFuel).
  { intros st1 Eb Ep. rewrite u8_small by lia.
    apply IH; rewrite ?Eb, ?Ep; auto; [|lia|lia].
    split; rewrite ?Eb, ?Ep; auto. }
  apply bind_no_fuel.
  - destruct (crc8 data =? actual); [|discriminate].
    apply bind_no_fuel; [apply rd_range_no_fuel|intros pl _].
    apply handlePacket_no_fuel.
  - intros st1 Hst1. destruct (crc8 data =? actual).
    + apply bind_Ok_inv in Hst1 as (pl & _ & Hh).
      apply handlePacket_frame in Hh as (Eb & Ep & _). now apply Hnext.
    + injection Hst1 as <-. now apply Hnext.
Qed.

(** The fuel [processSerial] passes is enough, whatever arrives: the
    outcome is [Ok] or [OutOfBounds]. *)
Lemma processSerial_fuel (inp : list Z) (st : State) :
  buffer_ok st -> Forall is_byte (rx_buf st) ->
  processSerial clock inp st <> OutOfFuel.
Proof.
  intros Hok Hb. destruct (drain_buffer_ok inp st Hok Hb) as [Hokd Hbd].
  unfold processSerial.
  apply bind_no_fuel.
  - apply parse_loop_fuel; auto; lia.
  - intros [s st1] _. destruct (0 <? s); [|discriminate].
    apply bind_no_fuel; [|discriminate].
    unfold memmove_front. apply bind_no_fuel; [apply rd_range_no_fuel|].
    discriminate.
Qed.

End Termination.

(** * Further properties of the code *)

(** ** The checksum *)

Lemma all_bytes_In (x : Z) : is_byte x -> In x all_bytes.
Proof.
  intros Hx. unfold all_bytes. apply in_map_iff.
  exists (Z.to_nat x). split; [unfold is_byte in Hx; lia|].
  apply in_seq. unfold is_byte in Hx. lia.
Qed.

Lemma crc8_shifts_inj (x y : Z) :
  is_byte x -> is_byte y ->
  Nat.iter 8 crc8_shift x = Nat.iter 8 crc8_shift y -> x = y.
Proof.
  intros Hx Hy.
  assert (H : forallb (fun a => forallb (fun b =>
                implb (Nat.iter 8 crc8_shift a =? Nat.iter 8 crc8_shift b)
                      (a =? b)) all_bytes) all_bytes = true)
    by (vm_compute; reflexivity).
  rewrite forallb_forall in H. specialize (H x (all_bytes_In x Hx)).
  rewrite forallb_forall in H. specialize (H y (all_bytes_In y Hy)).
  intros E. rewrite E, Z.eqb_refl in H. simpl in H. now apply Z.eqb_eq.
Qed.

Lemma lxor_byte (a b : Z) : is_byte a -> is_byte b -> is_byte (Z.lxor a b).
Proof.
  intros Ha Hb.
  assert (H : forallb (fun x => forallb (fun y =>
                (0 <=? Z.lxor x y) && (Z.lxor x y <? 256)) all_bytes)
                all_bytes = true)
    by (vm_compute; reflexivity).
  rewrite forallb_forall in H. specialize (H a (all_bytes_In a Ha)).
  rewrite forallb_forall in H. specialize (H b (all_bytes_In b Hb)).
  apply andb_true_iff in H as [H1 H2].
  apply Z.leb_le in H1. apply Z.ltb_lt in H2. unfold is_byte. lia.
Qed.

Lemma crc8_byte_inj_data (c b b' : Z) :
  is_byte c -> is_byte b -> is_byte b' ->
  crc8_byte c b = crc8_byte c b' -> b = b'.
Proof.
  intros Hc Hb Hb' E. unfold crc8_byte in E.
  apply crc8_shifts_inj in E; try apply u8_range.
  rewrite !u8_small in E by now apply lxor_byte.
  apply (f_equal (Z.lxor c)) in E.
  now rewrite <- !Z.lxor_assoc, Z.lxor_nilpotent, !Z.lxor_0_l in E.
Qed.

Lemma crc8_byte_inj_crc (c c' b : Z) :
  is_byte c -> is_byte c' -> is_byte b ->
  crc8_byte c b = crc8_byte c' b -> c = c'.
Proof.
  intros Hc Hc' Hb E. unfold crc8_byte in E.
  apply crc8_shifts_inj in E; try apply u8_range.
  rewrite !u8_small in E by now apply lxor_byte.
  apply (f_equal (fun z => Z.lxor z b)) in E.
  now rewrite !Z.lxor_assoc, Z.lxor_nilpotent, !Z.lxor_0_r in E.
Qed.

Lemma crc8_fold_byte (data : list Z) (acc : Z) :
  is_byte acc -> is_byte (fold_left crc8_byte data acc).
Proof.
  revert acc. induction data as [|b data IH]; intros acc Hacc; [exact Hacc|].
  simpl. apply IH, crc8_byte_range.
Qed.

Lemma crc8_fold_inj (data : list Z) (acc acc' : Z) :
  Forall is_byte data -> is_byte acc -> is_byte acc' ->
  fold_left crc8_byte data acc = fold_left crc8_byte data acc' -> acc = acc'.
Proof.
  intros Hd. revert acc acc'.
  induction Hd as [|b data Hb _ IH]; intros acc acc' Ha Ha' E; [exact E|].
  simpl in E. apply IH in E; try apply crc8_byte_range.
  now apply crc8_byte_inj_crc in E.
Qed.

(** X1.  The CRC of a message followed by its own CRC is 0, for every
    message: a receiver may run [crc8] over command, length, payload and
    the trailing byte, and check for 0. *)
Theorem crc8_residue (data : list Z) : crc8 (data ++ [crc8 data]) = 0.
Proof.
  unfold crc8. rewrite fold_left_app. simpl. unfold crc8_byte.
  rewrite Z.lxor_nilpotent. reflexivity.
Qed.

Lemma crc8_one_byte_neq (pre post : list Z) (b b' : Z) :
  Forall is_byte pre -> Forall is_byte post -> is_byte b -> is_byte b' ->
  b <> b' ->
  crc8 (pre ++ b :: post) <> crc8 (pre ++ b' :: post).
Proof.
  intros Hpre Hpost Hb Hb' Hne E. unfold crc8 in E.
  rewrite !fold_left_app in E. simpl in E.
  apply crc8_fold_inj in E; try apply crc8_byte_range; [|exact Hpost].
  apply crc8_byte_inj_data in E; auto.
  apply crc8_fold_byte. unfold is_byte. lia.
Qed.

(** X2.  Two messages of bytes that differ in exactly one byte have
    different CRCs: [crc8] detects every corruption of a single byte. *)
Theorem crc8_detects_one_byte (pre post : list Z) (b b' : Z) :
  Forall is_byte pre -> Forall is_byte post -> is_byte b -> is_byte b' ->
  b <> b' ->
  crc8 (pre ++ b :: post) <> crc8 (pre ++ b' :: post).
Proof. apply crc8_one_byte_neq. Qed.

(** ** Frames in the decoder *)

Section FrameStreams.

Variable clock : nat -> Z.

Lemma frame_ok_bytes (fs : list (Z * list Z * Z)) :
  Forall frame_ok fs -> Forall is_byte (frames_bytes fs).
Proof.
  induction 1 as [|[[c pl] k] fs Hf _ IH]; cbn [frames_bytes]; [constructor|].
  destruct Hf as (Hc & Hpl & Hlen & Hk). simpl in Hc, Hpl, Hlen, Hk.
  apply Forall_app. split; [|exact IH]. apply wire_bytes_ok; auto. lia.
Qed.

Lemma frame_ok_scan (fs : list (Z * list Z * Z)) :
  Forall frame_ok fs ->
  Forall (fun f => (length (snd (fst f)) <= 250)%nat) fs.
Proof.
  intros H. eapply Forall_impl; [exact H|].
  intros [[c pl] k] (_ & _ & Hlen & _). simpl in *. lia.
Qed.

(** X3.  A frame in which one payload byte, or the command byte, was
    altered after the checksum was computed is never dispatched, whatever
    the payload (the empty one included), the position and the new byte:
    the decoder consumes the frame and dispatches nothing. *)
Theorem corrupted_frame_dropped (c : Z) (pl : list Z) (st : State) :
  buffer_ok st -> rx_pos st = 0 ->
  is_byte c -> Forall is_byte pl -> (length pl <= 16)%nat ->
  (forall (i : nat) (b' : Z),
      is_byte b' -> (i < length pl)%nat -> pl !! i <> Some b' ->
      exists st',
        processSerial clock (wire c (<[i := b']> pl) (checksum c pl)) st
        = Ok st' /\
        dispatched st' = dispatched st /\ rx_pos st' = 0) /\
  (forall c' : Z,
      is_byte c' -> c' <> c ->
      exists st',
        processSerial clock (wire c' pl (checksum c pl)) st = Ok st' /\
        dispatched st' = dispatched st /\ rx_pos st' = 0).
Proof.
  intros Hok Hpos Hc Hpl Hlen.
  assert (Drop : forall c0 pl0,
             is_byte c0 -> Forall is_byte pl0 -> (length pl0 <= 16)%nat ->
             checksum c0 pl0 <> checksum c pl ->
             exists st',
               processSerial clock (wire c0 pl0 (checksum c pl)) st = Ok st' /\
               dispatched st' = dispatched st /\ rx_pos st' = 0).
  { intros c0 pl0 Hc0 Hpl0 Hlen0 Hsum.
    pose proof (Scan_frames [(c0, pl0, checksum c pl)]) as HS.
    simpl in HS. rewrite !app_nil_r in HS.
    replace (checksum c0 pl0 =? checksum c pl) with false in HS
      by (symmetry; now apply Z.eqb_neq).
    destruct (processSerial_Scan clock (wire c0 pl0 (checksum c pl)) st [] [])
      as (st' & Hp & Hok' & Hpend & Hd).
    - exact Hok.
    - apply wire_bytes_ok; auto; [lia|apply crc8_range].
    - rewrite Hpos. unfold wire, RX_BUF_SIZE. simpl. rewrite length_app.
      simpl. lia.
    - rewrite pending_empty by exact Hpos. apply HS.
      constructor; [simpl; lia|constructor].
    - exists st'. split; [exact Hp|]. rewrite app_nil_r in Hd.
      split; [exact Hd|]. now apply pending_nil_rx_pos. }
  split.
  - intros i b' Hb' Hi Hne. apply Drop; auto.
    + apply Forall_insert; auto.
    + rewrite length_insert. exact Hlen.
    + destruct (lookup_lt_is_Some_2 pl i Hi) as [b Hb].
      assert (Hbb : is_byte b).
      { rewrite Forall_forall in Hpl. apply Hpl.
        eapply list_elem_of_lookup_2. exact Hb. }
      unfold checksum. rewrite length_insert.
      rewrite insert_take_drop by exact Hi.
      replace (c :: Z.of_nat (length pl) :: pl)
        with ((c :: Z.of_nat (length pl) :: take i pl)
                ++ b :: drop (S i) pl)
        by (simpl; now rewrite take_drop_middle).
      apply (crc8_one_byte_neq (c :: Z.of_nat (length pl) :: take i pl)).
      * repeat apply Forall_cons_2; auto; [unfold is_byte; lia|].
        now apply Forall_take.
      * now apply Forall_drop.
      * exact Hb'.
      * exact Hbb.
      * intros ->. now apply Hne.
  - intros c' Hc' Hcne. apply Drop; auto. unfold checksum.
    apply (crc8_one_byte_neq [] (Z.of_nat (length pl) :: pl)); auto.
    apply Forall_cons_2; [unfold is_byte; lia|exact Hpl].
Qed.

(** X4.  Any number of frames behind header-free garbage, in any chunking
    that fits the buffer: the decoder, started on an empty buffer,
    dispatches the checksum-valid frames, all of them, in order, drops the
    others, and ends with an empty buffer. *)
Theorem frames_chunked (g : list Z) (f : Z * list Z * Z)
        (fs : list (Z * list Z * Z)) (chunks : list (list Z)) (st : State) :
  buffer_ok st -> rx_pos st = 0 ->
  Forall is_byte g -> has_header g = false ->
  Forall frame_ok (f :: fs) ->
  concat chunks = g ++ frames_bytes (f :: fs) ->
  fits clock chunks st = true ->
  exists st',
    run_chunks clock chunks st = Ok st' /\
    dispatched st' = dispatched st ++ frames_packets (f :: fs) /\
    rx_pos st' = 0.
Proof.
  intros Hok Hpos Hg Hh Hfs Hstream Hfits.
  pose proof (Scan_garbage_frames g f fs Hh (frame_ok_scan _ Hfs)) as HS.
  rewrite <- Hstream in HS.
  destruct (run_chunks_Scan clock chunks st (frames_packets (f :: fs)) [])
    as (st' & Hrun & Hok' & Hd & Hpend).
  - exact Hok.
  - rewrite pending_empty by exact Hpos. apply Scan_short. simpl. lia.
  - exact Hfits.
  - apply Forall_concat_inv. rewrite Hstream.
    apply Forall_app. split; [exact Hg|now apply frame_ok_bytes].
  - rewrite pending_empty by exact Hpos. exact HS.
  - exists st'. split; [exact Hrun|]. split; [exact Hd|].
    now apply pending_nil_rx_pos.
Qed.

End FrameStreams.

(** ** The decode loop on arbitrary bytes *)

Lemma Exists_drop_inv {A : Type} (P : A -> Prop) (k : nat) (l : list A) :
  Exists P (drop k l) -> Exists P l.
Proof.
  revert l. induction k as [|k IH]; intros l H; [now rewrite drop_0 in H|].
  destruct l as [|x l]; [exact H|]. apply Exists_cons_tl. now apply IH.
Qed.

Lemma drain_Forall (P : Z -> Prop) (inp : list Z) (st : State) :
  Forall P (rx_buf st) -> Forall (fun b => P (u8 b)) inp ->
  Forall P (rx_buf (drain inp st)).
Proof.
  revert st. induction inp as [|x inp IH]; intros st Hb Hi; [exact Hb|].
  inversion Hi as [|? ? Hx Hi']; subst. cbn [drain]. apply IH; [|exact Hi'].
  simpl. apply Forall_insert; [|exact Hx].
  now destruct (RX_BUF_SIZE <=? rx_pos st).
Qed.

Section DecodeOutcome.

Variable clock : nat -> Z.

Lemma decode_outcome_later (s s1 : Z) (st st1 : State)
      (r : result (Z * State)) :
  0 <= s <= s1 -> rx_buf st1 = rx_buf st -> rx_pos st1 = rx_pos st ->
  decode_outcome s1 st1 r -> decode_outcome s st r.
Proof.
  intros Hs Eb Ep H.
  assert (Epend : pending st1 = pending st)
    by (unfold pending; now rewrite Eb, Ep).
  destruct r as [[s' st']| |]; simpl in *; rewrite ?Epend, ?Eb, ?Ep in H.
  - destruct H as (H1 & H2 & H3 & H4). repeat split; auto; lia.
  - replace (Z.to_nat s1) with (Z.to_nat s + Z.to_nat (s1 - s))%nat in H
      by lia.
    rewrite <- drop_drop in H. eapply Exists_drop_inv. exact H.
  - exact H.
Qed.

Lemma parse_loop_outcome (fuel : nat) :
  forall (s : Z) (st : State),
    buffer_ok st -> Forall is_byte (rx_buf st) -> 0 <= s <= rx_pos st ->
    (Z.to_nat (rx_pos st - s) <= fuel)%nat ->
    decode_outcome s st (parse_loop clock fuel s st).
Proof.
  induction fuel as [|fuel IH]; intros s st Hok Hb Hs Hfuel.
  { rewrite parse_loop_stop by lia. simpl.
    split; [lia|]. split; [reflexivity|]. split; [reflexivity|].
    left. rewrite length_drop, length_pending by exact Hok. lia. }
  destruct (decide (rx_pos st <= s + 4)) as [Hstop|Hgo].
  { rewrite parse_loop_stop by lia. simpl.
    split; [lia|]. split; [reflexivity|]. split; [reflexivity|].
    left. rewrite length_drop, length_pending by exact Hok. lia. }
  pose proof Hok as [Hlen Hpos]. unfold RX_BUF_SIZE in Hlen, Hpos.
  destruct (buf_window st s _ Hok Hs eq_refl)
    as (pre & post & Hbuf & Hpre & Hsz).
  set (w := drop (Z.to_nat s) (pending st)) in *.
  assert (Hwb : Forall is_byte w).
  { unfold w, pending. now apply Forall_drop, Forall_take. }
  destruct w as [|h0 [|h1 [|c [|n tl]]]] eqn:Ew; simpl length in Hsz;
    try lia.
  assert (Hn : is_byte n).
  { do 3 (apply Forall_cons in Hwb as [_ Hwb]).
    now apply Forall_cons in Hwb as [Hwb _]. }
  unfold is_byte in Hn.
  cbn [parse_loop].
  replace (s + 4 <? rx_pos st) with true by (symmetry; apply Z.ltb_lt; lia).
  cbn [negb].
  pose proof (rd_window _ _ _ _ s 0 h0 Hbuf Hpre) as R0.
  rewrite Z.add_0_r in R0. rewrite R0 by (try lia; reflexivity).
  rewrite (rd_window _ _ _ _ s 1 h1 Hbuf Hpre) by (try lia; reflexivity).
  rewrite (rd_window _ _ _ _ s 2 c Hbuf Hpre) by (try lia; reflexivity).
  rewrite (rd_window _ _ _ _ s 3 n Hbuf Hpre) by (try lia; reflexivity).
  cbn [bind].
  assert (Hskip : decode_outcome s st (parse_loop clock fuel (u8 (s + 1)) st)).
  { rewrite u8_small by lia.
    apply (decode_outcome_later s (s + 1) st st); auto; [lia|].
    apply IH; auto; lia. }
  destruct (negb (h0 =? PROTO_HEADER_0)) eqn:E0; [exact Hskip|].
  destruct (negb (h1 =? PROTO_HEADER_1)) eqn:E1; [exact Hskip|].
  apply negb_false_iff, Z.eqb_eq in E0, E1. subst h0 h1.
  destruct (decide (n <= 250)) as [Hsmall|Hbig].
  - rewrite (u8_small (5 + n)) by lia. rewrite (u8_small (2 + n)) by lia.
    destruct (rx_pos st <? s + (5 + n)) eqn:Efit.
    + apply Z.ltb_lt in Efit. simpl.
      split; [lia|]. split; [reflexivity|]. split; [reflexivity|].
      right. exists c, n, tl. fold w. rewrite Ew.
      split; [reflexivity|]. split; [lia|lia].
    + apply Z.ltb_ge in Efit.
      rewrite (rd_range_window _ _ _ _ s 2 (2 + n) Hbuf Hpre)
        by (simpl length; lia).
      destruct (lookup_lt_is_Some_2 tl (Z.to_nat n)) as [k Hk]; [lia|].
      replace (s + 4 + n) with (s + (4 + n)) by lia.
      rewrite (rd_window _ _ _ _ s (4 + n) k Hbuf Hpre); try lia.
      2:{ replace (Z.to_nat (4 + n)) with (4 + Z.to_nat n)%nat by lia.
          exact Hk. }
      cbn [bind].
      rewrite (u8_small (s + (5 + n))) by lia.
      assert (Hnext : forall st1,
                rx_buf st1 = rx_buf st -> rx_pos st1 = rx_pos st ->
                decode_outcome s st
                  (parse_loop clock fuel (s + (5 + n)) st1)).
      { intros st1 Eb Ep.
        apply (decode_outcome_later s (s + (5 + n)) st st1); auto; [lia|].
        apply IH; rewrite ?Eb, ?Ep; auto; [|lia|lia].
        split; rewrite ?Eb, ?Ep; auto. }
      destruct (crc8 _ =? k).
      * rewrite (rd_range_window _ _ _ _ s 4 n Hbuf Hpre)
          by (simpl length; lia).
        cbn [bind].
        destruct (handlePacket_total clock c
                    (take (Z.to_nat n)
                       (drop (Z.to_nat 4)
                          (PROTO_HEADER_0 :: PROTO_HEADER_1 :: c :: n :: tl)))
                    n st) as [st1 Hh].
        { rewrite length_take, length_drop. simpl length. lia. }
        rewrite Hh. cbn [bind].
        apply handlePacket_frame in Hh as (Eb & Ep & _). now apply Hnext.
      * cbn [bind]. now apply Hnext.
  - assert (Hlow : 0 <= u8 (5 + n) <= 4).
    { unfold u8. Z.div_mod_to_equations. lia. }
    replace (rx_pos st <? s + u8 (5 + n)) with false
      by (symmetry; apply Z.ltb_ge; lia).
    assert (Hact : rd (rx_buf st) (s + 4 + n) = OutOfBounds).
    { unfold rd. destruct (s + 4 + n <? 0) eqn:E; [reflexivity|].
      rewrite lookup_ge_None_2; [reflexivity|lia]. }
    assert (Hex : Exists (fun b => 251 <= b) w).
    { rewrite Ew. do 3 apply Exists_cons_tl. apply Exists_cons_hd. lia. }
    destruct (rd_range (rx_buf st) (s + 2) (u8 (2 + n))) as [data| |] eqn:Ed;
      cbn [bind].
    + rewrite Hact. exact Hex.
    + exact Hex.
    + now apply rd_range_no_fuel in Ed.
Qed.

(** One tick of the decoder on a buffer of bytes, whatever arrives. *)
Lemma processSerial_cases (inp : list Z) (st : State) :
  buffer_ok st -> Forall is_byte (rx_buf st) ->
  (exists st' k,
      processSerial clock inp st = Ok st' /\ buffer_ok st' /\
      Forall is_byte (rx_buf st') /\ awaiting (pending st') /\
      pending st' = drop k (pending (drain inp st)) /\
      rx_buf st' ⊆ rx_buf (drain inp st)) \/
  (processSerial clock inp st = OutOfBounds /\
   Exists (fun b => 251 <= b) (pending (drain inp st))).
Proof.
  intros Hok Hb. destruct (drain_buffer_ok inp st Hok Hb) as [Hokd Hbd].
  set (d := drain inp st) in *.
  pose proof (parse_loop_outcome (Z.to_nat (rx_pos d)) 0 d Hokd Hbd) as H.
  unfold processSerial. fold d.
  destruct (parse_loop clock (Z.to_nat (rx_pos d)) 0 d) as [[s st1]| |];
    simpl in H.
  - left. destruct H as (Hs & Eb & Ep & Haw); [destruct Hokd; lia|lia|].
    pose proof Hokd as [Hlen Hpos]. unfold RX_BUF_SIZE in Hlen, Hpos.
    assert (Hok1 : buffer_ok st1) by (split; rewrite ?Eb, ?Ep; apply Hokd).
    assert (Epend : pending st1 = pending d)
      by (unfold pending; now rewrite Eb, Ep).
    cbn [bind]. destruct (0 <? s) eqn:Es.
    + apply Z.ltb_lt in Es.
      destruct (buf_window st1 s _ Hok1 ltac:(lia) eq_refl)
        as (pre & post & Hbuf & Hpre & Hsz).
      rewrite Epend in Hbuf, Hsz.
      remember (drop (Z.to_nat s) (pending d)) as rest eqn:Erest.
      rewrite (u8_small (rx_pos st1 - s)) by lia.
      unfold memmove_front.
      pose proof (rd_range_window _ _ _ _ s 0 (rx_pos st1 - s)
                    Hbuf Hpre) as Hr.
      rewrite Z.add_0_r in Hr. rewrite Hr by lia. cbn [bind].
      assert (Hrl : Z.to_nat (rx_pos st1 - s) = length rest) by lia.
      rewrite drop_0, Hrl, firstn_all.
      eexists. exists (Z.to_nat s). split; [reflexivity|].
      unfold pending, buffer_ok. simpl. rewrite Hrl, take_app_length.
      split; [|split; [|split; [|split]]].
      * unfold RX_BUF_SIZE. rewrite length_app, length_drop, Eb. lia.
      * apply Forall_app. rewrite Eb.
        split; [|now apply Forall_drop].
        rewrite Erest. unfold pending. now apply Forall_drop, Forall_take.
      * subst rest. exact Haw.
      * subst rest. reflexivity.
      * apply list_subseteq_app_iff_l. rewrite Eb.
        split; [|apply subseteq_drop].
        rewrite Erest. unfold pending.
        etransitivity; [apply subseteq_drop|apply subseteq_take].
    + apply Z.ltb_ge in Es. exists st1, 0%nat. split; [reflexivity|].
      split; [exact Hok1|]. split; [now rewrite Eb|].
      replace s with 0 in Haw by lia. rewrite drop_0 in *.
      rewrite Epend, Eb. auto.
  - right. rewrite drop_0 in H. destruct Hokd. specialize (H ltac:(lia) ltac:(lia)).
    auto.
  - destruct Hokd. exfalso. apply H; lia.
Qed.

(** While no pending byte is above 250 the decode step returns. *)
Lemma processSerial_returns (inp : list Z) (st : State) :
  buffer_ok st -> Forall is_byte (rx_buf st) ->
  Forall (fun b => b <= 250) (pending (drain inp st)) ->
  exists st',
    processSerial clock inp st = Ok st' /\ buffer_ok st' /\
    Forall is_byte (rx_buf st') /\ rx_buf st' ⊆ rx_buf (drain inp st).
Proof.
  intros Hok Hb Hs.
  destruct (processSerial_cases inp st Hok Hb)
    as [(st' & k & H & Hok' & Hb' & _ & _ & Hsub)|[_ Hex]].
  - exists st'. auto.
  - exfalso. apply Exists_exists in Hex as (b & Hin & Hbig).
    rewrite Forall_forall in Hs. specialize (Hs b Hin). cbv beta in Hs. lia.
Qed.

(** X5.  A length byte up to 250 cannot make the 8-bit frame size wrap:
    if none of the bytes pending after the drain is above 250, every read
    of the decoder stays inside the receive array, the search index
    advances in every iteration that continues, and [processSerial]
    returns, whatever the bytes are and whatever lies in the array behind
    the write cursor. *)
Theorem processSerial_safe (inp : list Z) (st : State) :
  buffer_ok st -> Forall is_byte (rx_buf st) ->
  Forall (fun b => b <= 250) (pending (drain inp st)) ->
  exists st', processSerial clock inp st = Ok st'.
Proof.
  intros Hok Hb Hs.
  destruct (processSerial_returns inp st Hok Hb Hs) as (st' & H & _).
  now exists st'.
Qed.

(** X6.  After every tick the receive buffer is again a 64-byte array of
    bytes with its cursor inside, what it holds is the tail of what was
    pending after the drain, and that is fewer than five bytes or the
    beginning of a frame that is not complete yet: scanned garbage and
    consumed frames never stay in the buffer. *)
Theorem processSerial_leftover (inp : list Z) (st st' : State) :
  buffer_ok st -> Forall is_byte (rx_buf st) ->
  processSerial clock inp st = Ok st' ->
  buffer_ok st' /\ Forall is_byte (rx_buf st') /\
  awaiting (pending st') /\
  exists k, pending st' = drop k (pending (drain inp st)).
Proof.
  intros Hok Hb H.
  destruct (processSerial_cases inp st Hok Hb)
    as [(st2 & k & H2 & Hok2 & Hb2 & Haw & Hp & _)|[H2 _]];
    rewrite H2 in H; [|discriminate].
  injection H as <-. eauto 10.
Qed.

End DecodeOutcome.

(** ** Pulse widths *)

Lemma lor_bytes (a b : Z) :
  is_byte a -> is_byte b -> Z.lor a (Z.shiftl b 8) = a + 256 * b.
Proof.
  intros Ha Hb.
  assert (H : forallb (fun x => forallb (fun y =>
                Z.lor x (Z.shiftl y 8) =? x + 256 * y) all_bytes)
                all_bytes = true)
    by (vm_compute; reflexivity).
  rewrite forallb_forall in H. specialize (H a (all_bytes_In a Ha)).
  rewrite forallb_forall in H. specialize (H b (all_bytes_In b Hb)).
  now apply Z.eqb_eq.
Qed.

Lemma microsToTicks_servo (w : Z) :
  500 <= w <= 2500 ->
  microsToTicks w = w * 65536 / 20000 /\ 1638 <= microsToTicks w <= 8192.
Proof.
  intros Hw. unfold microsToTicks, u32, u64, SERVO_FREQ_HZ.
  change (Z.shiftl 1 LEDC_RESOLUTION) with 65536.
  Z.div_mod_to_equations. lia.
Qed.

Lemma constrain_range (us : Z) :
  500 <= constrain us SERVO_MIN_US SERVO_MAX_US <= 2500.
Proof.
  unfold constrain, SERVO_MIN_US, SERVO_MAX_US.
  destruct (us <? 500) eqn:E1; [lia|]. apply Z.ltb_ge in E1.
  destruct (2500 <? us) eqn:E2; [lia|]. apply Z.ltb_ge in E2. lia.
Qed.

Lemma constrain_mono (a b : Z) :
  a <= b ->
  constrain a SERVO_MIN_US SERVO_MAX_US <= constrain b SERVO_MIN_US SERVO_MAX_US.
Proof.
  intros H. unfold constrain, SERVO_MIN_US, SERVO_MAX_US.
  destruct (a <? 500) eqn:A1; destruct (b <? 500) eqn:B1;
    destruct (2500 <? a) eqn:A2; destruct (2500 <? b) eqn:B2;
    rewrite ?Z.ltb_lt, ?Z.ltb_ge in *; lia.
Qed.

(** X7.  Whatever pulse width is asked for, [servoWriteUs] writes a duty
    between 1638 and 8192 of the 65536 ticks of a period: the whole
    number of ticks of 20000/65536 us in the width clamped to 500..2500 us.
    A longer width never gives a smaller duty. *)
Theorem servoWriteUs_duty (us us' : Z) (st : State) :
  us <= us' ->
  let d := ledc_duty (servoWriteUs us st) in
  d = constrain us SERVO_MIN_US SERVO_MAX_US * 65536 / 20000 /\
  1638 <= d <= 8192 /\ d <= ledc_duty (servoWriteUs us' st).
Proof.
  intros Hle. cbv zeta. unfold servoWriteUs. cbn [ledcWrite ledc_duty].
  pose proof (constrain_range us) as Hc.
  pose proof (constrain_range us') as Hc'.
  destruct (microsToTicks_servo _ Hc) as [E R].
  destruct (microsToTicks_servo _ Hc') as [E' R'].
  split; [exact E|]. split; [exact R|].
  apply constrain_mono in Hle. rewrite E, E'.
  apply Z.div_le_mono; lia.
Qed.

(** ** The decoder, the receive loop and the encoder, continued *)

Section DecoderSound.

Variable clock : nat -> Z.

(** X8.  While no byte above 250 is pending, whatever else arrives:
    [processSerial] returns, and every packet it hands to the dispatcher
    was read from a frame in the receive array that has the two header
    bytes, a length byte equal to the payload size and a matching
    checksum; the dispatcher's log grows by exactly these packets. *)
Theorem decoder_sound (inp : list Z) (st : State) :
  buffer_ok st -> Forall is_byte (rx_buf st) ->
  Forall (fun b => b <= 250) (pending (drain inp st)) ->
  exists st' ps,
    processSerial clock inp st = Ok st' /\
    dispatched st' = dispatched st ++ ps /\
    Forall (valid_frame_in (rx_buf (drain inp st))) ps.
Proof.
  intros Hok Hb Hs.
  destruct (processSerial_returns clock inp st Hok Hb Hs) as (st' & H & _).
  pose proof H as H'.
  apply processSerial_inv in H' as (ps & st1 & b & r & Hd & -> & _ & Hv);
    [|apply Hok].
  exists (set_rx_pos r (set_rx_buf b st1)), ps.
  split; [exact H|]. split; [|exact Hv]. simpl.
  apply dispatch_all_frame in Hd as (_ & _ & _ & _ & ->).
  destruct (drain_frame inp st) as (b' & r' & ->). reflexivity.
Qed.

End DecoderSound.

(** X9.  The receive loop never writes outside [rx_buf]: with every
    array write checked, draining any input into a 64-byte array succeeds
    and gives the state [drain] gives, whatever the 8-bit cursor was. *)
Theorem drain_in_bounds (inp : list Z) (st : State) :
  length (rx_buf st) = Z.to_nat RX_BUF_SIZE -> 0 <= rx_pos st ->
  drain_checked inp st = Ok (drain inp st).
Proof.
  revert st. induction inp as [|b inp IH]; intros st Hlen Hpos; [reflexivity|].
  cbn [drain_checked drain].
  set (st0 := if RX_BUF_SIZE <=? rx_pos st then set_rx_pos 0 st else st).
  assert (H0 : length (rx_buf st0) = Z.to_nat RX_BUF_SIZE /\
               0 <= rx_pos st0 < RX_BUF_SIZE).
  { unfold st0. destruct (RX_BUF_SIZE <=? rx_pos st) eqn:E; simpl;
      [unfold RX_BUF_SIZE in *; lia|]. apply Z.leb_gt in E. lia. }
  destruct H0 as [Hl0 Hp0].
  unfold wr.
  replace ((0 <=? rx_pos st0) && (rx_pos st0 <? Z.of_nat (length (rx_buf st0))))
    with true.
  2:{ symmetry. apply andb_true_iff.
      split; [apply Z.leb_le; lia|].
      apply Z.ltb_lt. rewrite Hl0. unfold RX_BUF_SIZE in *. lia. }
  cbn [bind]. apply IH; simpl.
  - now rewrite length_insert.
  - pose proof (u8_range (rx_pos st0 + 1)). lia.
Qed.

Lemma land_byte (x : Z) : u8 (Z.land x 0xFF) = x mod 256.
Proof.
  change 0xFF with (Z.ones 8). rewrite Z.land_ones by lia.
  change (2 ^ 8) with 256. apply u8_small. apply Z.mod_pos_bound. lia.
Qed.

(** X10.  The telemetry payload carries the ADC reading and the measured
    loop rate as 16-bit little-endian values: putting the bytes together
    the way [handlePacket] puts a steering value together gives both
    numbers back. *)
Theorem telemetry_little_endian (st : State) :
  -32768 <= servo_angle_adc st < 32768 -> 0 <= loop_rate_hz st < 65536 ->
  exists a0 a1 r0 r1,
    sendTelemetry st
    = Ok (Serial_write (frame CMD_TELEMETRY [a0; a1; r0; r1]) st) /\
    Forall is_byte [a0; a1; r0; r1] /\
    s16 (Z.lor a0 (Z.shiftl a1 8)) = servo_angle_adc st /\
    Z.lor r0 (Z.shiftl r1 8) = loop_rate_hz st.
Proof.
  intros Ha Hr. unfold sendTelemetry. cbv zeta.
  rewrite !land_byte.
  rewrite !Z.shiftr_div_pow2 by lia. change (2 ^ 8) with 256.
  set (a := servo_angle_adc st) in *. set (r := loop_rate_hz st) in *.
  exists (a mod 256), ((a / 256) mod 256), (r mod 256), ((r / 256) mod 256).
  assert (B : forall x, is_byte (x mod 256))
    by (intros x; apply Z.mod_pos_bound; lia).
  split; [apply (sendPacket_frame CMD_TELEMETRY [_; _; _; _]); simpl; lia|].
  split; [repeat constructor; apply B|].
  rewrite !lor_bytes by apply B. unfold s16.
  split.
  - destruct (_ <? _) eqn:E; [apply Z.ltb_lt in E|apply Z.ltb_ge in E];
      Z.div_mod_to_equations; lia.
  - Z.div_mod_to_equations. lia.
Qed.

(** X11.  [sendPacket] has room for 16 payload bytes and does not check
    its length argument: up to 16 bytes every store stays inside its local
    array and it writes the frame to the serial port; for every longer
    payload one of its stores falls outside the array, which is the
    outcome [OutOfBounds] (what the source transmits after such a store is
    not described). *)
Theorem sendPacket_capacity (c : Z) (pl : list Z) (st : State) :
  sendPacket c pl (Z.of_nat (length pl)) st
  = if (length pl <=? 16)%nat then Ok (Serial_write (frame c pl) st)
    else OutOfBounds.
Proof.
  destruct (length pl <=? 16)%nat eqn:E.
  - apply Nat.leb_le in E. now apply sendPacket_frame.
  - apply Nat.leb_gt in E. unfold sendPacket. cbv zeta.
    destruct (decide (length pl = 17%nat)) as [E17|E17].
    { generalize crc8 Serial_write. intros f w.
      do 17 (destruct pl as [|? pl]; [discriminate E17|]).
      destruct pl; [|discriminate E17]. vm_compute. reflexivity. }
    remember (Z.of_nat (length pl)) as n eqn:En.
    change (Z.to_nat (5 + PROTO_MAX_PAYLOAD)) with 21%nat.
    cbn [replicate]. unfold wr at 1 2 3 4. simpl.
    replace (0 <? n) with true by (symmetry; apply Z.ltb_lt; lia).
    unfold memcpy. unfold rd_range at 1.
    replace (n =? 0) with false by (symmetry; apply Z.eqb_neq; lia).
    replace ((0 <=? 0) && (0 <? n) && (0 + n <=? Z.of_nat (length pl)))
      with true
      by (symmetry; rewrite !andb_true_iff, Z.leb_le, Z.ltb_lt;
          repeat split; lia).
    cbn [bind].
    cbn [length]. change (Z.of_nat 21) with 21.
    replace (4 + n <=? 21) with false by (symmetry; apply Z.leb_gt; lia).
    reflexivity.
Qed.

(** ** The blocks of [loop()] behind the decode step *)

Lemma servo_duty_pulse (us : Z) :
  servo_duty (microsToTicks (constrain us SERVO_MIN_US SERVO_MAX_US)).
Proof.
  right. pose proof (constrain_range us) as Hc.
  destruct (microsToTicks_servo _ Hc) as [_ R].
  assert (Hmin : microsToTicks SERVO_MIN_US = 1638) by reflexivity.
  assert (Hmax : microsToTicks SERVO_MAX_US = 8192) by reflexivity.
  rewrite Hmin, Hmax. exact R.
Qed.

Lemma post_decode_refl (st : State) : post_decode st st.
Proof.
  unfold post_decode. repeat split; auto.
  - exists []. now rewrite app_nil_r.
  - exists []. split; [reflexivity|constructor].
Qed.

Lemma post_decode_trans (a b c : State) :
  post_decode a b -> post_decode b c -> post_decode a c.
Proof.
  intros (G1 & C1 & L1 & P1 & B1 & D1 & (n1 & T1 & F1) & (w1 & W1 & V1) & U1)
         (G2 & C2 & L2 & P2 & B2 & D2 & (n2 & T2 & F2) & (w2 & W2 & V2) & U2).
  unfold post_decode.
  rewrite G2, C2, L2, P2, B2, D2, T2, W2, G1, C1, L1, P1, B1, D1, T1, W1.
  repeat split; auto.
  - exists (n1 ++ n2). rewrite app_assoc. split; [reflexivity|].
    now apply Forall_app.
  - exists (w2 ++ w1). rewrite app_assoc. split; [reflexivity|].
    now apply Forall_app.
  - destruct U2 as [U2|U2]; [|now right]. rewrite U2. exact U1.
Qed.

Lemma sendTelemetry_bytes (st : State) :
  exists pl,
    sendTelemetry st = Ok (Serial_write (frame CMD_TELEMETRY pl) st) /\
    Forall is_byte pl /\ length pl = 4%nat.
Proof.
  eexists. unfold sendTelemetry. cbv zeta.
  split; [apply (sendPacket_frame CMD_TELEMETRY [_; _; _; _]); simpl; lia|].
  split; [|reflexivity]. repeat constructor; apply u8_range.
Qed.

Section LoopFrame.

Variable clock : nat -> Z.

Lemma loop_safety_post (now : Z) (st : State) :
  exists st', loop_safety now st = Ok st' /\ post_decode st st'.
Proof.
  unfold loop_safety. destruct (_ && _).
  - rewrite sendFault_frame. eexists. split; [reflexivity|].
    unfold post_decode. simpl. repeat split; auto.
    + exists [frame CMD_FAULT [FAULT_SERIAL_TIMEOUT]]. split; [reflexivity|].
      constructor; [|constructor].
      exists CMD_FAULT, [FAULT_SERIAL_TIMEOUT]. split; [reflexivity|].
      split; [repeat constructor; unfold is_byte, FAULT_SERIAL_TIMEOUT; lia|].
      split; [simpl; lia|auto].
    + exists [(false, 0)]. split; [reflexivity|].
      constructor; [now left|constructor].
    + right. now left.
  - exists st. split; [reflexivity|apply post_decode_refl].
Qed.

Lemma loop_drive_post (st : State) : post_decode st (loop_drive st).
Proof.
  unfold loop_drive. destruct (servo_enabled st); [|apply post_decode_refl].
  unfold post_decode, servoWriteUs. simpl. repeat split; auto.
  - exists []. now rewrite app_nil_r.
  - eexists [_]. split; [reflexivity|].
    constructor; [apply servo_duty_pulse|constructor].
  - right. apply servo_duty_pulse.
Qed.

Lemma loop_telemetry_post (now : Z) (st : State) :
  exists st', loop_telemetry now st = Ok st' /\ post_decode st st'.
Proof.
  unfold loop_telemetry. destruct (_ <=? _).
  - destruct (sendTelemetry_bytes (set_last_telemetry_time now st))
      as (pl & -> & Hb & Hl).
    eexists. split; [reflexivity|].
    unfold post_decode. simpl. repeat split; auto.
    + exists [frame CMD_TELEMETRY pl]. split; [reflexivity|].
      constructor; [|constructor].
      exists CMD_TELEMETRY, pl. split; [reflexivity|].
      split; [exact Hb|]. split; [lia|auto].
    + exists []. split; [reflexivity|constructor].
  - exists st. split; [reflexivity|apply post_decode_refl].
Qed.

Lemma loop_heartbeat_post (now : Z) (st : State) :
  exists st', loop_heartbeat now st = Ok st' /\ post_decode st st'.
Proof.
  unfold loop_heartbeat. destruct (_ <=? _).
  - rewrite sendHeartbeat_frame. eexists. split; [reflexivity|].
    unfold post_decode. simpl. repeat split; auto.
    + exists [frame CMD_HEARTBEAT []]. split; [reflexivity|].
      constructor; [|constructor].
      exists CMD_HEARTBEAT, []. split; [reflexivity|].
      split; [constructor|]. split; [simpl; lia|auto].
    + exists []. split; [reflexivity|constructor].
  - exists st. split; [reflexivity|apply post_decode_refl].
Qed.

Lemma loop_rate_pace_post (now : Z) (st : State) :
  post_decode st (loop_pace clock now (loop_rate now st)).
Proof.
  unfold loop_pace, loop_rate, millis. cbv zeta.
  destruct (_ <=? _); unfold post_decode; simpl;
    (split; [reflexivity|]); (split; [reflexivity|]);
    (split; [reflexivity|]); (split; [reflexivity|]);
    (split; [reflexivity|]); (split; [reflexivity|]);
    (split; [exists []; split; [now rewrite app_nil_r|constructor]|]);
    (split; [exists []; split; [reflexivity|constructor]|]);
    now left.
Qed.

(** A call of [loop()] is its decode step followed by blocks that cannot
    fail. *)
Lemma loop_post (inp : list Z) (adc : Z) (st : State) :
  match processSerial clock inp (set_millis_calls (S (millis_calls st)) st)
  with
  | Ok st1 => exists st', loop clock inp adc st = Ok st' /\ post_decode st1 st'
  | OutOfBounds => loop clock inp adc st = OutOfBounds
  | OutOfFuel => loop clock inp adc st = OutOfFuel
  end.
Proof.
  unfold loop, millis. cbv beta iota.
  destruct (processSerial clock inp _) as [st1| |]; [|reflexivity..].
  cbn [bind].
  set (now := u32 (clock (millis_calls st))).
  destruct (loop_safety_post now st1) as (st2 & -> & P2). cbn [bind].
  set (st3 := set_servo_angle_adc (s16 adc) st2).
  assert (P3 : post_decode st2 st3).
  { unfold post_decode, st3. simpl. repeat split; auto.
    - exists []. now rewrite app_nil_r.
    - exists []. split; [reflexivity|constructor]. }
  pose proof (loop_drive_post st3) as P4.
  destruct (loop_telemetry_post now (loop_drive st3)) as (st5 & -> & P5).
  cbn [bind].
  destruct (loop_heartbeat_post now st5) as (st6 & -> & P6). cbn [bind].
  eexists. split; [reflexivity|].
  pose proof (loop_rate_pace_post now st6) as P7.
  repeat (eapply post_decode_trans; [eassumption|]).
  apply post_decode_refl.
Qed.

End LoopFrame.

(** ** Commands *)

Lemma s16_range (z : Z) : -32768 <= s16 z < 32768.
Proof.
  unfold s16. cbv zeta. pose proof (Z.mod_pos_bound z 65536 ltac:(lia)).
  destruct (_ <? _) eqn:E; [apply Z.ltb_lt in E|apply Z.ltb_ge in E]; lia.
Qed.

Lemma valid_frame_payload (buf : list Z) (p : Packet) :
  Forall is_byte buf -> valid_frame_in buf p -> Forall is_byte (payload p).
Proof.
  intros Hb (_ & off & E).
  assert (H : Forall is_byte (frame (cmd p) (payload p))).
  { rewrite <- E. now apply Forall_take, Forall_drop. }
  unfold frame, wire in H.
  do 4 (apply Forall_cons in H as [_ H]).
  now apply Forall_app in H as [H _].
Qed.

Section Commands.

Variable clock : nat -> Z.

Lemma handlePacket_ranges (c : Z) (pl : list Z) (n : Z) (st st' : State) :
  handlePacket clock c pl n st = Ok st' -> Forall is_byte pl ->
  0 <= gain st <= 100 -> -32768 <= commanded_pos st < 32768 ->
  0 <= gain st' <= 100 /\ -32768 <= commanded_pos st' < 32768.
Proof.
  unfold handlePacket, millis. cbn [fst snd]. intros H Hb Hg Hc.
  destruct (c =? CMD_SET_STEERING).
  { destruct (2 <=? n); [|injection H as <-; simpl; auto].
    apply bind_Ok_inv in H as (b0 & _ & H).
    apply bind_Ok_inv in H as (b1 & _ & H).
    injection H as <-. simpl. split; [exact Hg|apply s16_range]. }
  destruct (c =? CMD_SET_GAIN).
  { destruct (1 <=? n); [|injection H as <-; simpl; auto].
    apply bind_Ok_inv in H as (b0 & Hb0 & H).
    injection H as <-. simpl. split; [|exact Hc].
    apply rd_Ok_inv in Hb0 as [_ Hb0].
    assert (Hbyte : is_byte b0).
    { rewrite Forall_forall in Hb. apply Hb.
      eapply list_elem_of_lookup_2. exact Hb0. }
    unfold is_byte in Hbyte. lia. }
  destruct (c =? CMD_SET_ENABLE).
  2:{ destruct (c =? CMD_HEARTBEAT); injection H as <-; simpl; auto. }
  destruct (1 <=? n); [|injection H as <-; simpl; auto].
  apply bind_Ok_inv in H as (b0 & _ & H).
  injection H as <-.
  destruct (b0 =? 0) eqn:Eb; simpl; auto.
Qed.

Lemma dispatch_all_ranges (ps : list Packet) (st st' : State) :
  dispatch_all clock ps st = Ok st' ->
  Forall (fun p => Forall is_byte (payload p)) ps ->
  0 <= gain st <= 100 -> -32768 <= commanded_pos st < 32768 ->
  0 <= gain st' <= 100 /\ -32768 <= commanded_pos st' < 32768.
Proof.
  revert st. induction ps as [|p ps IH]; intros st H Hb Hg Hc.
  - injection H as <-. auto.
  - cbn [dispatch_all] in H. apply bind_Ok_inv in H as (st1 & H1 & H).
    inversion Hb as [|? ? Hp Hps]; subst.
    destruct (handlePacket_ranges _ _ _ _ _ H1 Hp Hg Hc) as [Hg1 Hc1].
    eapply IH; eauto.
Qed.

(** The dispatcher's calls write nothing but 0 to the LEDC channel and
    send nothing. *)
Lemma dispatch_all_writes (ps : list Packet) (st st' : State) :
  dispatch_all clock ps st = Ok st' ->
  exists w,
    ledc_log st' = w ++ ledc_log st /\ Forall (fun e => snd e = 0) w /\
    (ledc_duty st' = ledc_duty st \/ ledc_duty st' = 0).
Proof.
  revert st. induction ps as [|p ps IH]; intros st H.
  - injection H as <-. exists []. split; [reflexivity|]. split; [constructor|auto].
  - cbn [dispatch_all] in H. apply bind_Ok_inv in H as (st1 & H1 & H).
    destruct (IH st1 H) as (w & L & F & U).
    destruct (handlePacket_actuator _ _ _ _ _ _ H1)
      as [(_ & D1 & L1)|(D1 & L1 & _)].
    + exists (w ++ [(false, 0)]). rewrite L, L1, <- app_assoc.
      split; [reflexivity|]. split.
      * apply Forall_app. split; [exact F|]. now constructor.
      * rewrite D1 in U. destruct U; auto.
    + exists w. rewrite L, L1. split; [reflexivity|]. split; [exact F|].
      now rewrite D1 in U.
Qed.

(** What a frame does to the timeout: the time of the dispatch becomes
    the reference, and a command that is not SetEnable leaves the enable
    flag and the actuator alone. *)
Lemma handlePacket_alive (c : Z) (pl : list Z) (n : Z) (st st' : State) :
  handlePacket clock c pl n st = Ok st' ->
  (servo_enabled st = true /\ c <> CMD_SET_ENABLE) \/
  enabling (mkPacket c n pl) = true ->
  servo_enabled st' = true /\
  last_cmd_time st' = u32 (clock (millis_calls st)) /\
  ledc_duty st' = ledc_duty st /\ ledc_log st' = ledc_log st.
Proof.
  unfold handlePacket, millis, enabling. cbn [cmd len payload fst snd].
  intros H Hon.
  destruct (c =? CMD_SET_STEERING) eqn:E1.
  { apply Z.eqb_eq in E1. subst c.
    destruct Hon as [[Hon _]|Hon]; [|discriminate Hon].
    destruct (2 <=? n); [|injection H as <-; simpl; auto].
    apply bind_Ok_inv in H as (b0 & _ & H).
    apply bind_Ok_inv in H as (b1 & _ & H).
    injection H as <-. simpl. auto. }
  destruct (c =? CMD_SET_GAIN) eqn:E2.
  { apply Z.eqb_eq in E2. subst c.
    destruct Hon as [[Hon _]|Hon]; [|discriminate Hon].
    destruct (1 <=? n); [|injection H as <-; simpl; auto].
    apply bind_Ok_inv in H as (b0 & _ & H).
    injection H as <-. simpl. auto. }
  destruct (c =? CMD_SET_ENABLE) eqn:E3.
  2:{ destruct Hon as [[Hon _]|Hon]; [|discriminate Hon].
      destruct (c =? CMD_HEARTBEAT); injection H as <-; simpl; auto. }
  apply Z.eqb_eq in E3.
  destruct Hon as [[_ Hne]|Hon]; [contradiction|].
  destruct (1 <=? n); [|discriminate Hon].
  apply bind_Ok_inv in H as (b0 & Hb0 & H).
  apply rd_Ok_inv in Hb0 as [_ Hb0].
  destruct pl as [|b pl]; [discriminate|]. injection Hb0 as ->.
  injection H as <-. simpl in Hon.
  destruct (b0 =? 0) eqn:Eb; [discriminate|]. simpl. auto.
Qed.

(** One frame arriving on an empty receive buffer. *)
Lemma processSerial_one_frame (c : Z) (pl : list Z) (st : State) :
  buffer_ok st -> rx_pos st = 0 ->
  is_byte c -> Forall is_byte pl -> (length pl <= 59)%nat ->
  exists sth st' b,
    handlePacket clock c pl (Z.of_nat (length pl)) (drain (frame c pl) st)
    = Ok sth /\
    processSerial clock (frame c pl) st = Ok st' /\
    st' = set_rx_pos 0 (set_rx_buf b sth).
Proof.
  intros Hok Hpos Hc Hpl Hlen.
  destruct (drain_fits (frame c pl) st Hok) as (Hokd & _ & Hpend).
  { apply frame_bytes_ok; auto; lia. }
  { rewrite Hpos. unfold frame, wire, RX_BUF_SIZE. simpl.
    rewrite length_app. simpl. lia. }
  rewrite (pending_empty st Hpos) in Hpend. cbn [app] in Hpend.
  destruct (processSerial_drained clock (frame c pl) st [packet_of c pl] []
              Hokd)
    as (sth & st' & Hd & Hp & (b & r & Est) & Hok' & Hpend').
  { rewrite Hpend. apply Scan_one_frame. lia. }
  cbn [dispatch_all packet_of cmd payload len] in Hd.
  apply bind_Ok_inv in Hd as (s2 & Hh & Hd). injection Hd as ->.
  exists sth, st', b. split; [exact Hh|]. split; [exact Hp|].
  pose proof (pending_nil_rx_pos st' Hok' Hpend') as Hr.
  rewrite Est in Hr. simpl in Hr. now rewrite Hr in Est.
Qed.

(** X12.  A SetSteering frame that carries a position in two's
    complement, low byte first, sets [commanded_pos] to exactly that
    position, for every 16-bit position; it leaves the enable flag, the
    gain and the actuator alone and it is consumed from the buffer. *)
Theorem steering_decoded (v : Z) (st : State) :
  buffer_ok st -> rx_pos st = 0 -> -32768 <= v < 32768 ->
  exists st',
    processSerial clock (frame CMD_SET_STEERING [u8 v; u8 (v / 256)]) st
    = Ok st' /\
    commanded_pos st' = v /\ servo_enabled st' = servo_enabled st /\
    gain st' = gain st /\ ledc_log st' = ledc_log st /\ rx_pos st' = 0.
Proof.
  intros Hok Hpos Hv.
  pose proof (u8_range v) as H0. pose proof (u8_range (v / 256)) as H1.
  assert (Hval : s16 (Z.lor (u8 v) (Z.shiftl (u8 (v / 256)) 8)) = v).
  { rewrite lor_bytes by assumption. unfold s16, u8. cbv zeta.
    destruct (_ <? _) eqn:E; [apply Z.ltb_lt in E|apply Z.ltb_ge in E];
      Z.div_mod_to_equations; lia. }
  revert H0 H1 Hval. generalize (u8 v) (u8 (v / 256)). intros a0 a1 H0 H1 Hval.
  destruct (processSerial_one_frame CMD_SET_STEERING [a0; a1] st Hok Hpos)
    as (sth & st' & b & Hh & Hp & ->).
  { unfold is_byte, CMD_SET_STEERING. lia. }
  { apply Forall_cons_2; [exact H0|].
    apply Forall_cons_2; [exact H1|constructor]. }
  { simpl. lia. }
  exists (set_rx_pos 0 (set_rx_buf b sth)). split; [exact Hp|].
  destruct (drain_frame (frame CMD_SET_STEERING [a0; a1]) st) as (b' & r' & Ed).
  rewrite Ed in Hh. unfold handlePacket, millis in Hh.
  cbn [length Z.of_nat] in Hh.
  change (CMD_SET_STEERING =? CMD_SET_STEERING) with true in Hh.
  change (2 <=? Z.pos (Pos.of_succ_nat 1)) with true in Hh.
  cbv beta iota zeta in Hh.
  change (rd [a0; a1] 0) with (Ok a0 : result Z) in Hh.
  change (rd [a0; a1] 1) with (Ok a1 : result Z) in Hh.
  cbn [bind] in Hh. injection Hh as <-. simpl. rewrite Hval. auto 10.
Qed.

End Commands.

(** ** Ticks *)

Section Ticking.

Variable clock : nat -> Z.

(** A call of [loop()] that returns, split at the end of its decode
    step. *)
Lemma loop_decode_step (inp : list Z) (adc : Z) (st st' : State) :
  length (rx_buf st) = Z.to_nat RX_BUF_SIZE ->
  loop clock inp adc st = Ok st' ->
  exists ps sth st1 b r,
    dispatch_all clock ps
      (drain inp (set_millis_calls (S (millis_calls st)) st)) = Ok sth /\
    st1 = set_rx_pos r (set_rx_buf b sth) /\
    length b = Z.to_nat RX_BUF_SIZE /\
    Forall (valid_frame_in (rx_buf (drain inp st))) ps /\
    processSerial clock inp (set_millis_calls (S (millis_calls st)) st)
    = Ok st1 /\
    post_decode st1 st'.
Proof.
  intros Hlen H. pose proof (loop_post clock inp adc st) as P.
  set (stm := set_millis_calls (S (millis_calls st)) st) in *.
  destruct (processSerial clock inp stm) as [st1| |] eqn:E;
    [|rewrite P in H; discriminate..].
  destruct P as (st2 & H2 & P). rewrite H2 in H. injection H as ->.
  pose proof E as E'.
  apply processSerial_inv in E as (ps & sth & b & r & Hd & -> & Hb & Hv);
    [|exact Hlen].
  exists ps, sth, (set_rx_pos r (set_rx_buf b sth)), b, r.
  split; [exact Hd|]. split; [reflexivity|].
  split; [exact Hb|]. split; [|split; [reflexivity|exact P]].
  destruct (drain_indep inp stm st eq_refl eq_refl) as [<- _]. exact Hv.
Qed.

(** One frame arriving on an empty buffer in a tick, when it leaves the
    enable flag set. *)
Lemma loop_one_frame (c : Z) (pl : list Z) (adc : Z) (st : State) :
  buffer_ok st -> rx_pos st = 0 ->
  is_byte c -> Forall is_byte pl -> (length pl <= 59)%nat ->
  (servo_enabled st = true /\ c <> CMD_SET_ENABLE) \/
  enabling (packet_of c pl) = true ->
  exists st1 st',
    loop clock (frame c pl) adc st = Ok st' /\
    processSerial clock (frame c pl)
      (set_millis_calls (S (millis_calls st)) st) = Ok st1 /\
    servo_enabled st1 = true /\
    last_cmd_time st1 = u32 (clock (S (millis_calls st))) /\
    serial_tx st1 = serial_tx st /\ fault_code st1 = fault_code st /\
    post_decode st1 st'.
Proof.
  intros Hok Hpos Hc Hpl Hlen Hon.
  set (stm := set_millis_calls (S (millis_calls st)) st).
  destruct (processSerial_one_frame clock c pl stm Hok Hpos Hc Hpl Hlen)
    as (sth & st1 & b & Hh & Hp & Est).
  pose proof (loop_post clock (frame c pl) adc st) as P. fold stm in P.
  rewrite Hp in P. destruct P as (st' & Hl & P).
  exists st1, st'. split; [exact Hl|]. split; [exact Hp|].
  destruct (drain_frame (frame c pl) stm) as (b' & r' & Ed).
  rewrite Ed in Hh.
  pose proof (handlePacket_frame _ _ _ _ _ _ Hh) as (_ & _ & Etx & Ef & _).
  apply handlePacket_alive in Hh as (Eon & Et & _); [|exact Hon].
  subst st1. simpl. rewrite Eon, Et, Etx, Ef. simpl. auto 10.
Qed.

(** X13.  A checksum-valid frame that leaves the servo enabled (any
    command but SetEnable while it is enabled, or a SetEnable with a
    nonzero byte) restarts the timeout, however old the last command is:
    when [millis()] reads the same at the top of [loop()] and in the
    dispatcher, the tick ends with the servo enabled and driven, the time
    of the last command set to that reading, and no fault sent. *)
Theorem frame_keeps_link_alive (c : Z) (pl : list Z) (adc : Z) (st : State) :
  buffer_ok st -> rx_pos st = 0 ->
  is_byte c -> Forall is_byte pl -> (length pl <= 16)%nat ->
  (servo_enabled st = true /\ c <> CMD_SET_ENABLE) \/
  enabling (packet_of c pl) = true ->
  clock (S (millis_calls st)) = clock (millis_calls st) ->
  exists st',
    loop clock (frame c pl) adc st = Ok st' /\
    servo_enabled st' = true /\ ledc_duty st' <> 0 /\
    last_cmd_time st' = u32 (clock (millis_calls st)) /\
    fault_code st' = fault_code st /\
    count_faults (serial_tx st') = count_faults (serial_tx st).
Proof.
  intros Hok Hpos Hc Hpl Hlen Hon Hclk.
  destruct (loop_one_frame c pl adc st Hok Hpos Hc Hpl ltac:(lia) Hon)
    as (st1 & st' & Hl & Hp & Eon & Et & Etx & Ef & P).
  exists st'. split; [exact Hl|].
  apply loop_summary in Hl as (st1' & Hp' & E & _ & F & (d & Hd & _ & U)
                               & (o & T & C) & _).
  rewrite Hp in Hp'. injection Hp' as <-.
  rewrite Eon, Et, Hclk, Z.sub_diag in E, F, U, T.
  change (SERIAL_TIMEOUT_MS <? u32 0) with false in E, F, U, T.
  cbn [andb negb app] in E, F, U, T. rewrite E in U.
  split; [exact E|]. split; [now rewrite U|].
  destruct P as (_ & _ & L & _). split; [now rewrite L, Et, Hclk|].
  split; [now rewrite F|]. rewrite T, count_faults_app, C, Etx. lia.
Qed.

Lemma clock_step_wraps (t e : Z) :
  0 < e < 4294966296 -> SERIAL_TIMEOUT_MS < u32 (u32 t - u32 (t + e)).
Proof.
  intros He. unfold u32, SERIAL_TIMEOUT_MS. Z.div_mod_to_equations. lia.
Qed.

(** X14.  The timeout check subtracts [last_cmd_time] from the reading
    taken at the top of [loop()], but the dispatcher sets [last_cmd_time]
    from a later reading in the same tick.  When the millisecond counter
    advances by [e] between the two readings, the unsigned difference
    wraps to [2^32 - e]: the tick that has just dispatched the frame (a
    SetEnable that enables the servo included) clears the enable flag,
    relaxes the servo, sets [FAULT_SERIAL_TIMEOUT] and sends one fault
    packet. *)
Theorem clock_step_trips_timeout (c : Z) (pl : list Z) (adc e : Z)
        (st : State) :
  buffer_ok st -> rx_pos st = 0 ->
  is_byte c -> Forall is_byte pl -> (length pl <= 16)%nat ->
  (servo_enabled st = true /\ c <> CMD_SET_ENABLE) \/
  enabling (packet_of c pl) = true ->
  clock (S (millis_calls st)) = clock (millis_calls st) + e ->
  0 < e < 4294966296 ->
  exists st',
    loop clock (frame c pl) adc st = Ok st' /\
    dispatched st' = dispatched st ++ [packet_of c pl] /\
    servo_enabled st' = false /\ relaxed st' /\
    fault_code st' = FAULT_SERIAL_TIMEOUT /\
    In (frame CMD_FAULT [FAULT_SERIAL_TIMEOUT]) (serial_tx st') /\
    count_faults (serial_tx st') = S (count_faults (serial_tx st)).
Proof.
  intros Hok Hpos Hc Hpl Hlen Hon Hclk He.
  destruct (loop_one_frame c pl adc st Hok Hpos Hc Hpl ltac:(lia) Hon)
    as (st1 & st' & Hl & Hp & Eon & Et & Etx & Ef & P).
  exists st'. split; [exact Hl|].
  pose proof Hl as Hl2.
  apply loop_summary in Hl as (st1' & Hp' & E & D & F & (d & Hd & _ & U)
                               & (o & T & C) & _).
  rewrite Hp in Hp'. injection Hp' as <-.
  rewrite Eon, Et, Hclk in E, F, U, T.
  pose proof (clock_step_wraps (clock (millis_calls st)) e He) as Hw.
  apply Z.ltb_lt in Hw. rewrite Hw in E, F, U, T.
  cbn [andb negb app] in E, F, U, T. rewrite E in U.
  split.
  { rewrite D.
    destruct (processSerial_Scan clock (frame c pl)
                (set_millis_calls (S (millis_calls st)) st)
                [packet_of c pl] [])
      as (st2 & Hp2 & _ & _ & Hd2).
    - exact Hok.
    - apply frame_bytes_ok; auto; lia.
    - change (rx_pos (set_millis_calls (S (millis_calls st)) st))
        with (rx_pos st).
      rewrite Hpos. unfold frame, wire, RX_BUF_SIZE. simpl.
      rewrite length_app. simpl. lia.
    - rewrite pending_empty by exact Hpos. apply Scan_one_frame. lia.
    - rewrite Hp in Hp2. injection Hp2 as <-. exact Hd2. }
  split; [exact E|]. split; [exact U|]. split; [exact F|].
  split.
  - rewrite T. apply in_or_app. right. now left.
  - rewrite T, count_faults_app, Etx. cbn [count_faults].
    change (is_fault_packet (frame CMD_FAULT [FAULT_SERIAL_TIMEOUT]))
      with true.
    rewrite C. lia.
Qed.

Lemma loop_cases (inp : list Z) (adc : Z) (st : State) :
  buffer_ok st -> Forall is_byte (rx_buf st) ->
  loop clock inp adc st <> OutOfFuel /\
  (loop clock inp adc st = OutOfBounds ->
   Exists (fun b => 251 <= b) (pending (drain inp st))) /\
  (forall st', loop clock inp adc st = Ok st' ->
               buffer_ok st' /\ Forall is_byte (rx_buf st')).
Proof.
  intros Hok Hb. pose proof (loop_post clock inp adc st) as P.
  set (stm := set_millis_calls (S (millis_calls st)) st) in *.
  destruct (drain_indep inp stm st eq_refl eq_refl) as [Eb Ep].
  assert (Epend : pending (drain inp stm) = pending (drain inp st))
    by (unfold pending; now rewrite Eb, Ep).
  destruct (processSerial_cases clock inp stm Hok Hb)
    as [(st1 & k & H1 & Hok1 & Hb1 & _)|[H1 Hex]]; rewrite H1 in P.
  - destruct P as (st' & -> & (_ & _ & _ & Ppos & Pbuf & _)).
    split; [discriminate|]. split; [discriminate|].
    intros st2 [= <-]. unfold buffer_ok. rewrite Ppos, Pbuf. auto.
  - rewrite P. split; [discriminate|]. split; [|discriminate].
    intros _. now rewrite <- Epend.
Qed.

(** A tick with no pending byte above 250, split at the end of its
    decode step. *)
Lemma loop_returns (inp : list Z) (adc : Z) (st : State) :
  buffer_ok st -> Forall is_byte (rx_buf st) ->
  Forall (fun b => b <= 250) (pending (drain inp st)) ->
  exists st1 st',
    processSerial clock inp (set_millis_calls (S (millis_calls st)) st)
    = Ok st1 /\
    loop clock inp adc st = Ok st' /\ post_decode st1 st' /\
    buffer_ok st' /\ Forall is_byte (rx_buf st').
Proof.
  intros Hok Hb Hs. pose proof (loop_post clock inp adc st) as P.
  set (stm := set_millis_calls (S (millis_calls st)) st) in *.
  destruct (drain_indep inp stm st eq_refl eq_refl) as [Eb Ep].
  assert (Epend : pending (drain inp stm) = pending (drain inp st))
    by (unfold pending; now rewrite Eb, Ep).
  rewrite <- Epend in Hs.
  destruct (processSerial_returns clock inp stm Hok Hb Hs)
    as (st1 & H1 & Hok1 & Hb1 & _).
  rewrite H1 in P. destruct P as (st' & Hl & P).
  exists st1, st'. split; [exact H1|]. split; [exact Hl|].
  split; [exact P|].
  destruct P as (_ & _ & _ & Ppos & Pbuf & _).
  unfold buffer_ok. rewrite Ppos, Pbuf. auto.
Qed.

(** X15.  When no byte above 250 is pending after the drain, a call of
    [loop()] returns: its decode step stays inside the receive array, and
    the blocks behind the decode step never fail.  The receive buffer is
    then again a 64-byte array of bytes with its cursor inside. *)
Theorem loop_safe (inp : list Z) (adc : Z) (st : State) :
  buffer_ok st -> Forall is_byte (rx_buf st) ->
  Forall (fun b => b <= 250) (pending (drain inp st)) ->
  exists st',
    loop clock inp adc st = Ok st' /\ buffer_ok st' /\
    Forall is_byte (rx_buf st').
Proof.
  intros Hok Hb Hs.
  destruct (loop_returns inp adc st Hok Hb Hs) as (_ & st' & _ & H & _ & R).
  now exists st'.
Qed.

Lemma Forall_subseteq {A : Type} (P : A -> Prop) (l1 l2 : list A) :
  l1 ⊆ l2 -> Forall P l2 -> Forall P l1.
Proof.
  intros Hs H. rewrite Forall_forall in *. intros x Hx. apply H, Hs, Hx.
Qed.

Lemma loop_never_fails (inp : list Z) (adc : Z) (st : State) :
  buffer_ok st -> Forall (fun b => 0 <= b <= 250) (rx_buf st) ->
  Forall (fun b => u8 b <= 250) inp ->
  exists st',
    loop clock inp adc st = Ok st' /\ buffer_ok st' /\
    Forall (fun b => 0 <= b <= 250) (rx_buf st').
Proof.
  intros Hok Hs Hi. pose proof (loop_post clock inp adc st) as P.
  set (stm := set_millis_calls (S (millis_calls st)) st) in *.
  assert (Hb : Forall is_byte (rx_buf st)).
  { eapply Forall_impl; [exact Hs|]. intros x Hx. cbv beta in Hx. unfold is_byte. lia. }
  assert (Hd : Forall (fun b => 0 <= b <= 250) (rx_buf (drain inp stm))).
  { apply (drain_Forall (fun b => 0 <= b <= 250)); [exact Hs|].
    eapply Forall_impl; [exact Hi|]. intros x Hx. cbv beta in Hx.
    pose proof (u8_range x). lia. }
  destruct (processSerial_cases clock inp stm Hok Hb)
    as [(st1 & k & H1 & Hok1 & Hb1 & _ & _ & Hsub)|[H1 Hex]].
  - rewrite H1 in P. destruct P as (st' & Hl & (_ & _ & _ & Ppos & Pbuf & _)).
    exists st'. split; [exact Hl|]. unfold buffer_ok. rewrite Ppos, Pbuf.
    split; [exact Hok1|]. eapply Forall_subseteq; eauto.
  - exfalso. apply Exists_exists in Hex as (x & Hin & Hbig).
    assert (Hp : Forall (fun b => 0 <= b <= 250) (pending (drain inp stm)))
      by (unfold pending; now apply Forall_take).
    rewrite Forall_forall in Hp. specialize (Hp x Hin). lia.
Qed.

(** X16.  As long as no byte above 250 arrives, and none is in the
    receive array to begin with, every tick of every run returns: the
    firmware never reads outside the receive array, whatever else the
    input holds and however it is cut into ticks. *)
Theorem ticks_never_fail (ticks : list (list Z * Z)) (st : State) :
  buffer_ok st -> Forall (fun b => 0 <= b <= 250) (rx_buf st) ->
  Forall (fun t => Forall (fun b => u8 b <= 250) (fst t)) ticks ->
  exists stN,
    run_ticks clock ticks st = Ok stN /\ buffer_ok stN /\
    Forall (fun b => 0 <= b <= 250) (rx_buf stN).
Proof.
  revert st. induction ticks as [|[inp adc] ticks IH]; intros st Hok Hs Hi.
  - exists st. auto.
  - inversion Hi as [|? ? Hi1 Hi2]; subst. simpl in Hi1.
    destruct (loop_never_fails inp adc st Hok Hs Hi1) as (st1 & Hl & Hok1 & Hs1).
    cbn [run_ticks]. rewrite Hl. cbn [bind]. now apply IH.
Qed.

Lemma loop_state_ok (inp : list Z) (adc : Z) (st st' : State) :
  state_ok st -> loop clock inp adc st = Ok st' -> state_ok st'.
Proof.
  intros (Hok & Hb & Hg & Hc) H.
  destruct (loop_cases inp adc st Hok Hb) as (_ & _ & Hbuf).
  destruct (Hbuf st' H) as [Hok' Hb'].
  split; [exact Hok'|]. split; [exact Hb'|].
  apply loop_decode_step in H
      as (ps & sth & st1 & b & r & Hd & -> & _ & Hv & _ & P);
    [|apply Hok].
  destruct P as (-> & -> & _). simpl.
  destruct (drain_buffer_ok inp st Hok Hb) as [_ Hbd].
  destruct (drain_frame inp (set_millis_calls (S (millis_calls st)) st))
    as (b' & r' & Ed).
  rewrite Ed in Hd.
  eapply dispatch_all_ranges; [exact Hd| |exact Hg|exact Hc].
  eapply Forall_impl; [exact Hv|]. intros p Hp.
  eapply valid_frame_payload; eauto.
Qed.

(** X17.  In every state the firmware reaches from power-on by
    [setup()] and any number of ticks, on any input: the gain is between 0
    and 100, the commanded position is a 16-bit signed value, and the
    receive buffer is a 64-byte array of bytes with its cursor inside. *)
Theorem ranges_kept (duty0 : Z) (ticks : list (list Z * Z)) (stN : State) :
  run_ticks clock ticks (setup clock (power_on duty0)) = Ok stN ->
  state_ok stN.
Proof.
  assert (H0 : state_ok (setup clock (power_on duty0))).
  { unfold state_ok, buffer_ok, setup, millis. simpl.
    split; [split; [reflexivity|unfold RX_BUF_SIZE; lia]|].
    split; [|unfold DEFAULT_GAIN; lia].
    repeat (apply Forall_cons_2; [unfold is_byte; lia|]). constructor. }
  revert H0. generalize (setup clock (power_on duty0)).
  induction ticks as [|[inp adc] ticks IH]; intros st Hst H.
  - now injection H as <-.
  - cbn [run_ticks] in H. apply bind_Ok_inv in H as (st1 & H1 & H).
    eapply IH; [|exact H]. eapply loop_state_ok; eauto.
Qed.

Lemma run_ticks_return (ticks : list (list Z * Z)) :
  forall st : State,
    buffer_ok st -> Forall (fun b => 0 <= b <= 250) (rx_buf st) ->
    Forall (fun t => Forall (fun b => u8 b <= 250) (fst t)) ticks ->
    exists stN, run_ticks clock ticks st = Ok stN.
Proof.
  induction ticks as [|[inp adc] ticks IH]; intros st Hok Hs Hi.
  - now exists st.
  - inversion Hi as [|? ? Hi1 Hi2]; subst. simpl in Hi1.
    destruct (loop_never_fails inp adc st Hok Hs Hi1)
      as (st1 & Hl & Hok1 & Hs1).
    cbn [run_ticks]. rewrite Hl. cbn [bind]. now apply IH.
Qed.

(** X22.  The link timeout, as long as no byte above 250 arrives and none
    is in the receive array.  If the enable flag is set and, at the
    [millis()] reading taken at the top of a tick, more than
    [SERIAL_TIMEOUT_MS] have passed since the last dispatched frame, the
    tick returns, and if it dispatched no frame it has cleared the enable
    flag, relaxed the actuator, set the fault code to
    [FAULT_SERIAL_TIMEOUT] and written exactly one fault packet.  Every
    run of later ticks returns too, and if no SetEnable command with a
    nonzero payload is dispatched in it, the enable flag stays false and
    no further fault packet is written. *)
Theorem timeout_disable_total (inp : list Z) (adc : Z) (st : State)
        (later : list (list Z * Z)) :
  buffer_ok st -> Forall (fun b => 0 <= b <= 250) (rx_buf st) ->
  Forall (fun b => u8 b <= 250) inp ->
  Forall (fun t => Forall (fun b => u8 b <= 250) (fst t)) later ->
  servo_enabled st = true ->
  SERIAL_TIMEOUT_MS < u32 (u32 (clock (millis_calls st)) - last_cmd_time st) ->
  exists st' stN,
    loop clock inp adc st = Ok st' /\ run_ticks clock later st' = Ok stN /\
    (dispatched st' = dispatched st ->
     (servo_enabled st' = false /\ relaxed st' /\
      fault_code st' = FAULT_SERIAL_TIMEOUT /\
      In (frame CMD_FAULT [FAULT_SERIAL_TIMEOUT]) (serial_tx st') /\
      count_faults (serial_tx st') = S (count_faults (serial_tx st))) /\
     (Forall (fun p => enabling p = false)
             (drop (length (dispatched st')) (dispatched stN)) ->
      servo_enabled stN = false /\
      count_faults (serial_tx stN) = count_faults (serial_tx st'))).
Proof.
  intros Hok Hs Hi Hlater Hon Hto.
  destruct (loop_never_fails inp adc st Hok Hs Hi) as (st' & Hl & Hok' & Hs').
  destruct (run_ticks_return later st' Hok' Hs' Hlater) as (stN & Hrun).
  exists st', stN. split; [exact Hl|]. split; [exact Hrun|].
  intros Hnone.
  destruct (timeout_disables_once clock inp adc st st' later stN
              (proj1 Hok) Hon Hto Hl Hnone) as [H1 H2].
  split; [exact H1|]. intros Hq. now apply H2.
Qed.

(** X23.  Re-arming, as long as no byte above 250 is pending after the
    drain.  A tick that starts with the enable flag false returns, and if
    the flag is true after it, the tick dispatched a SetEnable command with
    a nonzero payload byte, read from a checksum-valid frame in the
    receive array. *)
Theorem enable_by_command_total (inp : list Z) (adc : Z) (st : State) :
  buffer_ok st -> Forall is_byte (rx_buf st) ->
  Forall (fun b => b <= 250) (pending (drain inp st)) ->
  servo_enabled st = false ->
  exists st',
    loop clock inp adc st = Ok st' /\
    (servo_enabled st' = true ->
     exists p ps,
       dispatched st' = dispatched st ++ ps /\ In p ps /\
       enabling p = true /\ valid_frame_in (rx_buf (drain inp st)) p).
Proof.
  intros Hok Hb Hs Hoff.
  destruct (loop_returns inp adc st Hok Hb Hs) as (_ & st' & _ & Hl & _).
  exists st'. split; [exact Hl|]. intros Hon.
  destruct (enable_only_by_command clock inp adc st Hoff (proj1 Hok))
    as (H & _).
  now apply H.
Qed.

End Ticking.

(** ** The actuator and the serial port in every reachable state *)

Section Boundary.

Variable clock : nat -> Z.

(** X18.  Every duty the firmware writes to the LEDC channel, and the
    duty the channel holds in every state the firmware reaches, is 0 (no
    pulses) or lies between the tick counts of [SERVO_MIN_US] and
    [SERVO_MAX_US]: no command, position or gain drives the servo outside
    its pulse range. *)
Theorem duty_in_servo_range (st : State) :
  reachable clock st ->
  servo_duty (ledc_duty st) /\
  Forall (fun e => servo_duty (snd e)) (ledc_log st).
Proof.
  intros Hr.
  assert (I : length (rx_buf st) = Z.to_nat RX_BUF_SIZE /\
              servo_duty (ledc_duty st) /\
              Forall (fun e => servo_duty (snd e)) (ledc_log st));
    [|tauto].
  induction Hr as [duty0|inp adc st st' _ IH Hl|c pl n st st' _ IH Hh].
  - unfold setup, millis. simpl. split; [reflexivity|].
    split; [now left|]. constructor; [now left|constructor].
  - destruct IH as (Hlen & Hd & Hlog).
    apply loop_decode_step in Hl
        as (ps & sth & st1 & b & r & Hdis & -> & Hb & _ & _ & P);
      [|exact Hlen].
    destruct P as (_ & _ & _ & _ & Pbuf & _ & _ & (w & W & V) & U).
    destruct (dispatch_all_writes clock ps _ _ Hdis) as (w0 & L0 & F0 & U0).
    destruct (drain_frame inp (set_millis_calls (S (millis_calls st)) st))
      as (b' & r' & Ed).
    rewrite Ed in L0, U0.
    cbn [ledc_log ledc_duty rx_buf set_rx_pos set_rx_buf set_millis_calls]
      in L0, U0, W, U, Pbuf.
    split; [now rewrite Pbuf|]. split.
    + destruct U as [U|U]; [|exact U]. rewrite U.
      destruct U0 as [->| ->]; [exact Hd|now left].
    + rewrite W, L0. apply Forall_app. split; [exact V|].
      apply Forall_app. split; [|exact Hlog].
      eapply Forall_impl; [exact F0|]. intros e He. left. exact He.
  - destruct IH as (Hlen & Hd & Hlog).
    pose proof (handlePacket_frame _ _ _ _ _ _ Hh) as (Eb & _).
    rewrite Eb. split; [exact Hlen|].
    destruct (handlePacket_actuator _ _ _ _ _ _ Hh)
      as [(_ & D & L)|(D & L & _)]; rewrite D, L.
    + split; [now left|]. constructor; [now left|exact Hlog].
    + auto.
Qed.

(** X19.  Everything the firmware writes to the serial port is one
    complete frame with its checksum, of a fault, telemetry or heartbeat
    packet with at most four payload bytes. *)
Theorem transmits_device_frames (st : State) :
  reachable clock st -> Forall device_frame (serial_tx st).
Proof.
  intros Hr.
  assert (I : length (rx_buf st) = Z.to_nat RX_BUF_SIZE /\
              Forall device_frame (serial_tx st)); [|tauto].
  induction Hr as [duty0|inp adc st st' _ IH Hl|c pl n st st' _ IH Hh].
  - unfold setup, millis. simpl. split; [reflexivity|constructor].
  - destruct IH as (Hlen & Htx).
    apply loop_decode_step in Hl
        as (ps & sth & st1 & b & r & Hdis & -> & Hb & _ & _ & P);
      [|exact Hlen].
    destruct P as (_ & _ & _ & _ & Pbuf & _ & (new & T & F) & _).
    apply dispatch_all_frame in Hdis as (_ & _ & Etx & _).
    destruct (drain_frame inp (set_millis_calls (S (millis_calls st)) st))
      as (b' & r' & Ed).
    rewrite Ed in Etx.
    cbn [serial_tx rx_buf set_rx_pos set_rx_buf set_millis_calls]
      in Etx, T, Pbuf.
    split; [now rewrite Pbuf|]. rewrite T, Etx. now apply Forall_app.
  - destruct IH as (Hlen & Htx).
    pose proof (handlePacket_frame _ _ _ _ _ _ Hh) as (Eb & _ & Etx & _).
    rewrite Eb, Etx. auto.
Qed.

End Boundary.

(** ** The periodic transmissions *)

Lemma elapsed_rollover (t e : Z) :
  0 <= e < 4294967296 -> u32 (u32 (t + e) - u32 t) = e.
Proof. intros He. unfold u32. Z.div_mod_to_equations. lia. Qed.

(** X20.  The telemetry and heartbeat timers work across the 32-bit
    rollover of [millis()]: when [e] milliseconds (less than 2^32) have
    passed since the timer was set, the block sends its packet and resets
    its timer exactly if [e] is at least the interval, wherever the
    counter wrapped in between. *)
Theorem periodic_sends_rollover_safe (t1 e1 t2 e2 : Z) (st : State) :
  0 <= e1 < 4294967296 -> 0 <= e2 < 4294967296 ->
  last_telemetry_time st = u32 t1 -> last_heartbeat_time st = u32 t2 ->
  (exists pl st',
      loop_telemetry (u32 (t1 + e1)) st = Ok st' /\
      serial_tx st'
      = serial_tx st
          ++ (if TELEMETRY_INTERVAL_MS <=? e1
              then [frame CMD_TELEMETRY pl] else []) /\
      last_telemetry_time st'
      = (if TELEMETRY_INTERVAL_MS <=? e1 then u32 (t1 + e1) else u32 t1)) /\
  (exists st',
      loop_heartbeat (u32 (t2 + e2)) st = Ok st' /\
      serial_tx st'
      = serial_tx st
          ++ (if HEARTBEAT_INTERVAL_MS <=? e2
              then [frame CMD_HEARTBEAT []] else []) /\
      last_heartbeat_time st'
      = (if HEARTBEAT_INTERVAL_MS <=? e2 then u32 (t2 + e2) else u32 t2)).
Proof.
  intros He1 He2 Ht1 Ht2. split.
  - unfold loop_telemetry. rewrite Ht1, elapsed_rollover by exact He1.
    destruct (TELEMETRY_INTERVAL_MS <=? e1).
    + destruct (sendTelemetry_bytes
                  (set_last_telemetry_time (u32 (t1 + e1)) st))
        as (pl & -> & _).
      exists pl. eexists. split; [reflexivity|]. simpl. auto.
    + exists [], st. rewrite app_nil_r. auto.
  - unfold loop_heartbeat. rewrite Ht2, elapsed_rollover by exact He2.
    destruct (HEARTBEAT_INTERVAL_MS <=? e2).
    + rewrite sendHeartbeat_frame. eexists. split; [reflexivity|].
      simpl. auto.
    + exists st. rewrite app_nil_r. auto.
Qed.

(** ** From the commanded position to the pulse width *)

Lemma s32_small (z : Z) : -2147483648 <= z < 2147483648 -> s32 z = z.
Proof.
  intros H. unfold s32. cbv zeta.
  destruct (_ <? _) eqn:E; [apply Z.ltb_lt in E|apply Z.ltb_ge in E];
    Z.div_mod_to_equations; lia.
Qed.

(** The pulse width for a scaled deflection [p = pos * gain]. *)
Lemma positionToUs_scaled (pos : Z) (st : State) :
  -3276800 <= pos * gain st <= 3276700 ->
  positionToUs pos st
  = Z.quot ((Z.quot (pos * gain st) 100 + 32768) * 2000) 65535 + 500 /\
  500 <= positionToUs pos st <= 2500.
Proof.
  intros Hp. unfold positionToUs, arduino_map, SERVO_MIN_US, SERVO_MAX_US.
  cbv zeta. generalize dependent (pos * gain st). intros p Hp.
  rewrite (s32_small p) by lia.
  assert (Hd : -32768 <= Z.quot p 100 <= 32767)
    by (Z.to_euclidean_division_equations; lia).
  generalize dependent (Z.quot p 100). intros d Hd.
  change (d - -32768) with (d + 32768).
  rewrite (s32_small (d + 32768)) by lia.
  change (s32 (2500 - 500)) with 2000.
  change (s32 (32767 - -32768)) with 65535.
  rewrite (s32_small ((d + 32768) * 2000)) by lia.
  assert (Hq : 0 <= Z.quot ((d + 32768) * 2000) 65535 <= 2000)
    by (Z.to_euclidean_division_equations; lia).
  rewrite s32_small by lia.
  unfold u32. rewrite Z.mod_small by lia. split; [reflexivity|lia].
Qed.

(** X21.  For every gain between 0 and 100 and every 16-bit position,
    with Arduino's [map] as modelled above: the 32-bit arithmetic of
    [positionToUs] does not wrap, that is, the pulse width is
    [(pos * gain / 100 + 32768) * 2000 / 65535 + 500] computed in the
    integers with truncating divisions; it lies between 500 and 2500 us,
    so that the clamp in [servoWriteUs] changes nothing; a larger position
    never gives a shorter pulse; and position 0 gives 1500 us at every
    gain. *)
Theorem positionToUs_range (pos pos' : Z) (st : State) :
  0 <= gain st <= 100 -> -32768 <= pos <= pos' -> pos' <= 32767 ->
  positionToUs pos st
  = Z.quot ((Z.quot (pos * gain st) 100 + 32768) * 2000) 65535 + 500 /\
  500 <= positionToUs pos st /\
  positionToUs pos st <= positionToUs pos' st /\
  positionToUs pos' st <= 2500 /\
  positionToUs 0 st = 1500 /\
  constrain (positionToUs pos st) SERVO_MIN_US SERVO_MAX_US
  = positionToUs pos st.
Proof.
  intros Hg Hpos Hpos'.
  assert (B : forall x, -32768 <= x <= 32767 ->
                        -3276800 <= x * gain st <= 3276700) by (intros; nia).
  destruct (positionToUs_scaled pos st (B pos ltac:(lia))) as [E R].
  destruct (positionToUs_scaled pos' st (B pos' ltac:(lia))) as [E' R'].
  destruct (positionToUs_scaled 0 st (B 0 ltac:(lia))) as [E0 _].
  split; [exact E|].
  split; [lia|]. split; [|split; [lia|split]].
  - rewrite E, E'. apply Z.add_le_mono_r.
    apply Z.quot_le_mono; [lia|].
    apply Z.mul_le_mono_nonneg_r; [lia|]. apply Z.add_le_mono_r.
    apply Z.quot_le_mono; [lia|]. nia.
  - rewrite E0. reflexivity.
  - unfold constrain, SERVO_MIN_US, SERVO_MAX_US.
    destruct (_ <? 500) eqn:E1; [apply Z.ltb_lt in E1; lia|].
    destruct (2500 <? _) eqn:E2; [apply Z.ltb_lt in E2; lia|reflexivity].
Qed.


(** * The properties at concrete inputs *)

(** [roundtrip_encode_decode] for SetSteering with payload 00 80. *)
Lemma roundtrip_encode_decode_witness :
  exists bytes sender' st',
    sendPacket CMD_SET_STEERING [0; 128] 2 (power_on 0) = Ok sender' /\
    serial_tx sender' = serial_tx (power_on 0) ++ [bytes] /\
    processSerial (fun _ => 0) bytes (power_on 0) = Ok st' /\
    dispatched st'
    = dispatched (power_on 0) ++ [mkPacket CMD_SET_STEERING 2 [0; 128]] /\
    rx_pos st' = 0.
Proof.
  apply (roundtrip_encode_decode (fun _ => 0) CMD_SET_STEERING [0; 128]
           (power_on 0) (power_on 0)).
  - unfold is_byte, CMD_SET_STEERING. lia.
  - repeat constructor; unfold is_byte; lia.
  - simpl. lia.
  - split; [reflexivity|]. unfold RX_BUF_SIZE. simpl. lia.
  - reflexivity.
Defined.

(** [overflow_reset_then_frame] for 70 zero bytes arriving in one tick at
    an empty buffer, followed by a SetEnable frame. *)
Lemma overflow_reset_then_frame_witness :
  rx_pos (drain (replicate 70 0) (power_on 0)) = 6 /\
  exists st1 st2,
    processSerial (fun _ => 0) (replicate 70 0) (power_on 0) = Ok st1 /\
    dispatched st1 = dispatched (power_on 0) /\
    processSerial (fun _ => 0) (frame CMD_SET_ENABLE [1]) st1 = Ok st2 /\
    dispatched st2 = dispatched (power_on 0) ++ [packet_of CMD_SET_ENABLE [1]].
Proof.
  destruct (overflow_reset_then_frame (fun _ => 0) (replicate 70 0)
              CMD_SET_ENABLE [1] (power_on 0))
    as (Hpos & _ & _ & Hnext & _).
  - split; [reflexivity|]. unfold RX_BUF_SIZE. simpl. lia.
  - apply Forall_replicate. unfold is_byte. lia.
  - reflexivity.
  - unfold RX_BUF_SIZE. simpl. lia.
  - unfold is_byte, CMD_SET_ENABLE. lia.
  - repeat constructor; unfold is_byte; lia.
  - simpl. lia.
  - split; [exact Hpos|exact Hnext].
Defined.

(** [resync_chunked] for the garbage 01 02 03, a Heartbeat frame, a SetGain
    frame with a wrong trailing byte and a SetEnable frame, cut into five
    chunks that split headers, payloads and checksums. *)
Lemma resync_chunked_witness :
  exists st',
    run_chunks (fun _ => 0)
      [[1; 2; 3; 170]; [85; 240; 0]; [20; 170; 85; 2; 1; 7; 0; 170; 85; 3];
       [1; 1]; [175]] (power_on 0) = Ok st' /\
    dispatched st'
    = dispatched (power_on 0)
        ++ [packet_of CMD_HEARTBEAT []; packet_of CMD_SET_ENABLE [1]] /\
    rx_pos st' = 0.
Proof.
  apply (resync_chunked (fun _ => 0) [1; 2; 3]
           CMD_HEARTBEAT [] CMD_SET_GAIN [7] 0 CMD_SET_ENABLE [1]).
  all: try (unfold is_byte; vm_compute; intuition congruence).
  all: try (repeat constructor; unfold is_byte; vm_compute;
            intuition congruence).
Defined.

(** [short_payload_ignored] for a SetSteering command with a one-byte
    payload. *)
Lemma short_payload_ignored_witness :
  exists st',
    handlePacket (fun _ => 7) CMD_SET_STEERING [5] 1 (power_on 0) = Ok st' /\
    commanded_pos st' = 0 /\ gain st' = DEFAULT_GAIN /\
    servo_enabled st' = false /\ fault_code st' = FAULT_NONE /\
    ledc_duty st' = 0 /\ last_cmd_time st' = 7.
Proof.
  destruct (short_payload_ignored (fun _ => 7) CMD_SET_STEERING [5] 1
              (power_on 0)) as [H _].
  - left. split; [reflexivity|lia].
  - exact H.
Defined.

(** [gain_clamp_and_zero_gain] for SetGain(150) and the commanded position
    12345 at gain 0. *)
Lemma gain_clamp_and_zero_gain_witness :
  (exists st',
      handlePacket (fun _ => 0) CMD_SET_GAIN [150] 1 (set_gain 0 (power_on 0))
      = Ok st' /\ gain st' = 100) /\
  positionToUs 12345 (set_gain 0 (power_on 0)) = 1500.
Proof.
  destruct (gain_clamp_and_zero_gain (fun _ => 0) 150 12345
              (set_gain 0 (power_on 0))) as [H1 H2].
  - lia.
  - split; [exact H1|]. apply H2. reflexivity.
Defined.

(** [disabled_is_relaxed] for the state after [setup()] and one tick that
    receives SetEnable(1) followed by SetEnable(0). *)
Lemma disabled_is_relaxed_witness :
  let st := setup (fun _ => 0) (power_on 7) in
  let inp := frame CMD_SET_ENABLE [1] ++ frame CMD_SET_ENABLE [0] in
  let st' := final_state (loop (fun _ => 0) inp 0 st) st in
  servo_enabled st' = false /\ relaxed st' /\ pulses_only_enabled st'.
Proof.
  intros st inp st'.
  destruct (disabled_is_relaxed (fun _ => 0) st') as [H1 H2].
  - apply (reach_loop (fun _ => 0) inp 0 st st').
    + apply reach_setup.
    + vm_compute. reflexivity.
  - split; [vm_compute; reflexivity|]. split; [|exact H2].
    apply H1. vm_compute. reflexivity.
Defined.

Lemma power_on_buffer (duty0 : Z) :
  buffer_ok (power_on duty0) /\
  Forall (fun b => 0 <= b <= 250) (rx_buf (power_on duty0)) /\
  Forall is_byte (rx_buf (power_on duty0)).
Proof.
  split; [split; [reflexivity|unfold RX_BUF_SIZE; simpl; lia]|].
  split; apply Forall_replicate; unfold is_byte; lia.
Qed.

(** [crc8_detects_one_byte] for the messages 01 04 32 07 and
    01 04 33 07. *)
Lemma crc8_detects_one_byte_witness :
  crc8 ([1; 4] ++ 50 :: [7]) <> crc8 ([1; 4] ++ 51 :: [7]).
Proof.
  apply crc8_detects_one_byte;
    try (repeat constructor; unfold is_byte; lia); unfold is_byte; lia.
Defined.

(** [corrupted_frame_dropped] for a SetGain(50) frame whose payload byte
    became 51, and for a Heartbeat frame, which has no payload, whose
    command byte became SetEnable. *)
Lemma corrupted_frame_dropped_witness :
  (exists st',
      processSerial (fun _ => 0)
        (wire CMD_SET_GAIN (<[0%nat := 51]> [50]) (checksum CMD_SET_GAIN [50]))
        (power_on 0) = Ok st' /\
      dispatched st' = dispatched (power_on 0) /\ rx_pos st' = 0) /\
  (exists st',
      processSerial (fun _ => 0)
        (wire CMD_SET_ENABLE [] (checksum CMD_HEARTBEAT []))
        (power_on 0) = Ok st' /\
      dispatched st' = dispatched (power_on 0) /\ rx_pos st' = 0).
Proof.
  split.
  - destruct (corrupted_frame_dropped (fun _ => 0) CMD_SET_GAIN [50]
                (power_on 0)) as [H _].
    + apply power_on_buffer.
    + reflexivity.
    + unfold is_byte, CMD_SET_GAIN. lia.
    + repeat constructor; unfold is_byte; lia.
    + simpl. lia.
    + apply (H 0%nat 51).
      * unfold is_byte. lia.
      * simpl. lia.
      * simpl. intros [=].
  - destruct (corrupted_frame_dropped (fun _ => 0) CMD_HEARTBEAT []
                (power_on 0)) as [_ H].
    + apply power_on_buffer.
    + reflexivity.
    + unfold is_byte, CMD_HEARTBEAT. lia.
    + constructor.
    + simpl. lia.
    + apply (H CMD_SET_ENABLE).
      * unfold is_byte, CMD_SET_ENABLE. lia.
      * unfold CMD_SET_ENABLE, CMD_HEARTBEAT. lia.
Defined.

(** [frames_chunked] for the garbage 01 02 03, a Heartbeat frame, a SetGain
    frame with a wrong trailing byte and a SetEnable frame, in five
    chunks. *)
Lemma frames_chunked_witness :
  exists st',
    run_chunks (fun _ => 0)
      [[1; 2; 3; 170]; [85; 240; 0]; [20; 170; 85; 2; 1; 7; 0; 170; 85; 3];
       [1; 1]; [175]] (power_on 0) = Ok st' /\
    dispatched st'
    = dispatched (power_on 0)
        ++ frames_packets [(CMD_HEARTBEAT, [], 20); (CMD_SET_GAIN, [7], 0);
                           (CMD_SET_ENABLE, [1], 175)] /\
    rx_pos st' = 0.
Proof.
  apply (frames_chunked (fun _ => 0) [1; 2; 3] (CMD_HEARTBEAT, [], 20)
           [(CMD_SET_GAIN, [7], 0); (CMD_SET_ENABLE, [1], 175)]).
  - apply power_on_buffer.
  - reflexivity.
  - repeat constructor; unfold is_byte; lia.
  - reflexivity.
  - repeat (apply Forall_cons_2; [unfold frame_ok; simpl; repeat split;
             try (repeat constructor); unfold is_byte; vm_compute;
             intuition congruence|]).
    constructor.
  - reflexivity.
  - vm_compute. reflexivity.
Defined.

(** [processSerial_safe] for two stray bytes, a SetGain frame, a frame
    with a wrong trailing byte and the first three bytes of another
    frame. *)
Lemma processSerial_safe_witness :
  let inp := [9; 170] ++ frame CMD_SET_GAIN [7]
               ++ wire CMD_SET_ENABLE [1] 0 ++ [170; 85; 1] in
  exists st', processSerial (fun _ => 0) inp (power_on 0) = Ok st'.
Proof.
  intros inp.
  apply (processSerial_safe (fun _ => 0) inp (power_on 0));
    try apply power_on_buffer.
  vm_compute.
  repeat (apply Forall_cons_2; [discriminate|]). apply Forall_nil_2.
Defined.

(** [processSerial_leftover] for a SetGain frame followed by the first
    five bytes of a SetSteering frame. *)
Lemma processSerial_leftover_witness :
  let inp := frame CMD_SET_GAIN [7] ++ [170; 85; 1; 2; 9] in
  let st' := final_state (processSerial (fun _ => 0) inp (power_on 0))
               (power_on 0) in
  pending st' = [170; 85; 1; 2; 9] /\
  buffer_ok st' /\ Forall is_byte (rx_buf st') /\
  awaiting (pending st') /\
  exists k, pending st' = drop k (pending (drain inp (power_on 0))).
Proof.
  intros inp st'. split; [vm_compute; reflexivity|].
  apply (processSerial_leftover (fun _ => 0) inp (power_on 0) st');
    try apply power_on_buffer.
  vm_compute. reflexivity.
Defined.

(** [decoder_sound] for a SetGain frame between stray bytes. *)
Lemma decoder_sound_witness :
  let inp := [9; 170] ++ frame CMD_SET_GAIN [7] ++ [1; 2] in
  exists st' ps,
    processSerial (fun _ => 0) inp (power_on 0) = Ok st' /\
    dispatched st' = dispatched (power_on 0) ++ ps /\
    Forall (valid_frame_in (rx_buf (drain inp (power_on 0)))) ps.
Proof.
  intros inp.
  apply (decoder_sound (fun _ => 0) inp (power_on 0));
    try apply power_on_buffer.
  vm_compute.
  repeat (apply Forall_cons_2; [discriminate|]). apply Forall_nil_2.
Defined.

(** [drain_in_bounds] for 70 bytes arriving in one tick. *)
Lemma drain_in_bounds_witness :
  drain_checked (replicate 70 9) (power_on 0)
  = Ok (drain (replicate 70 9) (power_on 0)).
Proof.
  apply (drain_in_bounds (replicate 70 9) (power_on 0)).
  - reflexivity.
  - simpl. lia.
Defined.

(** [telemetry_little_endian] for the ADC reading 2748 and a loop rate of
    300. *)
Lemma telemetry_little_endian_witness :
  let st := set_loop_rate_hz 300 (set_servo_angle_adc 2748 (power_on 0)) in
  exists a0 a1 r0 r1,
    sendTelemetry st
    = Ok (Serial_write (frame CMD_TELEMETRY [a0; a1; r0; r1]) st) /\
    Forall is_byte [a0; a1; r0; r1] /\
    s16 (Z.lor a0 (Z.shiftl a1 8)) = 2748 /\
    Z.lor r0 (Z.shiftl r1 8) = 300.
Proof.
  intros st. apply (telemetry_little_endian st); simpl; lia.
Defined.

(** [steering_decoded] for the position -2, sent as FE FF. *)
Lemma steering_decoded_witness :
  exists st',
    processSerial (fun _ => 0)
      (frame CMD_SET_STEERING [u8 (-2); u8 (-2 / 256)]) (power_on 0)
    = Ok st' /\
    commanded_pos st' = -2 /\
    servo_enabled st' = servo_enabled (power_on 0) /\
    gain st' = gain (power_on 0) /\
    ledc_log st' = ledc_log (power_on 0) /\ rx_pos st' = 0.
Proof.
  apply (steering_decoded (fun _ => 0) (-2) (power_on 0)).
  - apply power_on_buffer.
  - reflexivity.
  - lia.
Defined.

(** [servoWriteUs_duty] for the pulse widths 100 and 3000 us. *)
Lemma servoWriteUs_duty_witness :
  let d := ledc_duty (servoWriteUs 100 (power_on 0)) in
  d = constrain 100 SERVO_MIN_US SERVO_MAX_US * 65536 / 20000 /\
  1638 <= d <= 8192 /\ d <= ledc_duty (servoWriteUs 3000 (power_on 0)).
Proof. apply (servoWriteUs_duty 100 3000 (power_on 0)). lia. Defined.

(** [duty_in_servo_range] for the state after [setup()] and one tick that
    receives SetEnable(1). *)
Lemma duty_in_servo_range_witness :
  let st := setup (fun _ => 0) (power_on 7) in
  let st' := final_state
               (loop (fun _ => 0) (frame CMD_SET_ENABLE [1]) 0 st) st in
  ledc_duty st' = 4915 /\
  servo_duty (ledc_duty st') /\
  Forall (fun e => servo_duty (snd e)) (ledc_log st').
Proof.
  intros st st'. split; [vm_compute; reflexivity|].
  apply (duty_in_servo_range (fun _ => 0) st').
  apply (reach_loop (fun _ => 0) (frame CMD_SET_ENABLE [1]) 0 st st').
  - apply reach_setup.
  - vm_compute. reflexivity.
Defined.

(** [transmits_device_frames] for the state after [setup()] and one tick
    at time 600, which sends telemetry and a heartbeat. *)
Lemma transmits_device_frames_witness :
  let st := setup (fun _ => 600) (power_on 0) in
  let st' := final_state (loop (fun _ => 600) [] 0 st) st in
  length (serial_tx st') = 2%nat /\ Forall device_frame (serial_tx st').
Proof.
  intros st st'. split; [vm_compute; reflexivity|].
  apply (transmits_device_frames (fun _ => 600) st').
  apply (reach_loop (fun _ => 600) [] 0 st st').
  - apply reach_setup.
  - vm_compute. reflexivity.
Defined.

(** [frame_keeps_link_alive] for a Heartbeat frame received at time 5000
    by an enabled servo whose last command dates from time 0. *)
Lemma frame_keeps_link_alive_witness :
  let st := set_servo_enabled true (power_on 0) in
  exists st',
    loop (fun _ => 5000) (frame CMD_HEARTBEAT []) 0 st = Ok st' /\
    servo_enabled st' = true /\ ledc_duty st' <> 0 /\
    last_cmd_time st' = u32 5000 /\
    fault_code st' = fault_code st /\
    count_faults (serial_tx st') = count_faults (serial_tx st).
Proof.
  intros st.
  apply (frame_keeps_link_alive (fun _ => 5000) CMD_HEARTBEAT [] 0 st).
  - apply (power_on_buffer 0).
  - reflexivity.
  - unfold is_byte, CMD_HEARTBEAT. lia.
  - constructor.
  - simpl. lia.
  - left. split; [reflexivity|]. unfold CMD_HEARTBEAT, CMD_SET_ENABLE. lia.
  - reflexivity.
Defined.

(** [clock_step_trips_timeout] for a SetEnable(1) frame received at
    power-on by a clock that advances by 1 ms per reading. *)
Lemma clock_step_trips_timeout_witness :
  exists st',
    loop Z.of_nat (frame CMD_SET_ENABLE [1]) 0 (power_on 0) = Ok st' /\
    dispatched st'
    = dispatched (power_on 0) ++ [packet_of CMD_SET_ENABLE [1]] /\
    servo_enabled st' = false /\ relaxed st' /\
    fault_code st' = FAULT_SERIAL_TIMEOUT /\
    In (frame CMD_FAULT [FAULT_SERIAL_TIMEOUT]) (serial_tx st') /\
    count_faults (serial_tx st') = S (count_faults (serial_tx (power_on 0))).
Proof.
  apply (clock_step_trips_timeout Z.of_nat CMD_SET_ENABLE [1] 0 1
           (power_on 0)).
  - apply power_on_buffer.
  - reflexivity.
  - unfold is_byte, CMD_SET_ENABLE. lia.
  - repeat constructor; unfold is_byte; lia.
  - simpl. lia.
  - right. reflexivity.
  - reflexivity.
  - lia.
Defined.

(** [loop_safe] for a tick at power-on that receives two stray bytes,
    a SetGain frame and the first three bytes of another frame. *)
Lemma loop_safe_witness :
  let inp := [9; 170] ++ frame CMD_SET_GAIN [7] ++ [170; 85; 1] in
  exists st',
    loop (fun _ => 0) inp 0 (power_on 0) = Ok st' /\ buffer_ok st' /\
    Forall is_byte (rx_buf st').
Proof.
  intros inp.
  apply (loop_safe (fun _ => 0) inp 0 (power_on 0));
    try apply power_on_buffer.
  vm_compute.
  repeat (apply Forall_cons_2; [discriminate|]). apply Forall_nil_2.
Defined.

(** [ticks_never_fail] for two ticks, the first with stray bytes, the
    second with a Heartbeat frame. *)
Lemma ticks_never_fail_witness :
  exists stN,
    run_ticks (fun _ => 0) [([1; 2; 250], 0); ([170; 85; 240; 0; 20], 0)]
      (power_on 0) = Ok stN /\
    buffer_ok stN /\ Forall (fun b => 0 <= b <= 250) (rx_buf stN).
Proof.
  apply (ticks_never_fail (fun _ => 0)
           [([1; 2; 250], 0); ([170; 85; 240; 0; 20], 0)] (power_on 0)).
  - apply power_on_buffer.
  - apply power_on_buffer.
  - repeat (apply Forall_cons_2;
            [simpl; repeat (apply Forall_cons_2; [vm_compute; discriminate|]);
             apply Forall_nil_2|]).
    apply Forall_nil_2.
Defined.

(** [ranges_kept] for a tick after [setup()] that receives SetGain(200). *)
Lemma ranges_kept_witness :
  let stN := final_state
               (run_ticks (fun _ => 0) [(frame CMD_SET_GAIN [200], 0)]
                  (setup (fun _ => 0) (power_on 0))) (power_on 0) in
  gain stN = 100 /\ state_ok stN.
Proof.
  intros stN. split; [vm_compute; reflexivity|].
  apply (ranges_kept (fun _ => 0) 0 [(frame CMD_SET_GAIN [200], 0)] stN).
  vm_compute. reflexivity.
Defined.

(** [periodic_sends_rollover_safe] for timers last set 6 ms before the
    32-bit rollover and a reading 25 ms later. *)
Lemma periodic_sends_rollover_safe_witness :
  let st := set_last_heartbeat_time 4294967290
              (set_last_telemetry_time 4294967290 (power_on 0)) in
  (exists pl st',
      loop_telemetry 19 st = Ok st' /\
      serial_tx st' = serial_tx st ++ [frame CMD_TELEMETRY pl] /\
      last_telemetry_time st' = 19) /\
  (exists st',
      loop_heartbeat 19 st = Ok st' /\
      serial_tx st' = serial_tx st ++ [] /\
      last_heartbeat_time st' = 4294967290).
Proof.
  intros st.
  apply (periodic_sends_rollover_safe 4294967290 25 4294967290 25 st).
  - lia.
  - lia.
  - reflexivity.
  - reflexivity.
Defined.

(** [positionToUs_range] for the positions -20000 and 32767 at gain
    40. *)
Lemma positionToUs_range_witness :
  let st := set_gain 40 (power_on 0) in
  positionToUs (-20000) st = 1255 /\ positionToUs 32767 st = 1899 /\
  positionToUs (-20000) st
  = Z.quot ((Z.quot (-20000 * gain st) 100 + 32768) * 2000) 65535 + 500 /\
  500 <= positionToUs (-20000) st /\
  positionToUs (-20000) st <= positionToUs 32767 st /\
  positionToUs 32767 st <= 2500 /\
  positionToUs 0 st = 1500 /\
  constrain (positionToUs (-20000) st) SERVO_MIN_US SERVO_MAX_US
  = positionToUs (-20000) st.
Proof.
  intros st. split; [reflexivity|]. split; [reflexivity|].
  apply (positionToUs_range (-20000) 32767 st); simpl; lia.
Defined.

(** [timeout_disable_total] for an enabled servo whose last command dates
    from time 0, a tick at time 5000 that receives three stray bytes, and
    two silent ticks after it. *)
Lemma timeout_disable_total_witness :
  let st := set_servo_enabled true (power_on 0) in
  exists st' stN,
    loop (fun _ => 5000) [1; 2; 3] 0 st = Ok st' /\
    run_ticks (fun _ => 5000) [([], 0); ([], 0)] st' = Ok stN /\
    (dispatched st' = dispatched st ->
     (servo_enabled st' = false /\ relaxed st' /\
      fault_code st' = FAULT_SERIAL_TIMEOUT /\
      In (frame CMD_FAULT [FAULT_SERIAL_TIMEOUT]) (serial_tx st') /\
      count_faults (serial_tx st') = S (count_faults (serial_tx st))) /\
     (Forall (fun p => enabling p = false)
             (drop (length (dispatched st')) (dispatched stN)) ->
      servo_enabled stN = false /\
      count_faults (serial_tx stN) = count_faults (serial_tx st'))).
Proof.
  intros st.
  apply (timeout_disable_total (fun _ => 5000) [1; 2; 3] 0 st
           [([], 0); ([], 0)]).
  - apply (power_on_buffer 0).
  - apply (power_on_buffer 0).
  - repeat (apply Forall_cons_2; [vm_compute; discriminate|]).
    apply Forall_nil_2.
  - repeat (apply Forall_cons_2; [apply Forall_nil_2|]). apply Forall_nil_2.
  - reflexivity.
  - vm_compute. reflexivity.
Defined.

(** [enable_by_command_total] for a tick after [setup()] that receives
    SetEnable(1). *)
Lemma enable_by_command_total_witness :
  let st := setup (fun _ => 0) (power_on 0) in
  let inp := frame CMD_SET_ENABLE [1] in
  exists st',
    loop (fun _ => 0) inp 0 st = Ok st' /\
    (servo_enabled st' = true ->
     exists p ps,
       dispatched st' = dispatched st ++ ps /\ In p ps /\
       enabling p = true /\ valid_frame_in (rx_buf (drain inp st)) p).
Proof.
  intros st inp.
  apply (enable_by_command_total (fun _ => 0) inp 0 st).
  - apply (power_on_buffer 0).
  - apply (power_on_buffer 0).
  - vm_compute.
    repeat (apply Forall_cons_2; [discriminate|]). apply Forall_nil_2.
  - reflexivity.
Defined.
